(** * CanonicalStaging: crawl frontier, audit dispatch and the two diff detectors

  A shallow embedding of the core of the landing-page auditor:
  - [CrawlerEngine]            (discoverUrls / crawlPage),
  - [AuditEngine]              (auditSingleUrl, handleRateLimit,
                                runAuditorWithTimeout, compileAuditResults),
  - [HTMLStructureAuditor]     (heading / meta / style diff, correlation, score),
  - [VisualRegressionAuditor]  (compareScreenshots, processComparison, score),
  - [AuditResult]              (per-URL score),
  - [Pool]                     (the worker pool of AuditEngine.auditUrls),
  - [AuditSummary]             (counters and rates of a run),
  - [Cache], [RateLimiter]     (the crawler's utilities).

  Conventions.
  - A JS number that is always an integer in the code path at hand is a [Z];
    a number that can be fractional is a [Q].  [NaN] and [undefined] are
    [None].  IEEE rounding is not modelled: arithmetic on [Q] is exact.
  - A JS object or [Map] whose iteration order is observable is an
    insertion-ordered association list ([JS.Obj]); a [Map] that is only
    read by key is a [gmap].
  - Wall-clock fields ([timestamp], [loadTime], [duration]) and log calls
    are left out of the records: nothing below reads them. *)

From Stdlib Require Import ZArith QArith Qround Lia Lqa.
From stdpp Require Import base option list strings gmap pretty.

Local Open Scope Z_scope.

(* ===================================================================== *)
(** * Part I: the embedding                                               *)
(* ===================================================================== *)

(** ** JavaScript runtime helpers *)

Module JS.

(** [Array.prototype.forEach((x, index) => ...)] with the callback's
    mutations of the enclosing variables threaded as a state. *)
Fixpoint forEachFrom {A St : Type} (f : A → nat → St → St)
    (index : nat) (l : list A) (s : St) : St :=
  match l with
  | [] => s
  | x :: l' => forEachFrom f (S index) l' (f x index s)
  end.

Definition forEach {A St : Type} (f : A → nat → St → St)
    (l : list A) (s : St) : St :=
  forEachFrom f 0 l s.

(** [array.push(...xs)]. *)
Definition push {A : Type} (l xs : list A) : list A := l ++ xs.

(** [String.prototype.includes]. *)
Fixpoint includes (s sub : string) : bool :=
  String.prefix sub s
  || match s with
     | EmptyString => false
     | String _ s' => includes s' sub
     end.

(** Insertion-ordered string-keyed object (also [Map]). *)
Definition Obj (V : Type) : Type := list (string * V).

Fixpoint get {V : Type} (o : Obj V) (k : string) : option V :=
  match o with
  | [] => None
  | (k', v) :: o' => if String.eqb k' k then Some v else get o' k
  end.

(** [o[k] = v] / [map.set(k, v)]: overwrite in place, else append. *)
Fixpoint set {V : Type} (o : Obj V) (k : string) (v : V) : Obj V :=
  match o with
  | [] => [(k, v)]
  | (k', v') :: o' =>
      if String.eqb k' k then (k', v) :: o' else (k', v') :: set o' k v
  end.

(** [new Map(pairs)]. *)
Definition mapOf {V : Type} (pairs : list (string * V)) : Obj V :=
  fold_left (λ m kv, set m kv.1 kv.2) pairs [].

(** [a > b] on numbers, where [None] is [NaN] or [undefined]. *)
Definition gt (a b : option Q) : bool :=
  match a, b with
  | Some x, Some y => negb (Qle_bool x y)
  | _, _ => false
  end.

(** [Math.round] on a rational: round half up. *)
Definition round (x : Q) : Z := Qfloor (x + (1 # 2))%Q.

(** [a || b] on strings that may be [null]/[undefined]: the empty string
    is falsy too. *)
Definition orStr (a : option string) (b : option string) : option string :=
  match a with
  | Some EmptyString | None => b
  | Some _ => a
  end.

(** [x.toFixed(2)] for a non-negative [x]: two decimals, half up. *)
Definition toFixed2 (x : Q) : string :=
  let n := round (x * 100)%Q in
  let frac := n `mod` 100 in
  pretty (n `div` 100) +:+ "."
  +:+ (if bool_decide (frac < 10) then "0" else "") +:+ pretty frac.

(** [a + b] where either side may be [undefined] or [NaN]. *)
Definition add (a b : option Q) : option Q :=
  match a, b with
  | Some x, Some y => Some (x + y)%Q
  | _, _ => None
  end.

End JS.

(** [parseFloat] is a builtin, not code of the repository: the development
  is parametric in it.  [None] is [NaN]; an [undefined] argument is
  [None] as well and yields [NaN]. *)
Class ParseFloat := parseFloat : option string → option Q.

(** A [parseFloat] for plain decimal literals (leading blanks, a sign,
    digits, a fraction; no exponent, no [Infinity]): what a computed
    [font-size] such as [19.2px] or a [font-weight] such as [700] needs.
    Used to run the model on concrete snapshots. *)
Module Decimal.

Definition isDigit (c : Ascii.ascii) : bool :=
  let n := Ascii.nat_of_ascii c in (48 <=? n)%nat && (n <=? 57)%nat.

Definition isBlank (c : Ascii.ascii) : bool :=
  let n := Ascii.nat_of_ascii c in
  (n =? 32)%nat || ((9 <=? n)%nat && (n <=? 13)%nat).

Fixpoint skipBlanks (s : string) : string :=
  match s with
  | String c s' => if isBlank c then skipBlanks s' else s
  | EmptyString => s
  end.

Fixpoint digitsOf (s : string) : list Z * string :=
  match s with
  | String c s' =>
      if isDigit c then
        let '(ds, r) := digitsOf s' in
        (Z.of_nat (Ascii.nat_of_ascii c - 48) :: ds, r)
      else ([], s)
  | EmptyString => ([], s)
  end.

Definition valueOf (ds : list Z) : Z := fold_left (λ a d, 10 * a + d) ds 0.

Definition parse (o : option string) : option Q :=
  match o with
  | None => None
  | Some s =>
      let s := skipBlanks s in
      let '(negative, s) :=
        match s with
        | String c s' =>
            if (Ascii.nat_of_ascii c =? 45)%nat then (true, s')
            else if (Ascii.nat_of_ascii c =? 43)%nat then (false, s')
            else (false, s)
        | EmptyString => (false, s)
        end in
      let '(ip, r) := digitsOf s in
      let fp :=
        match r with
        | String c r' =>
            if (Ascii.nat_of_ascii c =? 46)%nat then (digitsOf r').1 else []
        | EmptyString => []
        end in
      match ip, fp with
      | [], [] => None
      | _, _ =>
          let magnitude :=
            (inject_Z (valueOf ip)
             + Qmake (valueOf fp) (Z.to_pos (10 ^ Z.of_nat (length fp))))%Q in
          Some (Qred (if negative then - magnitude else magnitude)%Q)
      end
  end.

End Decimal.

(** ** BaseAuditor: issue constructors *)

Module BaseAuditor.

Section Issues.
Context {Details : Type}.

Record Issue := {
  type : string;
  severity : string;
  message : string;
  details : Details;
}.

Record Recommendation := {
  recType : string;
  recMessage : string;
  recDetails : Details;
}.

Definition createIssue (ty sev msg : string) (d : Details) : Issue :=
  {| type := ty; severity := sev; message := msg; details := d |}.

Definition createWarning (ty msg : string) (d : Details) : Issue :=
  createIssue ty "warning" msg d.

Definition createError (ty msg : string) (d : Details) : Issue :=
  createIssue ty "error" msg d.

Definition createRecommendation (ty msg : string) (d : Details)
    : Recommendation :=
  {| recType := ty; recMessage := msg; recDetails := d |}.
End Issues.

Arguments Issue : clear implicits.
Arguments Recommendation : clear implicits.

End BaseAuditor.

(** ** models/AuditResult *)

Module AuditResult.
Import BaseAuditor.

Section WithDetails.
Context {Details Finding : Type}.

(** The [data] object handed to the constructor; [None] is an absent
    key. *)
Record Data := {
  d_url : option string;
  d_success : option bool;
  d_error : option string;
  d_statusCode : option Z;
  d_crawlDepth : option Z;
  d_crawlSource : option string;
  d_canonical : option Finding;
  d_metaTags : option Finding;
  d_headings : option Finding;
  d_redirects : option Finding;
  d_brokenLinks : option Finding;
  d_structuredData : option Finding;
  d_performance : option Finding;
  d_accessibility : option Finding;
  d_issues : option (list (Issue Details));
  d_warnings : option (list (Issue Details));
  d_recommendations : option (list (Recommendation Details));
}.

(** [calculateAuditScore], reading the fields already assigned. *)
Definition calculateAuditScore (success : bool)
    (issues warnings : list (Issue Details)) : Z :=
  if negb success then 0
  else
    let score := 100 in
    let criticalIssues :=
      Z.of_nat (length (filter (λ i, severity i = "error") issues)) in
    let nwarnings := Z.of_nat (length warnings) in
    let score := score - criticalIssues * 15 in
    let score := score - nwarnings * 5 in
    Z.max 0 (Z.min 100 score).

Record t := {
  url : string;
  success : bool;
  error : option string;
  statusCode : Z;
  crawlDepth : Z;
  crawlSource : string;
  canonical : option Finding;
  metaTags : option Finding;
  headings : option Finding;
  redirects : option Finding;
  brokenLinks : option Finding;
  structuredData : option Finding;
  performance : option Finding;
  accessibility : option Finding;
  issues : list (Issue Details);
  warnings : list (Issue Details);
  recommendations : list (Recommendation Details);
  auditScore : Z;
}.

(** The constructor.  For [redirects], [brokenLinks] and
    [structuredData] the default is [[]] rather than [null]; both are
    [None] here. *)
Definition new (data : Data) : t :=
  let success := default false (d_success data) in
  let issues := default [] (d_issues data) in
  let warnings := default [] (d_warnings data) in
  {| url := default "" (d_url data);
     success := success;
     error := d_error data;
     statusCode := default 0 (d_statusCode data);
     crawlDepth := default 0 (d_crawlDepth data);
     crawlSource := default "unknown" (d_crawlSource data);
     canonical := d_canonical data;
     metaTags := d_metaTags data;
     headings := d_headings data;
     redirects := d_redirects data;
     brokenLinks := d_brokenLinks data;
     structuredData := d_structuredData data;
     performance := d_performance data;
     accessibility := d_accessibility data;
     issues := issues;
     warnings := warnings;
     recommendations := default [] (d_recommendations data);
     auditScore := calculateAuditScore success issues warnings |}.

(** The keys an [AuditResult] carries per-auditor findings under. *)
Definition findingOf (r : t) (key : string) : option Finding :=
  if decide (key = "canonical") then canonical r
  else if decide (key = "metaTags") then metaTags r
  else if decide (key = "headings") then headings r
  else if decide (key = "redirects") then redirects r
  else if decide (key = "brokenLinks") then brokenLinks r
  else if decide (key = "structuredData") then structuredData r
  else if decide (key = "performance") then performance r
  else if decide (key = "accessibility") then accessibility r
  else None.
End WithDetails.

Arguments Data : clear implicits.
Arguments t : clear implicits.

End AuditResult.

(** ** auditors/HTMLStructureAuditor: the structural manipulation detector *)

Module HTMLStructureAuditor.
Import BaseAuditor.

(** *** Snapshots, as [extractStructure] and [extractStyling] return them *)

Record Heading := {
  level : Z;
  text : string;
  selector : string;
  index : nat;
  attrId : option string;
  attrClass : option string;
}.

(** [name] is [meta.name || meta.property || meta.httpEquiv || null];
    [property] is the top-level key [compareMetaTags] reads. *)
Record MetaTag := {
  name : option string;
  property : option string;
  content : option string;
}.

Record ElementInfo := {
  elTagName : string;
  elTextContent : string;
  elSelector : string;
}.

Record Structure := {
  title : string;
  headings : list Heading;
  importantElements : JS.Obj (list ElementInfo);
  metaTags : list MetaTag;
}.

(** selector -> CSS property -> computed value *)
Definition Styling : Type := JS.Obj (JS.Obj string).

Record Baseline := {
  bStructure : Structure;
  bStyling : option Styling;
}.

(** *** Heading diff *)

Inductive Impact := critical | warning | improvement | neutral.

#[global] Instance Impact_eq_dec : EqDecision Impact.
Proof. solve_decision. Defined.

Record HierarchyChange := {
  hcIndex : nat;
  hcFrom : string;
  hcTo : string;
  hcText : string;
  hcSelector : string;
  hcImpact : Impact;
}.

Record ModifiedHeading := {
  mhIndex : nat;
  mhLevel : Z;
  mhFrom : string;
  mhTo : string;
  mhSelector : string;
}.

Record HeadingChanges := {
  hHasChanges : bool;
  added : list Heading;
  removed : list Heading;
  modified : list ModifiedHeading;
  hierarchyChanges : list HierarchyChange;
}.

Definition assessHierarchyImpact (fromLevel toLevel : Z) : Impact :=
  if bool_decide (fromLevel = 1) && bool_decide (toLevel > 1) then critical
  else if bool_decide (fromLevel < toLevel) then warning
  else if bool_decide (fromLevel > toLevel) then improvement
  else neutral.

(** The template literal [`H${level}`]. *)
Definition levelTag (l : Z) : string := "H" +:+ pretty l.

(** The body of the [forEach] callback of [compareHeadings]. *)
Definition compareHeadingAt (currentHeadings : list Heading)
    (baselineHeading : Heading) (idx : nat) (changes : HeadingChanges)
    : HeadingChanges :=
  match currentHeadings !! idx with
  | None =>
      {| hHasChanges := true;
         added := added changes;
         removed := JS.push (removed changes) [baselineHeading];
         modified := modified changes;
         hierarchyChanges := hierarchyChanges changes |}
  | Some currentHeading =>
      if negb (bool_decide (level baselineHeading = level currentHeading))
      then
        {| hHasChanges := true;
           added := added changes;
           removed := removed changes;
           modified := modified changes;
           hierarchyChanges :=
             JS.push (hierarchyChanges changes)
               [ {| hcIndex := idx;
                    hcFrom := levelTag (level baselineHeading);
                    hcTo := levelTag (level currentHeading);
                    hcText := text currentHeading;
                    hcSelector := selector currentHeading;
                    hcImpact :=
                      assessHierarchyImpact (level baselineHeading)
                                            (level currentHeading) |} ] |}
      else if negb (bool_decide (text baselineHeading = text currentHeading))
      then
        {| hHasChanges := true;
           added := added changes;
           removed := removed changes;
           modified :=
             JS.push (modified changes)
               [ {| mhIndex := idx;
                    mhLevel := level currentHeading;
                    mhFrom := text baselineHeading;
                    mhTo := text currentHeading;
                    mhSelector := selector currentHeading |} ];
           hierarchyChanges := hierarchyChanges changes |}
      else changes
  end.

Definition compareHeadings (baselineHeadings currentHeadings : list Heading)
    : HeadingChanges :=
  let changes :=
    {| hHasChanges := false; added := []; removed := []; modified := [];
       hierarchyChanges := [] |} in
  let changes :=
    JS.forEach (compareHeadingAt currentHeadings) baselineHeadings changes in
  if bool_decide (length baselineHeadings < length currentHeadings)%nat then
    let newHeadings := drop (length baselineHeadings) currentHeadings in
    {| hHasChanges := true;
       added := JS.push (added changes) newHeadings;
       removed := removed changes;
       modified := modified changes;
       hierarchyChanges := hierarchyChanges changes |}
  else changes.

(** *** Meta tag diff *)

Record MetaModification := {
  mmName : string;
  mmFrom : option string;
  mmTo : option string;
}.

Record MetaTagChanges := {
  mHasChanges : bool;
  mAdded : list MetaTag;
  mRemoved : list MetaTag;
  mModified : list MetaModification;
}.

(** [m.name || m.property || "unnamed"] *)
Definition metaKey (m : MetaTag) : string :=
  default "unnamed"
    (JS.orStr (JS.orStr (name m) (property m)) (Some "unnamed")).

Definition compareMetaTags (baselineMeta currentMeta : list MetaTag)
    : MetaTagChanges :=
  let changes :=
    {| mHasChanges := false; mAdded := []; mRemoved := []; mModified := [] |} in
  let baselineMap := JS.mapOf (map (λ m, (metaKey m, m)) baselineMeta) in
  let currentMap := JS.mapOf (map (λ m, (metaKey m, m)) currentMeta) in
  let changes :=
    fold_left
      (λ changes kv,
         let key := kv.1 in
         let baselineTag := kv.2 in
         match JS.get currentMap key with
         | None =>
             {| mHasChanges := true;
                mAdded := mAdded changes;
                mRemoved := JS.push (mRemoved changes) [baselineTag];
                mModified := mModified changes |}
         | Some currentTag =>
             if negb (bool_decide (content baselineTag = content currentTag))
             then
               {| mHasChanges := true;
                  mAdded := mAdded changes;
                  mRemoved := mRemoved changes;
                  mModified :=
                    JS.push (mModified changes)
                      [ {| mmName := key;
                           mmFrom := content baselineTag;
                           mmTo := content currentTag |} ] |}
             else changes
         end)
      baselineMap changes in
  fold_left
    (λ changes kv,
       match JS.get baselineMap kv.1 with
       | None =>
           {| mHasChanges := true;
              mAdded := JS.push (mAdded changes) [kv.2];
              mRemoved := mRemoved changes;
              mModified := mModified changes |}
       | Some _ => changes
       end)
    currentMap changes.

(** *** Important-element diff *)

Record ElementChange := {
  ecType : string;
  ecBaseline : nat;
  ecCurrent : nat;
}.

Record ElementChanges := {
  eHasChanges : bool;
  selectorChanges : JS.Obj ElementChange;
}.

Definition compareImportantElements
    (baselineElements currentElements : JS.Obj (list ElementInfo))
    : ElementChanges :=
  let changes := {| eHasChanges := false; selectorChanges := [] |} in
  let changes :=
    fold_left
      (λ changes kv,
         let sel := kv.1 in
         let baseline := kv.2 in
         match JS.get currentElements sel with
         | None =>
             {| eHasChanges := true;
                selectorChanges :=
                  JS.set (selectorChanges changes) sel
                    {| ecType := "removed"; ecBaseline := length baseline;
                       ecCurrent := 0 |} |}
         | Some current =>
             if negb (bool_decide (length baseline = length current)) then
               {| eHasChanges := true;
                  selectorChanges :=
                    JS.set (selectorChanges changes) sel
                      {| ecType := "count_changed";
                         ecBaseline := length baseline;
                         ecCurrent := length current |} |}
             else changes
         end)
      baselineElements changes in
  fold_left
    (λ changes kv,
       match JS.get baselineElements kv.1 with
       | None =>
           {| eHasChanges := true;
              selectorChanges :=
                JS.set (selectorChanges changes) kv.1
                  {| ecType := "added"; ecBaseline := 0;
                     ecCurrent := length kv.2 |} |}
       | Some _ => changes
       end)
    currentElements changes.

(** *** Structure comparison *)

Record StructureChanges := {
  hasChanges : bool;
  titleChanged : bool;
  headingChanges : HeadingChanges;
  metaTagChanges : MetaTagChanges;
  elementChanges : ElementChanges;
}.

Definition compareStructures (baseline current : Structure)
    : StructureChanges :=
  let titleChanged := negb (bool_decide (title baseline = title current)) in
  let headingChanges :=
    compareHeadings (headings baseline) (headings current) in
  let metaTagChanges :=
    compareMetaTags (metaTags baseline) (metaTags current) in
  let elementChanges :=
    compareImportantElements (importantElements baseline)
                             (importantElements current) in
  {| hasChanges :=
       titleChanged || hHasChanges headingChanges
       || mHasChanges metaTagChanges || eHasChanges elementChanges;
     titleChanged := titleChanged;
     headingChanges := headingChanges;
     metaTagChanges := metaTagChanges;
     elementChanges := elementChanges |}.

(** *** Style diff *)

Record StyleChange := {
  from : string;
  to : option string;
}.

Record SuspiciousChange := {
  scSelector : string;
  scReason : string;
  scChanges : JS.Obj StyleChange;
}.

Record StylingChanges := {
  hasCompensation : bool;
  styleChanges : JS.Obj (JS.Obj StyleChange);
  suspiciousChanges : list SuspiciousChange;
}.

Section Style.
Context `{ParseFloat}.

(** [toPx > fromPx * 1.2]; a [NaN] on either side makes it false. *)
Definition isSignificantFontSizeIncrease (from : string) (to : option string)
    : bool :=
  let fromPx := parseFloat (Some from) in
  let toPx := parseFloat to in
  JS.gt toPx ((λ x, x * (12 # 10))%Q <$> fromPx).

(** [weights[w] || parseFloat(w) || 400] with
    [weights = { normal: 400, bold: 700 }]; keys inherited from
    [Object.prototype] are not modelled (a computed font weight is never
    one of them). *)
Definition weightOf (w : option string) : Q :=
  if bool_decide (w = Some "normal") then 400%Q
  else if bool_decide (w = Some "bold") then 700%Q
  else match parseFloat w with
       | Some q => if Qeq_bool q 0 then 400%Q else q
       | None => 400%Q
       end.

Definition isWeightIncrease (from : string) (to : option string) : bool :=
  let fromWeight := weightOf (Some from) in
  let toWeight := weightOf to in
  negb (Qle_bool toWeight fromWeight).

(** [selector.match(/^h[2-6]/)] *)
Definition matchesH2toH6 (selector : string) : bool :=
  match selector with
  | String c0 (String c _) =>
      bool_decide (Ascii.nat_of_ascii c0 = 104)%nat
      && bool_decide (50 ≤ Ascii.nat_of_ascii c ≤ 54)%nat
  | _ => false
  end.

Definition isSuspiciousStyling (selector : string)
    (styleChanges : JS.Obj StyleChange) : bool :=
  if matchesH2toH6 selector then
    let fontSize := JS.get styleChanges "fontSize" in
    let fontWeight := JS.get styleChanges "fontWeight" in
    if match fontSize with
       | Some fs => isSignificantFontSizeIncrease (from fs) (to fs)
       | None => false
       end
    then true
    else if match fontWeight with
            | Some fw => isWeightIncrease (from fw) (to fw)
            | None => false
            end
    then true
    else false
  else false.

(** The inner [for (const property in baseline)] loop: the changed
    properties of one selector. *)
Definition diffProperties (baseline current : JS.Obj string)
    : JS.Obj StyleChange * bool :=
  fold_left
    (λ acc pv,
       let property := pv.1 in
       if negb (bool_decide (Some pv.2 = JS.get current property)) then
         (JS.set acc.1 property
            {| from := pv.2; to := JS.get current property |}, true)
       else acc)
    baseline ([], false).

Definition compareStyling (baselineStyling currentStyling : Styling)
    : StylingChanges :=
  let changes :=
    {| hasCompensation := false; styleChanges := [];
       suspiciousChanges := [] |} in
  fold_left
    (λ changes sb,
       let selector := sb.1 in
       let baseline := sb.2 in
       match JS.get currentStyling selector with
       | Some current =>
           let '(selectorChanges, hasChanges) :=
             diffProperties baseline current in
           if hasChanges then
             let styleChanges' :=
               JS.set (styleChanges changes) selector selectorChanges in
             if isSuspiciousStyling selector selectorChanges then
               {| hasCompensation := true;
                  styleChanges := styleChanges';
                  suspiciousChanges :=
                    JS.push (suspiciousChanges changes)
                      [ {| scSelector := selector;
                           scReason := "heading_impersonation";
                           scChanges := selectorChanges |} ] |}
             else
               {| hasCompensation := hasCompensation changes;
                  styleChanges := styleChanges';
                  suspiciousChanges := suspiciousChanges changes |}
           else changes
       | None => changes
       end)
    baselineStyling changes.

End Style.

(** *** Issues *)

(** The [details] payloads this auditor attaches. *)
Inductive Details :=
| DTitleChanged
| DHierarchy (change : HierarchyChange)
| DMetaRemoved (removed : MetaTag)
| DMetaModified (modified : MetaModification)
| DManipulation (structuralChange : HierarchyChange)
    (stylingChange : SuspiciousChange) (impact : string)
| DSuspicious (change : SuspiciousChange).

Definition dquote : string := String (Ascii.ascii_of_nat 34) EmptyString.

Definition processStructureChanges (comparison : StructureChanges)
    (issues warnings : list (Issue Details))
    : list (Issue Details) * list (Issue Details) :=
  let warnings :=
    if titleChanged comparison then
      JS.push warnings
        [createWarning "title_changed" "Page title has been modified"
           DTitleChanged]
    else warnings in
  let '(issues, warnings) :=
    fold_left
      (λ iw change,
         match hcImpact change with
         | critical =>
             (JS.push iw.1
                [createError "critical_heading_change"
                   ("Critical SEO issue: " +:+ hcFrom change
                    +:+ " changed to " +:+ hcTo change +:+ " - " +:+ dquote
                    +:+ hcText change +:+ dquote)
                   (DHierarchy change)], iw.2)
         | warning =>
             (iw.1,
              JS.push iw.2
                [createWarning "heading_hierarchy_degraded"
                   ("Heading hierarchy degraded: " +:+ hcFrom change
                    +:+ " â†’ " +:+ hcTo change)
                   (DHierarchy change)])
         | _ => iw
         end)
      (hierarchyChanges (headingChanges comparison)) (issues, warnings) in
  if mHasChanges (metaTagChanges comparison) then
    let issues :=
      fold_left
        (λ issues removed,
           if bool_decide (name removed = Some "description") then
             JS.push issues
               [createError "meta_description_removed"
                  "Meta description has been removed" (DMetaRemoved removed)]
           else issues)
        (mRemoved (metaTagChanges comparison)) issues in
    let warnings :=
      fold_left
        (λ warnings modified,
           if bool_decide (mmName modified = "description") then
             JS.push warnings
               [createWarning "meta_description_changed"
                  "Meta description content has been modified"
                  (DMetaModified modified)]
           else warnings)
        (mModified (metaTagChanges comparison)) warnings in
    (issues, warnings)
  else (issues, warnings).

(** [hierarchyChanges.find((hc) => hc.selector.includes(change.selector))] *)
Definition findStructuralChange (structureComparison : StructureChanges)
    (change : SuspiciousChange) : option HierarchyChange :=
  List.find (λ hc, JS.includes (hcSelector hc) (scSelector change))
    (hierarchyChanges (headingChanges structureComparison)).

Definition manipulationIssue (structuralChange : HierarchyChange)
    (change : SuspiciousChange) : Issue Details :=
  createError "seo_manipulation_detected"
    ("SEO manipulation detected: " +:+ hcFrom structuralChange
     +:+ " changed to " +:+ hcTo structuralChange
     +:+ " but styled to appear as " +:+ hcFrom structuralChange)
    (DManipulation structuralChange change
       "This deceives users but hurts SEO rankings").

Definition suspiciousStylingWarning (change : SuspiciousChange)
    : Issue Details :=
  createWarning "suspicious_styling"
    ("Suspicious styling changes detected on " +:+ scSelector change)
    (DSuspicious change).

Definition processStylingChanges (stylingComparison : StylingChanges)
    (structureComparison : StructureChanges)
    (issues warnings : list (Issue Details))
    : list (Issue Details) * list (Issue Details) :=
  if hasCompensation stylingComparison then
    fold_left
      (λ iw change,
         match findStructuralChange structureComparison change with
         | Some structuralChange =>
             (JS.push iw.1 [manipulationIssue structuralChange change], iw.2)
         | None =>
             (iw.1, JS.push iw.2 [suspiciousStylingWarning change])
         end)
      (suspiciousChanges stylingComparison) (issues, warnings)
  else (issues, warnings).

(** *** Score *)

Definition countImpact (i : Impact) (l : list HierarchyChange) : Z :=
  Z.of_nat (length (filter (λ c, hcImpact c = i) l)).

Definition calculateStructureScore (structureComparison : StructureChanges)
    (stylingComparison : option StylingChanges) : Z :=
  let score := 100 in
  let score :=
    if hasChanges structureComparison then
      let hc := hierarchyChanges (headingChanges structureComparison) in
      let criticalHeadingChanges := countImpact critical hc in
      let score := score - criticalHeadingChanges * 30 in
      let warningHeadingChanges := countImpact warning hc in
      let score := score - warningHeadingChanges * 15 in
      let score :=
        score
        - Z.of_nat (length (removed (headingChanges structureComparison)))
          * 10 in
      let score :=
        score
        - Z.of_nat (length (mRemoved (metaTagChanges structureComparison)))
          * 20 in
      score
      - Z.of_nat (length (mModified (metaTagChanges structureComparison)))
        * 5
    else score in
  let score :=
    match stylingComparison with
    | Some sc =>
        if hasCompensation sc then
          score - Z.of_nat (length (suspiciousChanges sc)) * 25
        else score
    | None => score
    end in
  (* Math.max(0, Math.round(score)): the score is an integer already *)
  Z.max 0 score.

(** *** audit *)

Record AuditOutput := {
  currentStructure : Structure;
  baselineStructure : option Structure;
  structureComparison : option StructureChanges;
  stylingComparison : option StylingChanges;
  hasStructuralChanges : bool;
  hasStylingCompensation : bool;
  baselineCreated : bool;
  issues : list (Issue Details);
  warnings : list (Issue Details);
  score : Z;
}.

Section Audit.
Context `{ParseFloat}.

(** [audit(page, url)].  [stored] is the baseline file for the URL, if it
    exists; [structure] and [styling] are what [extractStructure] and
    [extractStyling] read from the page.  The second component is the
    baseline written on first observation. *)
Definition audit (styleAnalysis : bool) (stored : option Baseline)
    (structure : Structure) (styling : Styling)
    : AuditOutput * option Baseline :=
  let currentStyling := if styleAnalysis then Some styling else None in
  match stored with
  | Some baseline =>
      let sc := compareStructures (bStructure baseline) structure in
      let stc :=
        match styleAnalysis, bStyling baseline, currentStyling with
        | true, Some bs, Some cs => Some (compareStyling bs cs)
        | _, _, _ => None
        end in
      let '(issues, warnings) := processStructureChanges sc [] [] in
      let '(issues, warnings) :=
        match stc with
        | Some stc => processStylingChanges stc sc issues warnings
        | None => (issues, warnings)
        end in
      ({| currentStructure := structure;
          baselineStructure := Some (bStructure baseline);
          structureComparison := Some sc;
          stylingComparison := stc;
          hasStructuralChanges := hasChanges sc;
          hasStylingCompensation :=
            match stc with Some stc => hasCompensation stc | None => false end;
          baselineCreated := false;
          issues := issues;
          warnings := warnings;
          score := calculateStructureScore sc stc |}, None)
  | None =>
      ({| currentStructure := structure;
          baselineStructure := None;
          structureComparison := None;
          stylingComparison := None;
          hasStructuralChanges := false;
          hasStylingCompensation := false;
          baselineCreated := true;
          issues := [];
          warnings := [];
          score := 100 |},
       Some {| bStructure := structure; bStyling := currentStyling |})
  end.

End Audit.

End HTMLStructureAuditor.

(** ** VisualRegressionAuditor (in auditors/PerformanceAuditor.js) *)

(** [pixelmatch] is a library, not code of the repository: the
    development is parametric in it.  It returns the number of differing
    pixels, or throws ([inl message]). *)
Class PixelMatch := pixelmatch : list Z → list Z → Z → Z → string + Z.

Module VisualRegressionAuditor.
Import BaseAuditor.

Record Config := { threshold : Q }.

(** The constructor: [threshold: config.threshold || 0.1] and then the
    spread [...config], which puts a configured value back even when it
    is falsy. *)
Definition newConfig (configured : option Q) : Config :=
  {| threshold := default (1 # 10)%Q configured |}.

Record Image := { width : Z; height : Z; data : list Z }.

(** [PNG.sync.read(fs.readFileSync(path))]: pixels, or an exception. *)
Inductive Decoded := Pixels (img : Image) | Unreadable (message : string).

Inductive Reason :=
  dimension_change | visual_difference | no_change | comparison_error.

#[global] Instance Reason_eq_dec : EqDecision Reason.
Proof. solve_decision. Defined.

Record Dimensions := { dWidth : Z; dHeight : Z }.

(** What [compareScreenshots] returns.  [None] is an absent key. *)
Record Diff := {
  hasChanges : bool;
  reason : Reason;
  diffPixels : option Z;
  diffPercentage : option Q;
  diffPath : option string;
  baselineDimensions : option Dimensions;
  currentDimensions : option Dimensions;
  error : option string;
}.

(** [(diffPixels / (width * height)) * 100]; [0 / 0] is [NaN]. *)
Definition percentOf (diffPixels total : Z) : option Q :=
  if bool_decide (total = 0) then None
  else Some ((inject_Z diffPixels / inject_Z total) * 100)%Q.

Section Compare.
Context `{PixelMatch}.

(** [compareScreenshots].  [writeDiff] is what writing the diff image
    does: [None] when it succeeds, a message when it throws. *)
Definition compareScreenshots (cfg : Config) (baselineFile currentFile : Decoded)
    (diffPath : string) (writeDiff : option string) : Diff :=
  let failed (message : string) :=
    {| hasChanges := true; reason := comparison_error;
       diffPixels := None; diffPercentage := None; diffPath := None;
       baselineDimensions := None; currentDimensions := None;
       error := Some message |} in
  match baselineFile with
  | Unreadable message => failed message
  | Pixels baseline =>
  match currentFile with
  | Unreadable message => failed message
  | Pixels current =>
      let w := width baseline in
      let h := height baseline in
      if negb (bool_decide (width current = w))
         || negb (bool_decide (height current = h))
      then
        {| hasChanges := true; reason := dimension_change;
           diffPixels := Some (w * h); diffPercentage := Some 100%Q;
           diffPath := None;
           baselineDimensions := Some {| dWidth := w; dHeight := h |};
           currentDimensions :=
             Some {| dWidth := width current; dHeight := height current |};
           error := None |}
      else
        match pixelmatch (data baseline) (data current) w h with
        | inl message => failed message
        | inr diffPixels =>
            let diffPercentage := percentOf diffPixels (w * h) in
            let hasChanges := JS.gt diffPercentage (Some (threshold cfg)) in
            match (if hasChanges then writeDiff else None) with
            | Some message => failed message
            | None =>
                {| hasChanges := hasChanges;
                   reason :=
                     if hasChanges then visual_difference else no_change;
                   diffPixels := Some diffPixels;
                   diffPercentage := diffPercentage;
                   diffPath := if hasChanges then Some diffPath else None;
                   baselineDimensions :=
                     Some {| dWidth := w; dHeight := h |};
                   currentDimensions :=
                     Some {| dWidth := width current;
                             dHeight := height current |};
                   error := None |}
            end
        end
  end
  end.

End Compare.

(** [{ ...comparison, element, viewport, url }] *)
Record Comparison := {
  diff : Diff;
  element : string;
  viewport : string;
  url : string;
}.

Inductive Details :=
| DDimension (element viewport : string)
    (baseline current : option Dimensions)
| DVisual (element viewport : string) (diffPercentage : option Q)
    (diffPath : option string)
| DMinor (element viewport : string) (diffPercentage : option Q).

Record Findings := {
  issues : list (Issue Details);
  warnings : list (Issue Details);
  recommendations : list (Recommendation Details);
}.

Definition percentText (p : option Q) : string :=
  match p with Some x => JS.toFixed2 x | None => "NaN" end.

Definition processComparison (comparison : Comparison) (f : Findings)
    : Findings :=
  let d := diff comparison in
  if negb (hasChanges d) then f
  else if bool_decide (reason d = dimension_change) then
    {| issues :=
         JS.push (issues f)
           [createError "layout_dimension_change"
              ("Layout dimensions changed for " +:+ element comparison
               +:+ " on " +:+ viewport comparison)
              (DDimension (element comparison) (viewport comparison)
                 (baselineDimensions d) (currentDimensions d))];
       warnings := warnings f;
       recommendations := recommendations f |}
  else if JS.gt (diffPercentage d) (Some 50%Q) then
    {| issues :=
         JS.push (issues f)
           [createError "major_visual_change"
              ("Major visual changes detected in " +:+ element comparison
               +:+ " (" +:+ percentText (diffPercentage d)
               +:+ "% different)")
              (DVisual (element comparison) (viewport comparison)
                 (diffPercentage d) (diffPath d))];
       warnings := warnings f;
       recommendations := recommendations f |}
  else if JS.gt (diffPercentage d) (Some 20%Q) then
    {| issues := issues f;
       warnings :=
         JS.push (warnings f)
           [createWarning "moderate_visual_change"
              ("Moderate visual changes in " +:+ element comparison
               +:+ " (" +:+ percentText (diffPercentage d)
               +:+ "% different)")
              (DVisual (element comparison) (viewport comparison)
                 (diffPercentage d) (diffPath d))];
       recommendations := recommendations f |}
  else
    {| issues := issues f;
       warnings := warnings f;
       recommendations :=
         JS.push (recommendations f)
           [createRecommendation "minor_visual_change"
              ("Minor visual changes detected in " +:+ element comparison)
              (DMinor (element comparison) (viewport comparison)
                 (diffPercentage d))] |}.

(** [calculateVisualScore]; [None] is [NaN]. *)
Definition calculateVisualScore (comparisons : list Comparison) : option Z :=
  if bool_decide (length comparisons = 0%nat) then Some 100
  else
    let changedComparisons :=
      filter (λ c, hasChanges (diff c) = true) comparisons in
    if bool_decide (length changedComparisons = 0%nat) then Some 100
    else
      let total :=
        fold_left (λ sum c, JS.add sum (diffPercentage (diff c)))
          changedComparisons (Some 0%Q) in
      let avgDiffPercentage :=
        (λ t, t / inject_Z (Z.of_nat (length changedComparisons)))%Q
          <$> total in
      let changeRatio :=
        (inject_Z (Z.of_nat (length changedComparisons))
         / inject_Z (Z.of_nat (length comparisons)))%Q in
      (λ avg, Z.max 0 (JS.round (100 - avg * 2 - changeRatio * 30)%Q))
        <$> avgDiffPercentage.

(** One screenshot taken during [audit]: the full page or an element that
    exists, on one viewport.  [baselineFile] is [None] when no baseline
    image exists yet. *)
Record Capture := {
  cElement : string;
  cViewport : string;
  cBaselineFile : option Decoded;
  cCurrentFile : Decoded;
  cDiffPath : string;
  cWriteDiff : option string;
}.

Record AuditOutput := {
  comparisons : list Comparison;
  visualChanges : list Comparison;
  findings : Findings;
  score : option Z;
}.

Section Audit.
Context `{PixelMatch}.

(** [captureFullPage] / [captureElement] once the screenshot is on disk:
    compare against the baseline, or store the first one. *)
Definition comparisonOf (cfg : Config) (pageUrl : string) (c : Capture)
    : option Comparison :=
  match cBaselineFile c with
  | Some baselineFile =>
      Some {| diff :=
                compareScreenshots cfg baselineFile (cCurrentFile c)
                  (cDiffPath c) (cWriteDiff c);
              element := cElement c;
              viewport := cViewport c;
              url := pageUrl |}
  | None => None
  end.

Definition audit (cfg : Config) (pageUrl : string) (captures : list Capture)
    : AuditOutput :=
  let '(comparisons, findings) :=
    fold_left
      (λ acc c,
         match comparisonOf cfg pageUrl c with
         | Some comparison =>
             (JS.push acc.1 [comparison], processComparison comparison acc.2)
         | None => acc
         end)
      captures
      ([], {| issues := []; warnings := []; recommendations := [] |}) in
  {| comparisons := comparisons;
     visualChanges := filter (λ c, hasChanges (diff c) = true) comparisons;
     findings := findings;
     score := calculateVisualScore comparisons |}.

End Audit.

End VisualRegressionAuditor.

(** ** models/CrawlResult *)

Module CrawlResult.

Record t := {
  url : string;
  discovered : bool;
  depth : Z;
  source : string;
}.

End CrawlResult.

(** ** core/CrawlerEngine: the crawl frontier *)

Module CrawlerEngine.

Record Config := {
  maxDepth : Z;
  maxUrls : Z;
}.

(** An extracted anchor. *)
Record Link := {
  href : string;
  linkText : string;
  linkTitle : string;
}.

(** What the engine gets from outside: the [URL] builtin, the inclusion
    policy (a function of the URL once the base domain, the options and
    the configured patterns are fixed), and the pages.  [pageLinks url] is
    the link list [crawlPage] ends up with for [url], from the browser or
    from the cache, or [None] when navigation or extraction throws. *)
Record Env := {
  resolveRelative : string → string → option string;
  includes : string → bool;
  pageLinks : string → option (list Link);
  getUrlDepth : string → Z;
}.

(** A JS [Set] of strings in insertion order. *)
Definition has (s : list string) (x : string) : bool := bool_decide (x ∈ s).

Definition add (s : list string) (x : string) : list string :=
  if has s x then s else s ++ [x].

Record State := {
  queue : list (string * Z);
  discoveredUrls : list string;
  visitedUrls : list string;
  failedUrls : list string;
}.

Definition fresh : State :=
  {| queue := []; discoveredUrls := []; visitedUrls := []; failedUrls := [] |}.

(** [UrlResolver.resolve]; [None] is [null]. *)
Definition resolve (env : Env) (href baseUrl : string) : option string :=
  if String.prefix "http://" href || String.prefix "https://" href
  then Some href
  else resolveRelative env href baseUrl.

(** [shouldIncludeUrl]: a [null] or empty URL is refused first. *)
Definition shouldIncludeUrl (env : Env) (url : option string) : bool :=
  match url with
  | None => false
  | Some u => if bool_decide (u = "") then false else includes env u
  end.

(** The body of the [for (const link of links)] loop of [crawlPage]. *)
Definition considerLink (cfg : Config) (env : Env) (url : string) (depth : Z)
    (st : State) (link : Link) : State :=
  let resolvedUrl := resolve env (href link) url in
  if shouldIncludeUrl env resolvedUrl then
    match resolvedUrl with
    | Some resolved =>
        if negb (has (discoveredUrls st) resolved) then
          {| queue :=
               if bool_decide (depth < maxDepth cfg)
               then queue st ++ [(resolved, depth + 1)]
               else queue st;
             discoveredUrls := add (discoveredUrls st) resolved;
             visitedUrls := visitedUrls st;
             failedUrls := failedUrls st |}
        else st
    | None => st
    end
  else st.

Definition crawlPage (cfg : Config) (env : Env) (url : string) (depth : Z)
    (st : State) : State :=
  let st :=
    {| queue := queue st; discoveredUrls := discoveredUrls st;
       visitedUrls := add (visitedUrls st) url;
       failedUrls := failedUrls st |} in
  match pageLinks env url with
  | Some links => fold_left (considerLink cfg env url depth) links st
  | None =>
      {| queue := queue st; discoveredUrls := discoveredUrls st;
         visitedUrls := visitedUrls st;
         failedUrls := add (failedUrls st) url |}
  end.

(** The [while] loop of [discoverUrls]; [None] when [fuel] iterations
    were not enough.  [rateLimiter.acquire()] only delays an iteration and
    is left out. *)
Fixpoint crawlLoop (cfg : Config) (env : Env) (fuel : nat) (st : State)
    : option State :=
  match queue st with
  | [] => Some st
  | (url, depth) :: rest =>
      if negb (bool_decide
                 (Z.of_nat (length (discoveredUrls st)) < maxUrls cfg))
      then Some st
      else
        match fuel with
        | O => None
        | S fuel' =>
            let st :=
              {| queue := rest; discoveredUrls := discoveredUrls st;
                 visitedUrls := visitedUrls st;
                 failedUrls := failedUrls st |} in
            if has (visitedUrls st) url || bool_decide (depth > maxDepth cfg)
            then crawlLoop cfg env fuel' st
            else crawlLoop cfg env fuel' (crawlPage cfg env url depth st)
        end
  end.

Definition getUrlSource (url startUrl : string) : string :=
  if bool_decide (url = startUrl) then "landing-page" else "discovered".

(** [discoverUrls] from the normalized start URL. *)
Definition discoverUrls (cfg : Config) (env : Env) (fuel : nat)
    (normalizedStartUrl : string) (st : State)
    : option (list CrawlResult.t * State) :=
  let st :=
    {| queue := queue st ++ [(normalizedStartUrl, 0)];
       discoveredUrls := add (discoveredUrls st) normalizedStartUrl;
       visitedUrls := visitedUrls st;
       failedUrls := failedUrls st |} in
  match crawlLoop cfg env fuel st with
  | Some st' =>
      Some (map (λ url,
                   {| CrawlResult.url := url;
                      CrawlResult.discovered := true;
                      CrawlResult.depth := getUrlDepth env url;
                      CrawlResult.source :=
                        getUrlSource url normalizedStartUrl |})
                (discoveredUrls st'), st')
  | None => None
  end.

(** A three-link landing page on one host. *)
Definition shopLinks : list Link :=
  [ {| href := "https://shop.test/a"; linkText := "A"; linkTitle := "" |};
    {| href := "https://shop.test/b"; linkText := "B"; linkTitle := "" |};
    {| href := "https://shop.test/c"; linkText := "C"; linkTitle := "" |} ].

Definition shop : Env :=
  {| resolveRelative := λ _ _, None;
     includes := String.prefix "https://shop.test/";
     pageLinks :=
       λ url, if bool_decide (url = "https://shop.test/")
              then Some shopLinks else Some [];
     getUrlDepth := λ url, if bool_decide (url = "https://shop.test/")
                           then 0 else 1 |}.

End CrawlerEngine.

(** ** core/AuditEngine: the audit dispatch engine *)

Module AuditEngine.
Import BaseAuditor.

Record Config := {
  timeout : Z;
  retries : nat;
  pageLoadDelay : Z;
  humanSimulation : bool;
  includePerformance : bool;
  includeAccessibility : bool;
  rateLimitDelay : Z;
  maxRetryDelay : Z;
  (** Keys [LandingPageAuditor] spreads into the engine's config. *)
  includeVisualRegression : bool;
  includeStructureComparison : bool;
}.

(** The [options] object of [auditUrls] / [auditSingleUrl]; an absent key
    is [false].  [handleRateLimit] retries with [{}]. *)
Record Options := {
  optPerformance : bool;
  optAccessibility : bool;
  optVisualRegression : bool;
  optStructureComparison : bool;
}.

Definition noOptions : Options :=
  {| optPerformance := false; optAccessibility := false;
     optVisualRegression := false; optStructureComparison := false |}.

(** *** The auditor registry *)

Definition coreAuditors : list string :=
  ["canonical"; "metaTags"; "headings"; "redirects"; "brokenLinks";
   "structuredData"].

(** [initializeAuditors]: the keys of [this.auditors], in insertion
    order. *)
Definition initializeAuditors (cfg : Config) : list string :=
  coreAuditors
  ++ (if includePerformance cfg then ["performance"] else [])
  ++ (if includeAccessibility cfg then ["accessibility"] else []).

Definition shouldRunAuditor (cfg : Config) (auditorName : string)
    (options : Options) : bool :=
  if bool_decide (auditorName ∈ coreAuditors) then true
  else if bool_decide (auditorName = "performance")
          && (optPerformance options || includePerformance cfg) then true
  else if bool_decide (auditorName = "accessibility")
          && (optAccessibility options || includeAccessibility cfg) then true
  else false.

(** The [enabledAuditors] of [auditSingleUrl]. *)
Definition enabledAuditors (cfg : Config) (options : Options) : list string :=
  List.filter (λ name, shouldRunAuditor cfg name options)
    (initializeAuditors cfg).

(** *** Plugins and the timeout race *)

Section Plugins.
Context {PluginDetails Payload : Type}.

(** Details of an issue in a compiled result: a plugin's own, or the
    [errorDetails] of a synthetic failure. *)
Inductive Details :=
| FromPlugin (d : PluginDetails)
| ErrorDetails (auditor url : string) (error : option string)
    (resultStatus : string) (index : nat).

(** What [auditor.audit(page, url)] resolves to; [None] is an absent key.
    [payload] stands for the plugin's domain fields. *)
Record AuditorOutput := {
  outIssues : option (list (Issue Details));
  outWarnings : option (list (Issue Details));
  outRecommendations : option (list (Recommendation Details));
  outScore : option Z;
  payload : Payload;
}.

(** How one plugin behaves on one page: it resolves after [after] ms
    (possibly to [null]), rejects after [after] ms, or never settles. *)
Inductive Behaviour :=
| Returns (after : Z) (result : option AuditorOutput)
| Throws (after : Z) (message : string)
| Hangs.

Record Entry := {
  name : string;
  success : bool;
  result : option AuditorOutput;
  error : option string;
}.

Definition timeoutMessage (cfg : Config) (auditorName : string) : string :=
  auditorName +:+ " auditor timeout after " +:+ pretty (timeout cfg) +:+ "ms".

(** [runAuditorWithTimeout]: [Promise.race] of the plugin against a timer
    of [config.timeout] ms; whichever settles first decides (the timer
    when both fall on the same millisecond). *)
Definition runAuditorWithTimeout (cfg : Config) (auditorName : string)
    (b : Behaviour) : Entry :=
  let failed message :=
    {| name := auditorName; success := false; result := None;
       error := Some message |} in
  match b with
  | Returns after r =>
      if bool_decide (after < timeout cfg) then
        {| name := auditorName; success := true; result := r;
           error := None |}
      else failed (timeoutMessage cfg auditorName)
  | Throws after message =>
      if bool_decide (after < timeout cfg) then failed message
      else failed (timeoutMessage cfg auditorName)
  | Hangs => failed (timeoutMessage cfg auditorName)
  end.

(** An element of the array [Promise.allSettled] resolves to. *)
Inductive Settled :=
| Fulfilled (value : Entry)
| Rejected (reason : string).

(** *** Result compilation *)

(** The [compiled] object.  [perAuditor] holds the keys assigned through
    [compiled[name] = auditResult]; a key that was never assigned, or was
    assigned [null], is absent.  Registry names never collide with
    [issues], [warnings] and [recommendations]. *)
Record Compiled := {
  perAuditor : gmap string AuditorOutput;
  issues : list (Issue Details);
  warnings : list (Issue Details);
  recommendations : list (Recommendation Details);
}.

Definition failureIssue (url : string) (settled : Settled) (index : nat)
    : Issue Details :=
  let error :=
    match settled with
    | Rejected reason => Some reason
    | Fulfilled value => error value
    end in
  let auditorName :=
    match settled with
    | Fulfilled value =>
        if bool_decide (name value = "") then "unknown" else name value
    | Rejected _ => "unknown"
    end in
  let resultStatus :=
    match settled with
    | Fulfilled _ => "fulfilled"
    | Rejected _ => "rejected"
    end in
  {| type := "audit_failure";
     severity := "error";
     message :=
       "Audit failure in " +:+ auditorName +:+ ": "
       +:+ default "undefined" error;
     details := ErrorDetails auditorName url error resultStatus index |}.

(** The body of the [forEach] callback of [compileAuditResults]. *)
Definition compileOne (url : string) (settled : Settled) (index : nat)
    (compiled : Compiled) : Compiled :=
  match settled with
  | Fulfilled {| name := auditorName; success := true; result := r |} =>
      {| perAuditor :=
           match r with
           | Some auditResult => <[auditorName := auditResult]> (perAuditor compiled)
           | None => delete auditorName (perAuditor compiled)
           end;
         issues :=
           JS.push (issues compiled) (default [] (r ≫= outIssues));
         warnings :=
           JS.push (warnings compiled) (default [] (r ≫= outWarnings));
         recommendations :=
           JS.push (recommendations compiled)
             (default [] (r ≫= outRecommendations)) |}
  | _ =>
      {| perAuditor := perAuditor compiled;
         issues := JS.push (issues compiled) [failureIssue url settled index];
         warnings := warnings compiled;
         recommendations := recommendations compiled |}
  end.

Definition compileAuditResults (auditResults : list Settled) (url : string)
    : Compiled :=
  JS.forEach (compileOne url) auditResults
    {| perAuditor := ∅; issues := []; warnings := []; recommendations := [] |}.

(** [new AuditResult({ ..., ...compiledResults })] *)
Definition resultData (compiled : Compiled)
    : AuditResult.Data Details AuditorOutput :=
  {| AuditResult.d_url := None;
     AuditResult.d_success := None;
     AuditResult.d_error := None;
     AuditResult.d_statusCode := None;
     AuditResult.d_crawlDepth := None;
     AuditResult.d_crawlSource := None;
     AuditResult.d_canonical := perAuditor compiled !! "canonical";
     AuditResult.d_metaTags := perAuditor compiled !! "metaTags";
     AuditResult.d_headings := perAuditor compiled !! "headings";
     AuditResult.d_redirects := perAuditor compiled !! "redirects";
     AuditResult.d_brokenLinks := perAuditor compiled !! "brokenLinks";
     AuditResult.d_structuredData := perAuditor compiled !! "structuredData";
     AuditResult.d_performance := perAuditor compiled !! "performance";
     AuditResult.d_accessibility := perAuditor compiled !! "accessibility";
     AuditResult.d_issues := Some (issues compiled);
     AuditResult.d_warnings := Some (warnings compiled);
     AuditResult.d_recommendations := Some (recommendations compiled) |}.

(** *** The world of one audit task *)

(** [page.goto] resolves to a response, resolves to [null], or throws. *)
Inductive NavOutcome :=
| Response (status : Z) (statusText : string)
| NoResponse
| NavError (message : string).

(** Why the task sleeps (a label for the trace, not a value of the
    code). *)
Inductive Pause :=
  Pacing | Cooldown | NavigationRetry | Backoff | Settle | Human.

Inductive Event :=
| Goto (url : string)
| Sleep (why : Pause) (ms : Q).

(** What the task cannot decide itself: the [n]-th [page.goto], the
    [n]-th [Math.random()], and each plugin's behaviour on a page. *)
Record Env := {
  navigate : nat → string → NavOutcome;
  random : nat → Q;
  plugins : string → string → Behaviour;
}.

(** The engine fields a task reads and writes, the number of [goto] and
    [Math.random] calls so far, and the trace of navigations and sleeps,
    oldest first. *)
Record World := {
  rateLimitRetries : gmap string nat;
  requestCount : Z;
  gotos : nat;
  draws : nat;
  trace : list Event;
}.

Definition M (A : Type) : Type := Env → World → A * World.

Definition ret {A : Type} (x : A) : M A := λ _ w, (x, w).

Definition bind {A B : Type} (c : M A) (k : A → M B) : M B :=
  λ env w, let '(x, w') := c env w in k x env w'.

#[global] Instance M_ret : MRet M := @ret.
#[global] Instance M_bind : MBind M := λ A B k c, bind c k.

Definition sleep (why : Pause) (ms : Q) : M unit :=
  λ _ w,
    (tt, {| rateLimitRetries := rateLimitRetries w;
            requestCount := requestCount w;
            gotos := gotos w; draws := draws w;
            trace := trace w ++ [Sleep why ms] |}).

(** [Math.random()] *)
Definition rnd : M Q :=
  λ env w,
    (random env (draws w),
     {| rateLimitRetries := rateLimitRetries w;
        requestCount := requestCount w;
        gotos := gotos w; draws := S (draws w);
        trace := trace w |}).

(** [page.goto(url, ...)] *)
Definition goto (url : string) : M NavOutcome :=
  λ env w,
    (navigate env (gotos w) url,
     {| rateLimitRetries := rateLimitRetries w;
        requestCount := requestCount w;
        gotos := S (gotos w); draws := draws w;
        trace := trace w ++ [Goto url] |}).

Definition getRetries (url : string) : M nat :=
  λ _ w, (default 0%nat (rateLimitRetries w !! url), w).

Definition setRetries (url : string) (n : nat) : M unit :=
  λ _ w,
    (tt, {| rateLimitRetries := <[url := n]> (rateLimitRetries w);
            requestCount := requestCount w;
            gotos := gotos w; draws := draws w;
            trace := trace w |}).

Definition getRequestCount : M Z := λ _ w, (requestCount w, w).

Definition pluginOf (auditorName url : string) : M Behaviour :=
  λ env w, (plugins env auditorName url, w).

(** *** Pacing, navigation, human simulation *)

Definition applyRateLimit (url : string) : M unit :=
  r ← rnd;
  sleep Pacing (r * 2000 + 1000)%Q ;;
  n ← getRequestCount;
  if bool_decide (n > 0) && bool_decide (n `mod` 10 = 0) then
    r ← rnd;
    sleep Cooldown (5000 + r * 5000)%Q
  else mret tt.

(** [navigateWithRetry]: the loop from [attempt], with [remaining] more
    attempts allowed after this one.  A [NavError] result is the
    exception the function throws. *)
Fixpoint navigateFrom (url : string) (attempt remaining : nat)
    : M NavOutcome :=
  out ← goto url;
  match out with
  | NavError message =>
      match remaining with
      | O => mret (NavError message)
      | S remaining' =>
          r ← rnd;
          sleep NavigationRetry
            (inject_Z (2000 * (Z.of_nat attempt + 1)) + r * 2000)%Q ;;
          navigateFrom url (S attempt) remaining'
      end
  | _ => mret out
  end.

Definition navigateWithRetry (cfg : Config) (url : string) : M NavOutcome :=
  navigateFrom url 0 (retries cfg).

Fixpoint repeatM (n : nat) (c : M unit) : M unit :=
  match n with
  | O => mret tt
  | S n' => c ;; repeatM n' c
  end.

(** [simulateHumanBehavior]: only its sleeps and its draws are kept; the
    mouse calls themselves are not modelled. *)
Definition simulateHumanBehavior : M unit :=
  r ← rnd; sleep Human (800 + r * 1200)%Q ;;
  repeatM 4
    (_ ← rnd; _ ← rnd; _ ← rnd;
     r ← rnd; sleep Human (200 + r * 600)%Q) ;;
  r ← rnd;
  let scrollSteps := Z.to_nat (3 + Qfloor (r * 5)%Q) in
  repeatM scrollSteps
    (_ ← rnd; r ← rnd; sleep Human (1000 + r * 2000)%Q) ;;
  r ← rnd; sleep Human (500 + r * 1000)%Q ;;
  _ ← rnd;
  r ← rnd; sleep Human (600 + r * 400)%Q ;;
  _ ← rnd; _ ← rnd; _ ← rnd;
  r ← rnd; sleep Human (500 + r * 1000)%Q.

(** *** auditSingleUrl and handleRateLimit *)

Definition Result : Type := AuditResult.t Details AuditorOutput.

Definition failedResult (url : string) (message : string) : Result :=
  AuditResult.new
    {| AuditResult.d_url := Some url;
       AuditResult.d_success := Some false;
       AuditResult.d_error := Some message;
       AuditResult.d_statusCode := None;
       AuditResult.d_crawlDepth := None;
       AuditResult.d_crawlSource := None;
       AuditResult.d_canonical := None;
       AuditResult.d_metaTags := None;
       AuditResult.d_headings := None;
       AuditResult.d_redirects := None;
       AuditResult.d_brokenLinks := None;
       AuditResult.d_structuredData := None;
       AuditResult.d_performance := None;
       AuditResult.d_accessibility := None;
       AuditResult.d_issues := None;
       AuditResult.d_warnings := None;
       AuditResult.d_recommendations := None |}.

(** The terminal result of [handleRateLimit]. *)
Definition rateLimitExceeded (url : string) : Result :=
  AuditResult.new
    {| AuditResult.d_url := Some url;
       AuditResult.d_success := Some false;
       AuditResult.d_error :=
         Some "Rate limit exceeded - maximum retries reached";
       AuditResult.d_statusCode := Some 429;
       AuditResult.d_crawlDepth := None;
       AuditResult.d_crawlSource := None;
       AuditResult.d_canonical := None;
       AuditResult.d_metaTags := None;
       AuditResult.d_headings := None;
       AuditResult.d_redirects := None;
       AuditResult.d_brokenLinks := None;
       AuditResult.d_structuredData := None;
       AuditResult.d_performance := None;
       AuditResult.d_accessibility := None;
       AuditResult.d_issues := None;
       AuditResult.d_warnings := None;
       AuditResult.d_recommendations := None |}.

Definition backoffDelay (cfg : Config) (retryCount : nat) : Z :=
  let exponentialDelay := rateLimitDelay cfg * 2 ^ Z.of_nat retryCount in
  Z.min exponentialDelay (maxRetryDelay cfg).

(** [handleRateLimit]; [again] is the recursive
    [this.auditSingleUrl(crawlResult, {})]. *)
Definition handleRateLimit (cfg : Config)
    (again : Options → M (option Result))
    (crawlResult : CrawlResult.t) : M (option Result) :=
  let url := CrawlResult.url crawlResult in
  retryCount ← getRetries url;
  if bool_decide (3 ≤ retryCount)%nat then
    mret (Some (rateLimitExceeded url))
  else
    setRetries url (retryCount + 1) ;;
    r ← rnd;
    let jitterDelay := (inject_Z (backoffDelay cfg retryCount) + r * 10000)%Q in
    sleep Backoff jitterDelay ;;
    again noOptions.

(** The plugin phase of [auditSingleUrl]: run every enabled auditor in its
    own race and compile what settled. *)
Fixpoint runAuditors (cfg : Config) (url : string) (names : list string)
    : M (list Settled) :=
  match names with
  | [] => mret []
  | auditorName :: names' =>
      b ← pluginOf auditorName url;
      rest ← runAuditors cfg url names';
      mret (Fulfilled (runAuditorWithTimeout cfg auditorName b) :: rest)
  end.

Definition successResult (crawlResult : CrawlResult.t) (statusCode : Z)
    (compiled : Compiled) : Result :=
  let data := resultData compiled in
  AuditResult.new
    {| AuditResult.d_url := Some (CrawlResult.url crawlResult);
       AuditResult.d_success := Some true;
       AuditResult.d_error := None;
       AuditResult.d_statusCode := Some statusCode;
       AuditResult.d_crawlDepth := Some (CrawlResult.depth crawlResult);
       AuditResult.d_crawlSource := Some (CrawlResult.source crawlResult);
       AuditResult.d_canonical := AuditResult.d_canonical data;
       AuditResult.d_metaTags := AuditResult.d_metaTags data;
       AuditResult.d_headings := AuditResult.d_headings data;
       AuditResult.d_redirects := AuditResult.d_redirects data;
       AuditResult.d_brokenLinks := AuditResult.d_brokenLinks data;
       AuditResult.d_structuredData := AuditResult.d_structuredData data;
       AuditResult.d_performance := AuditResult.d_performance data;
       AuditResult.d_accessibility := AuditResult.d_accessibility data;
       AuditResult.d_issues := AuditResult.d_issues data;
       AuditResult.d_warnings := AuditResult.d_warnings data;
       AuditResult.d_recommendations :=
         AuditResult.d_recommendations data |}.

(** [auditSingleUrl].  The recursion through [handleRateLimit] is bounded
    by [fuel]; [None] is the answer of a run that needs more. *)
Fixpoint auditSingleUrl (cfg : Config) (fuel : nat)
    (crawlResult : CrawlResult.t) (options : Options) : M (option Result) :=
  match fuel with
  | O => ret None
  | S fuel' =>
      let url := CrawlResult.url crawlResult in
      applyRateLimit url ;;
      response ← navigateWithRetry cfg url;
      match response with
      | NavError message => mret (Some (failedResult url message))
      | NoResponse =>
          mret (Some (failedResult url
                       "No response received during navigation"))
      | Response statusCode statusText =>
          if bool_decide (statusCode = 429) then
            handleRateLimit cfg (auditSingleUrl cfg fuel' crawlResult)
              crawlResult
          else if bool_decide (statusCode >= 400) then
            mret (Some (failedResult url
                         ("HTTP " +:+ pretty statusCode
                          +:+ " - Failed to load page: " +:+ statusText)))
          else
            sleep Settle (inject_Z (pageLoadDelay cfg)) ;;
            (if humanSimulation cfg then simulateHumanBehavior else mret tt) ;;
            auditResults ← runAuditors cfg url (enabledAuditors cfg options);
            let compiledResults := compileAuditResults auditResults url in
            mret (Some (successResult crawlResult statusCode compiledResults))
      end
  end.

(** *** Views used by the statements *)

(** What one settled entry adds to each compiled list. *)
Definition issuesOf (url : string) (settled : Settled) (index : nat)
    : list (Issue Details) :=
  match settled with
  | Fulfilled {| success := true; result := r |} =>
      default [] (r ≫= outIssues)
  | _ => [failureIssue url settled index]
  end.

Definition warningsOf (settled : Settled) (index : nat)
    : list (Issue Details) :=
  match settled with
  | Fulfilled {| success := true; result := r |} =>
      default [] (r ≫= outWarnings)
  | _ => []
  end.

Definition recommendationsOf (settled : Settled) (index : nat)
    : list (Recommendation Details) :=
  match settled with
  | Fulfilled {| success := true; result := r |} =>
      default [] (r ≫= outRecommendations)
  | _ => []
  end.

(** A plugin that loses the race or rejects. *)
Definition failing (cfg : Config) (b : Behaviour) : Prop :=
  match b with
  | Returns after _ => timeout cfg ≤ after
  | Throws _ _ => True
  | Hangs => True
  end.

Definition settle (cfg : Config) (run : list (string * Behaviour))
    : list Settled :=
  map (λ nb, Fulfilled (runAuditorWithTimeout cfg nb.1 nb.2)) run.

(** The URLs navigated to, and the back-off sleeps, of a trace. *)
Definition navigationsOf (t : list Event) : list string :=
  omap (λ e, match e with Goto u => Some u | _ => None end) t.

Definition backoffsOf (t : list Event) : list Q :=
  omap (λ e, match e with Sleep Backoff ms => Some ms | _ => None end) t.

(** The pacing of [applyRateLimit] from a given world. *)
Definition coolsDown (w : World) : bool :=
  bool_decide (requestCount w > 0) && bool_decide (requestCount w `mod` 10 = 0).

Definition pacingDraws (w : World) : nat := if coolsDown w then 2 else 1.

Definition pacingEvents (env : Env) (w : World) : list Event :=
  Sleep Pacing (random env (draws w) * 2000 + 1000)%Q
  :: (if coolsDown w
      then [Sleep Cooldown (5000 + random env (S (draws w)) * 5000)%Q]
      else []).

(** The world after pacing and one navigation. *)
Definition navigated (env : Env) (url : string) (w : World) : World :=
  {| rateLimitRetries := rateLimitRetries w;
     requestCount := requestCount w;
     gotos := S (gotos w);
     draws := (draws w + pacingDraws w)%nat;
     trace := trace w ++ pacingEvents env w ++ [Goto url] |}.

(** The world after one rate-limited round that schedules a retry. *)
Definition backedOff (cfg : Config) (env : Env) (url : string)
    (retryCount : nat) (w : World) : World :=
  let w1 := navigated env url w in
  {| rateLimitRetries := <[url := (retryCount + 1)%nat]> (rateLimitRetries w1);
     requestCount := requestCount w1;
     gotos := gotos w1;
     draws := S (draws w1);
     trace :=
       trace w1
       ++ [Sleep Backoff
             (inject_Z (backoffDelay cfg retryCount)
              + random env (draws w1) * 10000)%Q] |}.

End Plugins.

Arguments Details : clear implicits.
Arguments AuditorOutput : clear implicits.
Arguments Behaviour : clear implicits.
Arguments Entry : clear implicits.
Arguments Settled : clear implicits.
Arguments Compiled : clear implicits.

End AuditEngine.

(** ** The specification's wording, for comparison with the code *)

Module Claimed.
Import HTMLStructureAuditor.

(** Impact of a level mismatch, as the specification words it: critical
    if the baseline level was 1 and the current level is not 1, else
    warning if the current level is greater, else improvement if it is
    less (else neutral). *)
Definition impact (baselineLevel currentLevel : Z) : Impact :=
  if bool_decide (baselineLevel = 1 ∧ currentLevel ≠ 1) then critical
  else if bool_decide (currentLevel > baselineLevel) then warning
  else if bool_decide (currentLevel < baselineLevel) then improvement
  else neutral.

(** The hierarchy change the specification expects at index [i]. *)
Definition hierarchyChangeAt (i : nat) (hb hc : Heading) : HierarchyChange :=
  {| hcIndex := i;
     hcFrom := levelTag (level hb);
     hcTo := levelTag (level hc);
     hcText := text hc;
     hcSelector := selector hc;
     hcImpact := impact (level hb) (level hc) |}.

Definition modifiedAt (i : nat) (hb hc : Heading) : ModifiedHeading :=
  {| mhIndex := i;
     mhLevel := level hc;
     mhFrom := text hb;
     mhTo := text hc;
     mhSelector := selector hc |}.

(** The score as the specification words it: 25 is taken off per
    correlated manipulation, that is, per suspicious style change that is
    matched to a structural change. *)
Definition correlated (sc : StructureChanges) (stc : option StylingChanges)
    : list SuspiciousChange :=
  match stc with
  | Some stc =>
      filter (λ c, is_Some (findStructuralChange sc c))
             (suspiciousChanges stc)
  | None => []
  end.

Definition structureScore (sc : StructureChanges)
    (stc : option StylingChanges) : Z :=
  Z.max 0
    (100
     - 30 * countImpact critical (hierarchyChanges (headingChanges sc))
     - 15 * countImpact warning (hierarchyChanges (headingChanges sc))
     - 10 * Z.of_nat (length (removed (headingChanges sc)))
     - 20 * Z.of_nat (length (mRemoved (metaTagChanges sc)))
     - 5 * Z.of_nat (length (mModified (metaTagChanges sc)))
     - 25 * Z.of_nat (length (correlated sc stc))).

(** What the code takes off instead: 25 per suspicious style change. *)
Definition structureScoreAmended (sc : StructureChanges)
    (stc : option StylingChanges) : Z :=
  Z.max 0
    (100
     - 30 * countImpact critical (hierarchyChanges (headingChanges sc))
     - 15 * countImpact warning (hierarchyChanges (headingChanges sc))
     - 10 * Z.of_nat (length (removed (headingChanges sc)))
     - 20 * Z.of_nat (length (mRemoved (metaTagChanges sc)))
     - 5 * Z.of_nat (length (mModified (metaTagChanges sc)))
     - 25 * Z.of_nat (length (from_option suspiciousChanges [] stc))).

(** A heading with its level replaced. *)
Definition atLevel (l : Z) (h : Heading) : Heading :=
  {| level := l; text := text h; selector := selector h; index := index h;
     attrId := attrId h; attrClass := attrClass h |}.

End Claimed.

(** ** Positional view of the heading diff, used by the proofs *)

Module Positional.
Import HTMLStructureAuditor.

(** What one baseline position contributes to each list. *)
Definition hierarchyOf (cur : list Heading) (hb : Heading) (i : nat)
    : list HierarchyChange :=
  match cur !! i with
  | Some hc =>
      if bool_decide (level hb = level hc) then []
      else [ {| hcIndex := i;
                hcFrom := levelTag (level hb);
                hcTo := levelTag (level hc);
                hcText := text hc;
                hcSelector := selector hc;
                hcImpact := assessHierarchyImpact (level hb) (level hc) |} ]
  | None => []
  end.

Definition modifiedOf (cur : list Heading) (hb : Heading) (i : nat)
    : list ModifiedHeading :=
  match cur !! i with
  | Some hc =>
      if bool_decide (level hb = level hc)
         && negb (bool_decide (text hb = text hc))
      then [Claimed.modifiedAt i hb hc]
      else []
  | None => []
  end.

Definition removedOf (cur : list Heading) (hb : Heading) (i : nat)
    : list Heading :=
  match cur !! i with Some _ => [] | None => [hb] end.

Fixpoint flatMapFrom {A B : Type} (g : A → nat → list B) (k : nat)
    (l : list A) : list B :=
  match l with
  | [] => []
  | x :: l' => g x k ++ flatMapFrom g (S k) l'
  end.

End Positional.

(** ** The specification's wording for the visual severity *)

Module ClaimedVisual.
Import BaseAuditor VisualRegressionAuditor.

Inductive Severity := MAJOR | MODERATE | MINOR.


Definition noFindings : Findings :=
  {| issues := []; warnings := []; recommendations := [] |}.

(** MAJOR is recorded as one error issue, MODERATE as one warning, MINOR
    as one recommendation and no issue. *)
Definition recordedAs (c : Comparison) (sev : Severity) : Prop :=
  let out := processComparison c noFindings in
  match sev with
  | MAJOR =>
      ∃ e, issues out = [e] ∧ severity e = "error"
           ∧ type e = "major_visual_change"
           ∧ warnings out = [] ∧ recommendations out = []
  | MODERATE =>
      ∃ w, warnings out = [w] ∧ severity w = "warning"
           ∧ type w = "moderate_visual_change"
           ∧ issues out = [] ∧ recommendations out = []
  | MINOR =>
      ∃ r, recommendations out = [r] ∧ recType r = "minor_visual_change"
           ∧ issues out = [] ∧ warnings out = []
  end.

End ClaimedVisual.

(** ** Concrete images *)

Module VisualExamples.
Import VisualRegressionAuditor.

(** A stand-in for [pixelmatch] on concrete images: the number of
    positions at which the two buffers differ. *)
Fixpoint countDifferent (a b : list Z) : Z :=
  match a, b with
  | x :: a', y :: b' =>
      (if bool_decide (x = y) then 0 else 1) + countDifferent a' b'
  | _, _ => 0
  end.

Definition countingMatch : PixelMatch :=
  λ a b _ _, inr (countDifferent a b).

Definition image (w h : Z) (pixels : list Z) : Image :=
  {| width := w; height := h; data := pixels |}.


End VisualExamples.

(** ** The correlation step, list by list *)

Module Correlation.
Import BaseAuditor HTMLStructureAuditor.

Section WithParseFloat.
Context `{ParseFloat}.





End WithParseFloat.

Definition stylingIssues (sc : StructureChanges)
    (suspicious : list SuspiciousChange) : list (Issue Details) :=
  omap (λ c, (λ hc, manipulationIssue hc c) <$> findStructuralChange sc c)
       suspicious.

Definition stylingWarnings (sc : StructureChanges)
    (suspicious : list SuspiciousChange) : list (Issue Details) :=
  omap (λ c, match findStructuralChange sc c with
             | Some _ => None
             | None => Some (suspiciousStylingWarning c)
             end)
       suspicious.

End Correlation.

(** ** Concrete snapshots *)

Module Examples.
Import HTMLStructureAuditor.

Definition heading (l : Z) (t sel : string) (i : nat) : Heading :=
  {| level := l; text := t; selector := sel; index := i;
     attrId := None; attrClass := None |}.

Definition page (hs : list Heading) : Structure :=
  {| title := "Landing"; headings := hs; importantElements := [];
     metaTags := [] |}.

Definition style (size weight : string) : JS.Obj string :=
  [("fontSize", size); ("fontWeight", weight); ("display", "block")].

(** A page whose second heading only grows from 16px to 24px: no
    structural change at all. *)
Definition restyledHeadings : list Heading :=
  [heading 1 "Welcome" "main > h1" 0; heading 2 "Plans" "main > h2" 1].

Definition restyledBefore : Styling :=
  [("h1", style "32px" "700"); ("h2:nth-of-type(2)", style "16px" "400")].

Definition restyledAfter : Styling :=
  [("h1", style "32px" "700"); ("h2:nth-of-type(2)", style "24px" "400")].

(** A page whose second heading is demoted from H1 to H3 while the first
    heading, an H3, is enlarged. *)
Definition demotedBefore : list Heading :=
  [heading 3 "Offer" "main > h3" 0; heading 1 "Welcome" "main > h1" 1].

Definition demotedAfter : list Heading :=
  [heading 3 "Offer" "main:nth-child(1) > h3" 0;
   heading 3 "Welcome" "main:nth-child(2) > h3" 1].

Definition demotedStyleBefore : Styling :=
  [("h3", style "16px" "400"); ("h1:nth-of-type(2)", style "32px" "700")].

Definition demotedStyleAfter : Styling :=
  [("h3", style "32px" "400"); ("h3:nth-of-type(2)", style "32px" "700")].

Definition demotedBaseline : Baseline :=
  {| bStructure := page demotedBefore; bStyling := Some demotedStyleBefore |}.



End Examples.

(** ** Views on the navigation of one audit task *)

Module Navigation.
Import AuditEngine.

(** The sleeps between navigation attempts, of a trace. *)
Definition retrySleepsOf (t : list Event) : list Q :=
  omap (λ e, match e with Sleep NavigationRetry ms => Some ms | _ => None end)
    t.

(** The sleep after the failed attempt number [attempt], counted from
    zero, when its jitter is the [draw]-th random number. *)
Definition retryDelay {PluginDetails Payload : Type}
    (env : @Env PluginDetails Payload) (draw attempt : nat) : Q :=
  (inject_Z (2000 * (Z.of_nat attempt + 1)) + random env draw * 2000)%Q.



End Navigation.

(** ** utils/Cache: a store limited in age and in size *)

Module Cache.

(** [x || d] on a number option: [undefined] and [0] give the default. *)
Definition orNum (x : option Z) (d : Z) : Z :=
  match x with
  | None | Some 0 => d
  | Some v => v
  end.

(** [Map.prototype.delete]. *)
Definition remove {V : Type} (o : list (string * V)) (k : string)
    : list (string * V) :=
  filter (λ kv, kv.1 ≠ k) o.

Section Values.
Context {V : Type}.

(** A stored [{ value, timestamp }]; the value [None] is [null]. *)
Record Item := {
  value : option V;
  timestamp : Z;
}.

Record t := {
  cache : JS.Obj Item;
  ttl : Z;
  maxSize : Z;
}.

Definition new (optTtl optMaxSize : option Z) : t :=
  {| cache := [];
     ttl := orNum optTtl 300000;
     maxSize := orNum optMaxSize 1000 |}.

Definition size (c : t) : Z := Z.of_nat (length (cache c)).

(** [set(key, value)] when [Date.now()] is [now]. *)
Definition set (c : t) (now : Z) (key : string) (v : option V) : t :=
  let entries :=
    if bool_decide (maxSize c ≤ size c) then
      match cache c with
      | [] => cache c
      | (firstKey, _) :: _ => remove (cache c) firstKey
      end
    else cache c in
  {| cache := JS.set entries key {| value := v; timestamp := now |};
     ttl := ttl c;
     maxSize := maxSize c |}.

(** [get(key)] when [Date.now()] is [now]: the answer ([None] is [null])
    and the cache afterwards. *)
Definition get (c : t) (now : Z) (key : string) : option V * t :=
  match JS.get (cache c) key with
  | None => (None, c)
  | Some item =>
      if bool_decide (now - timestamp item > ttl c) then
        (None, {| cache := remove (cache c) key;
                  ttl := ttl c; maxSize := maxSize c |})
      else (value item, c)
  end.

Definition has (c : t) (now : Z) (key : string) : bool * t :=
  let (v, c) := get c now key in
  (match v with None => false | Some _ => true end, c).

Definition delete (c : t) (key : string) : bool * t :=
  (match JS.get (cache c) key with None => false | Some _ => true end,
   {| cache := remove (cache c) key; ttl := ttl c; maxSize := maxSize c |}).

Definition clear (c : t) : t :=
  {| cache := []; ttl := ttl c; maxSize := maxSize c |}.

(** One call of a client, made when the clock shows [at]. *)
Inductive Call :=
| CallSet (key : string) (v : option V)
| CallGet (key : string)
| CallHas (key : string)
| CallDelete (key : string)
| CallClear.

Definition perform (c : t) (timed : Z * Call) : t :=
  match timed.2 with
  | CallSet key v => set c timed.1 key v
  | CallGet key => (get c timed.1 key).2
  | CallHas key => (has c timed.1 key).2
  | CallDelete key => (delete c key).2
  | CallClear => clear c
  end.

Definition replay (c : t) (calls : list (Z * Call)) : t :=
  fold_left perform calls c.

Definition keys (c : t) : list string := map fst (cache c).

End Values.

Arguments Item : clear implicits.
Arguments t : clear implicits.
Arguments Call : clear implicits.

End Cache.

(** ** utils/RateLimiter: a sliding window of grant times *)

Module RateLimiter.

Record t := {
  requests : Z;
  window : Z;
  queue : list Z;
}.

Definition new (optRequests optWindow : option Z) : t :=
  {| requests := Cache.orNum optRequests 10;
     window := Cache.orNum optWindow 1000;
     queue := [] |}.

(** [acquire()] called when [Date.now()] is [now]: the time at which the
    returned promise resolves, and the limiter afterwards.  A timer set
    for [delay] milliseconds fires [late] milliseconds after the delay has
    passed, and at once plus [late] when the delay is negative or, with an
    empty queue, not a number. *)
Definition acquire (rl : t) (now late : Z) : Z * t :=
  let q := filter (λ time, now - time < window rl) (queue rl) in
  if bool_decide (Z.of_nat (length q) < requests rl) then
    (now, {| requests := requests rl; window := window rl;
             queue := q ++ [now] |})
  else
    let delay :=
      match q with
      | first :: _ => window rl - (now - first)
      | [] => 0
      end in
    let fired := now + Z.max 0 delay + late in
    (fired, {| requests := requests rl; window := window rl;
               queue := q ++ [fired] |}).

(** A client that awaits each [acquire()] before going on: the call
    [(gap, late)] is made [gap] milliseconds after the previous grant.
    The result lists the grant times. *)
Fixpoint serve (rl : t) (clock : Z) (calls : list (Z * Z)) : list Z :=
  match calls with
  | [] => []
  | (gap, late) :: calls' =>
      let (granted, rl') := acquire rl (clock + gap) late in
      granted :: serve rl' granted calls'
  end.

(** The times of [l] that are less than [w] before [at]. *)
Definition recent (w at_ : Z) (l : list Z) : list Z :=
  filter (λ time, at_ - time < w) l.

(** The grants that fall in the window of length [w] ending at [at_]. *)
Definition within (w at_ : Z) (l : list Z) : list Z :=
  filter (λ time, at_ - w < time ∧ time ≤ at_) l.

End RateLimiter.

(** ** models/AuditSummary *)

Module AuditSummary.
Import BaseAuditor.

Section WithDetails.
Context {Details Finding : Type}.

(** The counters and rates of a summary.  The per-auditor counters and
    the load-time average are left out with the fields they read. *)
Record t := {
  totalUrls : Z;
  successfulAudits : Z;
  failedAudits : Z;
  successRate : Z;
  criticalIssues : Z;
  totalWarnings : Z;
  auditScore : Z;
}.

Definition countCriticalIssues (results : list (AuditResult.t Details Finding))
    : Z :=
  fold_left
    (λ count result,
       count
       + Z.of_nat (length (filter (λ i, severity i = "error")
                             (AuditResult.issues result))))
    results 0.

Definition countWarnings (results : list (AuditResult.t Details Finding))
    : Z :=
  fold_left
    (λ count result, count + Z.of_nat (length (AuditResult.warnings result)))
    results 0.

Definition calculateOverallScore (totalUrls : Z)
    (results : list (AuditResult.t Details Finding)) : Z :=
  if bool_decide (totalUrls = 0) then 0
  else
    let total :=
      fold_left (λ sum result, sum + AuditResult.auditScore result)
        results 0 in
    let avgScore := (inject_Z total / inject_Z totalUrls)%Q in
    JS.round avgScore.

(** The constructor, from [data.totalUrls] and [data.results]. *)
Definition new (dataTotalUrls : option Z)
    (results : list (AuditResult.t Details Finding)) : t :=
  let totalUrls := Cache.orNum dataTotalUrls 0 in
  let successfulAudits :=
    Z.of_nat (length (filter (λ r, AuditResult.success r = true) results)) in
  let failedAudits :=
    Z.of_nat (length (filter (λ r, negb (AuditResult.success r) = true)
                        results)) in
  {| totalUrls := totalUrls;
     successfulAudits := successfulAudits;
     failedAudits := failedAudits;
     successRate :=
       if bool_decide (totalUrls > 0) then
         JS.round (inject_Z successfulAudits / inject_Z totalUrls * 100)%Q
       else 0;
     criticalIssues := countCriticalIssues results;
     totalWarnings := countWarnings results;
     auditScore := calculateOverallScore totalUrls results |}.


End WithDetails.

Arguments t : clear implicits.

End AuditSummary.

(** ** core/AuditEngine: the worker pool of [auditUrls] *)

Module Pool.
Import AuditEngine.

Section Plugins.
Context {PluginDetails Payload : Type}.

(** The locals of [auditUrls] and the engine fields it updates.
    [inFlight] lists the tasks started and not yet settled, oldest first;
    the code has them only as pending promises. *)
Record State := {
  pending : list CrawlResult.t;
  inFlight : list CrawlResult.t;
  runningTasks : Z;
  auditResults : list (@Result PluginDetails Payload);
  successful : list string;
  failed : list (string * option string);
  requestCount : Z;
}.

(** The inner [while]: start tasks as long as the limit allows. *)
Fixpoint launchFrom (concurrentLimit : Z)
    (pending inFlight : list CrawlResult.t) (runningTasks : Z)
    : list CrawlResult.t * list CrawlResult.t * Z :=
  match pending with
  | crawlResult :: pending' =>
      if bool_decide (runningTasks < concurrentLimit)
      then launchFrom concurrentLimit pending' (inFlight ++ [crawlResult])
             (runningTasks + 1)
      else (pending, inFlight, runningTasks)
  | [] => (pending, inFlight, runningTasks)
  end.

Definition launched (concurrentLimit : Z) (s : State) : State :=
  let '(pending', inFlight', runningTasks') :=
    launchFrom concurrentLimit (pending s) (inFlight s) (runningTasks s) in
  {| pending := pending'; inFlight := inFlight';
     runningTasks := runningTasks'; auditResults := auditResults s;
     successful := successful s; failed := failed s;
     requestCount := requestCount s |}.

(** One task settling while the loop waits: which task in flight, the
    environment and the engine fields as that task saw them (what other
    tasks do to them meanwhile is not modelled), and whether the progress
    callback returns or throws. *)
Record Settlement := {
  task : nat;
  taskEnv : @Env PluginDetails Payload;
  taskWorld : World;
  taskFuel : nat;
  callbackThrows : option string;
}.

(** The [.then] handler of a task and, when the progress callback throws
    in it, the [.catch] handler after it. *)
Definition settle (cfg : Config) (options : Options) (s : State)
    (e : Settlement) : option State :=
  crawlResult ← inFlight s !! task e;
  result ← (auditSingleUrl cfg (taskFuel e) crawlResult options (taskEnv e)
              (taskWorld e)).1;
  let s :=
    {| pending := pending s;
       inFlight := delete (task e) (inFlight s);
       runningTasks := runningTasks s - 1;
       auditResults := auditResults s ++ [result];
       successful :=
         if AuditResult.success result
         then successful s ++ [AuditResult.url result] else successful s;
       failed :=
         if AuditResult.success result then failed s
         else failed s
              ++ [(AuditResult.url result, AuditResult.error result)];
       requestCount := requestCount s + 1 |} in
  Some
    match callbackThrows e with
    | None => s
    | Some message =>
        {| pending := pending s;
           inFlight := inFlight s;
           runningTasks := runningTasks s - 1;
           auditResults :=
             auditResults s
             ++ [failedResult (CrawlResult.url crawlResult) message];
           successful := successful s;
           failed :=
             failed s ++ [(CrawlResult.url crawlResult, Some message)];
           requestCount := requestCount s |}
    end.

Fixpoint settleAll (cfg : Config) (options : Options) (s : State)
    (settlements : list Settlement) : option State :=
  match settlements with
  | [] => Some s
  | e :: settlements' =>
      s' ← settle cfg options s e;
      settleAll cfg options s' settlements'
  end.

(** The outer [while]; [ticks] lists, for each 200 ms wait, the tasks
    that settle in it.  [None] when the schedule ends before the loop
    does, or names a task that is not in flight or has not enough fuel. *)
Fixpoint auditUrlsFrom (cfg : Config) (options : Options)
    (concurrentLimit : Z) (ticks : list (list Settlement)) (s : State)
    : option State :=
  if bool_decide (pending s ≠ [] ∨ runningTasks s > 0) then
    match ticks with
    | [] => None
    | settlements :: ticks' =>
        s' ← settleAll cfg options (launched concurrentLimit s) settlements;
        auditUrlsFrom cfg options concurrentLimit ticks' s'
    end
  else Some s.

(** [auditUrls(crawlResults, options, progressCallback)] on an engine
    with [runningTasks] tasks counted and [requestCount] requests made. *)
Definition auditUrls (cfg : Config) (options : Options)
    (concurrentLimit runningTasks requestCount : Z)
    (ticks : list (list Settlement)) (crawlResults : list CrawlResult.t)
    : option State :=
  auditUrlsFrom cfg options concurrentLimit ticks
    {| pending := crawlResults; inFlight := [];
       runningTasks := runningTasks; auditResults := [];
       successful := []; failed := []; requestCount := requestCount |}.

(** What the loop can do next: start what the limit allows, or see one
    task settle whose progress callback returns. *)
Inductive step (cfg : Config) (options : Options) (concurrentLimit : Z)
    : State → State → Prop :=
| step_launch s : step cfg options concurrentLimit s (launched concurrentLimit s)
| step_settle s e s' :
    settle cfg options s e = Some s' →
    callbackThrows e = None →
    step cfg options concurrentLimit s s'.

(** Every URL handed to [auditUrls] is accounted for once, as reported,
    in flight or pending, and the counters agree with the lists. *)
Definition accounted (crawlResults : list CrawlResult.t) (requestCount0 : Z)
    (s : State) : Prop :=
  runningTasks s = Z.of_nat (length (inFlight s))
  ∧ map AuditResult.url (auditResults s)
    ++ map CrawlResult.url (inFlight s) ++ map CrawlResult.url (pending s)
    ≡ₚ map CrawlResult.url crawlResults
  ∧ (length (successful s) + length (failed s))%nat
    = length (auditResults s)
  ∧ requestCount s = requestCount0 + Z.of_nat (length (auditResults s)).

End Plugins.

Arguments State : clear implicits.
Arguments Settlement : clear implicits.

End Pool.

(** ** Frontier views used by the statements *)

Module Frontier.
Import CrawlerEngine.

(** Every queued and every visited URL is a discovered one, and every
    failed URL is a visited one. *)
Definition closed (st : State) : Prop :=
  (∀ u d, (u, d) ∈ queue st → u ∈ discoveredUrls st)
  ∧ (∀ u, u ∈ visitedUrls st → u ∈ discoveredUrls st)
  ∧ (∀ u, u ∈ failedUrls st → u ∈ visitedUrls st).

(** The state [crawlLoop] goes on with once it has taken the head of the
    queue. *)
Definition popped (st : State) : State :=
  {| queue := tail (queue st); discoveredUrls := discoveredUrls st;
     visitedUrls := visitedUrls st; failedUrls := failedUrls st |}.

(** The most URLs a run can end with when no page offers more than
    [perPage] links. *)
Definition reach (cfg : Config) (perPage : nat) (already : nat) : nat :=
  Nat.max already (Z.to_nat (maxUrls cfg - 1) + perPage).

End Frontier.

(* ===================================================================== *)
(** * Part II: properties                                                 *)
(* ===================================================================== *)

(** ** AuditResult score *)

Section AuditResultScore.
Context {Details Finding : Type}.
Import BaseAuditor.

Lemma calculateAuditScore_range (s : bool) (iss ws : list (Issue Details)) :
0 ≤ AuditResult.calculateAuditScore s iss ws ≤ 100.
Proof.
unfold AuditResult.calculateAuditScore. destruct s; simpl; lia.
Qed.

(** C10. For every AuditResult built by the constructor, [auditScore] is
  within 0..100; it is 0 when [success] is false, and otherwise it is
  100 minus 15 per issue of severity "error" minus 5 per warning,
  clamped to 0..100. *)
Theorem auditScore_formula (data : AuditResult.Data Details Finding) :
let r := AuditResult.new data in
0 ≤ AuditResult.auditScore r ≤ 100
∧ AuditResult.auditScore r =
    if AuditResult.success r
    then Z.max 0 (Z.min 100
           (100
            - 15 * Z.of_nat (length (filter (λ i, severity i = "error")
                                       (AuditResult.issues r)))
            - 5 * Z.of_nat (length (AuditResult.warnings r))))
    else 0.
Proof.
intros r. split.
- apply calculateAuditScore_range.
- subst r. simpl. unfold AuditResult.calculateAuditScore.
  destruct (default false (AuditResult.d_success data)); simpl; [|done].
  f_equal. f_equal. lia.
Qed.

End AuditResultScore.


(** ** Heading diff *)

Section HeadingDiff.
Import HTMLStructureAuditor Positional.

Lemma compareHeadingAt_fields cur hb i s :
  let s' := compareHeadingAt cur hb i s in
  hierarchyChanges s' = hierarchyChanges s ++ hierarchyOf cur hb i
  ∧ modified s' = modified s ++ modifiedOf cur hb i
  ∧ removed s' = removed s ++ removedOf cur hb i
  ∧ added s' = added s.
Proof.
  unfold compareHeadingAt, hierarchyOf, modifiedOf, removedOf, JS.push.
  destruct (cur !! i) as [hc|]; simpl.
  - destruct (bool_decide (level hb = level hc)); simpl.
    + destruct (bool_decide (text hb = text hc)); simpl;
        rewrite ?app_nil_r; auto.
    + rewrite ?app_nil_r; auto.
  - rewrite ?app_nil_r; auto.
Qed.

Lemma forEachFrom_fields cur b : ∀ k s,
  let s' := JS.forEachFrom (compareHeadingAt cur) k b s in
  hierarchyChanges s' = hierarchyChanges s ++ flatMapFrom (hierarchyOf cur) k b
  ∧ modified s' = modified s ++ flatMapFrom (modifiedOf cur) k b
  ∧ removed s' = removed s ++ flatMapFrom (removedOf cur) k b
  ∧ added s' = added s.
Proof.
  induction b as [|hb b IH]; intros k s; simpl.
  - rewrite !app_nil_r; auto.
  - destruct (IH (S k) (compareHeadingAt cur hb k s)) as (E1 & E2 & E3 & E4).
    destruct (compareHeadingAt_fields cur hb k s) as (F1 & F2 & F3 & F4).
    rewrite E1, E2, E3, E4, F1, F2, F3, F4, <- !app_assoc. auto.
Qed.

Lemma compareHeadings_fields b cur :
  let r := compareHeadings b cur in
  hierarchyChanges r = flatMapFrom (hierarchyOf cur) 0 b
  ∧ modified r = flatMapFrom (modifiedOf cur) 0 b
  ∧ removed r = flatMapFrom (removedOf cur) 0 b
  ∧ added r = drop (length b) cur.
Proof.
  unfold compareHeadings, JS.forEach.
  destruct (forEachFrom_fields cur b 0
              {| hHasChanges := false; added := []; removed := [];
                 modified := []; hierarchyChanges := [] |})
    as (E1 & E2 & E3 & E4).
  simpl in *. case_bool_decide as Hlen; simpl.
  - rewrite E1, E2, E3, E4. auto.
  - rewrite E1, E2, E3, E4. repeat split; auto.
    symmetry. apply drop_ge. lia.
Qed.

Lemma removedOf_drop cur b : ∀ k,
  flatMapFrom (removedOf cur) k b = drop (length cur - k) b.
Proof.
  induction b as [|hb b IH]; intros k; simpl.
  - by rewrite drop_nil.
  - rewrite IH. unfold removedOf.
    destruct (cur !! k) as [hc|] eqn:E.
    + apply lookup_lt_Some in E.
      replace (length cur - k)%nat with (S (length cur - S k)) by lia.
      done.
    + apply lookup_ge_None in E.
      replace (length cur - k)%nat with 0%nat by lia.
      replace (length cur - S k)%nat with 0%nat by lia.
      done.
Qed.

Lemma filter_all {A : Type} (P : A → Prop) `{∀ x, Decision (P x)}
    (l : list A) :
  Forall P l → filter P l = l.
Proof.
  induction 1 as [|x l Hx _ IH]; [done|].
  by rewrite filter_cons_True, IH.
Qed.

Lemma filter_none {A : Type} (P : A → Prop) `{∀ x, Decision (P x)}
    (l : list A) :
  Forall (λ x, ¬ P x) l → filter P l = [].
Proof.
  induction 1 as [|x l Hx _ IH]; [done|].
  by rewrite filter_cons_False.
Qed.

(** Selecting the entries of one index out of an indexed flat map. *)
Lemma filter_flatMapFrom_lt {A B : Type} (g : A → nat → list B)
    (idx : B → nat) (Hidx : ∀ x k e, e ∈ g x k → idx e = k) (l : list A) :
  ∀ k i, (i < k)%nat →
    filter (λ e, idx e = i) (flatMapFrom g k l) = [].
Proof.
  induction l as [|y l IH]; intros k i Hi; simpl; [done|].
  rewrite filter_app, IH by lia. rewrite app_nil_r.
  apply filter_none, Forall_forall. intros e He.
  apply Hidx in He. lia.
Qed.

Lemma filter_flatMapFrom {A B : Type} (g : A → nat → list B)
    (idx : B → nat) (Hidx : ∀ x k e, e ∈ g x k → idx e = k) (l : list A) :
  ∀ k j x, l !! j = Some x →
    filter (λ e, idx e = (k + j)%nat) (flatMapFrom g k l) = g x (k + j)%nat.
Proof.
  induction l as [|y l IH]; intros k j x Hj; [done|].
  simpl. rewrite filter_app. destruct j as [|j]; simpl in Hj.
  - inversion Hj; subst y. rewrite Nat.add_0_r.
    rewrite (filter_flatMapFrom_lt g idx Hidx) by lia.
    rewrite app_nil_r. apply filter_all, Forall_forall.
    intros e He. by apply Hidx in He.
  - replace (k + S j)%nat with (S k + j)%nat by lia.
    rewrite (IH (S k) j x Hj).
    rewrite filter_none; [done|].
    apply Forall_forall. intros e He. apply Hidx in He. lia.
Qed.

Lemma elem_of_flatMapFrom {A B : Type} (g : A → nat → list B) (l : list A) :
  ∀ k e, e ∈ flatMapFrom g k l →
    ∃ j x, l !! j = Some x ∧ e ∈ g x (k + j)%nat.
Proof.
  induction l as [|y l IH]; intros k e He; simpl in He.
  - by apply elem_of_nil in He.
  - apply elem_of_app in He as [He|He].
    + exists 0%nat, y. by rewrite Nat.add_0_r.
    + apply IH in He as (j & x & Hj & He). exists (S j), x.
      split; [done|]. by replace (k + S j)%nat with (S k + j)%nat by lia.
Qed.

Lemma hierarchyOf_index cur hb k e : e ∈ hierarchyOf cur hb k → hcIndex e = k.
Proof.
  unfold hierarchyOf. destruct (cur !! k); [|by intros ?%elem_of_nil].
  case_bool_decide; [by intros ?%elem_of_nil|].
  by intros ->%list_elem_of_singleton.
Qed.

Lemma modifiedOf_index cur hb k e : e ∈ modifiedOf cur hb k → mhIndex e = k.
Proof.
  unfold modifiedOf. destruct (cur !! k); [|by intros ?%elem_of_nil].
  destruct (_ && _); [|by intros ?%elem_of_nil].
  by intros ->%list_elem_of_singleton.
Qed.

(** On heading levels the code's guard [toLevel > 1] and the
    specification's "is not 1" agree. *)
Lemma assessHierarchyImpact_claimed (f t : Z) :
  1 ≤ t → f ≠ t → assessHierarchyImpact f t = Claimed.impact f t.
Proof.
  intros Ht Hne. unfold assessHierarchyImpact, Claimed.impact.
  repeat case_bool_decide; simpl; try done; lia.
Qed.

(** C5. The heading diff is positional.  For baseline and current heading
    lists whose current levels are heading levels (at least 1): at every
    index present in both lists a level mismatch yields exactly one
    hierarchy change, with impact critical if the baseline level was 1 and
    the current level is not 1, else warning if the current level is
    greater, else improvement; equal levels with differing text yield
    exactly one modified entry; every hierarchy change and modified entry
    sits at an index present in both lists; headings beyond the baseline
    length are added, baseline headings beyond the current length are
    removed.  Baseline [H1, H2] against current [H3, H2] yields exactly the
    one hierarchy change from H1 to H3 with impact critical. *)
Theorem compareHeadings_positional (baseline current : list Heading) :
  Forall (λ h, 1 ≤ level h) current →
  let r := compareHeadings baseline current in
  (∀ i hb hc, baseline !! i = Some hb → current !! i = Some hc →
     filter (λ e, hcIndex e = i) (hierarchyChanges r)
       = (if bool_decide (level hb = level hc) then []
          else [Claimed.hierarchyChangeAt i hb hc])
     ∧ filter (λ e, mhIndex e = i) (modified r)
       = (if bool_decide (level hb = level hc)
             && negb (bool_decide (text hb = text hc))
          then [Claimed.modifiedAt i hb hc] else []))
  ∧ (∀ e, e ∈ hierarchyChanges r →
       (hcIndex e < length baseline)%nat ∧ (hcIndex e < length current)%nat)
  ∧ (∀ e, e ∈ modified r →
       (mhIndex e < length baseline)%nat ∧ (mhIndex e < length current)%nat)
  ∧ added r = drop (length baseline) current
  ∧ removed r = drop (length current) baseline
  ∧ (∀ b1 b2 c1 c2 : Heading,
       hierarchyChanges
         (compareHeadings [Claimed.atLevel 1 b1; Claimed.atLevel 2 b2]
                          [Claimed.atLevel 3 c1; Claimed.atLevel 2 c2])
       = [ {| hcIndex := 0; hcFrom := "H1"; hcTo := "H3";
              hcText := text c1; hcSelector := selector c1;
              hcImpact := critical |} ]).
Proof.
  intros Hlev r.
  destruct (compareHeadings_fields baseline current) as (E1 & E2 & E3 & E4).
  fold r in E1, E2, E3, E4.
  split; [|split; [|split; [|split; [|split]]]].
  - intros i hb hc Hb Hc. rewrite E1, E2. split.
    + pose proof (filter_flatMapFrom (hierarchyOf current) hcIndex
                    (hierarchyOf_index current) baseline 0 i hb Hb) as Hf.
      simpl in Hf. rewrite Hf. unfold hierarchyOf. rewrite Hc.
      case_bool_decide as Hl; [done|].
      unfold Claimed.hierarchyChangeAt.
      rewrite assessHierarchyImpact_claimed; [done| |done].
      eapply (Forall_lookup_1 _ _ _ _ Hlev Hc).
    + pose proof (filter_flatMapFrom (modifiedOf current) mhIndex
                    (modifiedOf_index current) baseline 0 i hb Hb) as Hf.
      simpl in Hf. rewrite Hf. unfold modifiedOf. by rewrite Hc.
  - intros e He. rewrite E1 in He.
    apply elem_of_flatMapFrom in He as (j & hb & Hj & He). simpl in He.
    pose proof (hierarchyOf_index _ _ _ _ He) as ->.
    apply lookup_lt_Some in Hj. split; [done|].
    unfold hierarchyOf in He. destruct (current !! j) eqn:Hc.
    + by apply lookup_lt_Some in Hc.
    + by apply elem_of_nil in He.
  - intros e He. rewrite E2 in He.
    apply elem_of_flatMapFrom in He as (j & hb & Hj & He). simpl in He.
    pose proof (modifiedOf_index _ _ _ _ He) as ->.
    apply lookup_lt_Some in Hj. split; [done|].
    unfold modifiedOf in He. destruct (current !! j) eqn:Hc.
    + by apply lookup_lt_Some in Hc.
    + by apply elem_of_nil in He.
  - done.
  - rewrite E3, removedOf_drop. by rewrite Nat.sub_0_r.
  - intros b1 b2 c1 c2.
    rewrite (proj1 (compareHeadings_fields _ _)). reflexivity.
Qed.

Lemma compareHeadings_positional_witness :
  let h l t := {| level := l; text := t; selector := "main > h" +:+ pretty l;
                  index := 0; attrId := None; attrClass := None |} in
  let baseline := [h 1 "Welcome"; h 2 "Pricing"; h 2 "Contact"] in
  let current := [h 3 "Welcome"; h 2 "Plans"] in
  Forall (λ h, 1 ≤ level h) current
  ∧ filter (λ e, hcIndex e = 0%nat)
      (hierarchyChanges (compareHeadings baseline current))
    = [Claimed.hierarchyChangeAt 0 (h 1 "Welcome") (h 3 "Welcome")]
  ∧ removed (compareHeadings baseline current) = [h 2 "Contact"].
Proof.
  intros h baseline current.
  assert (Hlev : Forall (λ h, 1 ≤ level h) current).
  { repeat constructor; simpl; lia. }
  split; [exact Hlev|].
  pose proof (compareHeadings_positional baseline current Hlev) as
    (Hpos & _ & _ & _ & Hrem & _).
  split.
  - exact (proj1 (Hpos 0%nat (h 1 "Welcome") (h 3 "Welcome")
                    eq_refl eq_refl)).
  - exact Hrem.
Defined.

End HeadingDiff.

(** ** Structure score *)

Section StructureScore.
Import HTMLStructureAuditor.

Lemma fold_left_inv {A B : Type} (P : A → Prop) (f : A → B → A)
    (l : list B) : ∀ a,
  P a → (∀ a x, x ∈ l → P a → P (f a x)) → P (fold_left f l a).
Proof.
  induction l as [|x l IH]; intros a Ha Hstep; simpl; [done|].
  apply IH.
  - apply Hstep; [left|done].
  - intros a' y Hy. apply Hstep. by right.
Qed.

Lemma forEachFrom_inv {A St : Type} (P : St → Prop) (f : A → nat → St → St)
    (l : list A) : ∀ k s,
  P s → (∀ x i s, P s → P (f x i s)) → P (JS.forEachFrom f k l s).
Proof.
  induction l as [|x l IH]; intros k s Hs Hstep; simpl; [done|].
  apply IH; [by apply Hstep|done].
Qed.

(** The [hasChanges] flags are raised whenever a list the score reads is
    non-empty, so the guard of [calculateStructureScore] never hides a
    deduction. *)
Lemma compareHeadings_flag b cur :
  hHasChanges (compareHeadings b cur) = false →
  hierarchyChanges (compareHeadings b cur) = []
  ∧ removed (compareHeadings b cur) = [].
Proof.
  unfold compareHeadings, JS.forEach.
  set (P := λ s : HeadingChanges,
         hHasChanges s = false → hierarchyChanges s = [] ∧ removed s = []).
  assert (HP : P (JS.forEachFrom (compareHeadingAt cur) 0 b
                    {| hHasChanges := false; added := []; removed := [];
                       modified := []; hierarchyChanges := [] |})).
  { apply forEachFrom_inv; [by intros _|].
    intros x i s Hs. unfold P, compareHeadingAt in *.
    destruct (cur !! i); [|done].
    repeat (case_bool_decide; simpl; try done). }
  case_bool_decide; simpl; [done|]. exact HP.
Qed.

Lemma compareMetaTags_flag b cur :
  mHasChanges (compareMetaTags b cur) = false →
  mRemoved (compareMetaTags b cur) = []
  ∧ mModified (compareMetaTags b cur) = [].
Proof.
  unfold compareMetaTags.
  set (P := λ s : MetaTagChanges,
         mHasChanges s = false → mRemoved s = [] ∧ mModified s = []).
  apply (fold_left_inv P).
  - apply (fold_left_inv P); [by intros _|].
    intros a x _ Ha. unfold P in *.
    destruct (JS.get _ _); [|done].
    case_bool_decide; simpl; done.
  - intros a x _ Ha. unfold P in *. destruct (JS.get _ _); done.
Qed.

Lemma compareStructures_flag b cur :
  let sc := compareStructures b cur in
  hasChanges sc = false →
  hierarchyChanges (headingChanges sc) = []
  ∧ removed (headingChanges sc) = []
  ∧ mRemoved (metaTagChanges sc) = []
  ∧ mModified (metaTagChanges sc) = [].
Proof.
  simpl. intros Hf.
  apply orb_false_iff in Hf as [Hf _].
  apply orb_false_iff in Hf as [Hf Hm].
  apply orb_false_iff in Hf as [_ Hh].
  destruct (compareHeadings_flag _ _ Hh), (compareMetaTags_flag _ _ Hm).
  auto.
Qed.

Section WithParseFloat.
Context `{ParseFloat}.

Lemma compareStyling_flag bs cs :
  hasCompensation (compareStyling bs cs) = false →
  suspiciousChanges (compareStyling bs cs) = [].
Proof.
  unfold compareStyling.
  apply (fold_left_inv
           (λ s, hasCompensation s = false → suspiciousChanges s = []));
    [done|].
  intros a x _ Ha. destruct (JS.get cs x.1); [|done].
  destruct (diffProperties _ _) as [d []]; [|done].
  destruct (isSuspiciousStyling _ _); simpl; done.
Qed.

(** C6 (as the code has it). For the structure comparison and the styling
    comparison produced from a baseline and a current snapshot (no styling
    comparison when style analysis is off or the baseline has no styling),
    the score is 100 minus 30 per critical hierarchy change, 15 per
    warning hierarchy change, 10 per removed heading, 20 per removed meta
    tag, 5 per modified meta tag and 25 per suspicious style change,
    matched to a structural change or not, floored at 0. *)
Theorem calculateStructureScore_formula (baseline current : Structure)
    (stylings : option (Styling * Styling)) :
  let sc := compareStructures baseline current in
  let stc := (λ p, compareStyling p.1 p.2) <$> stylings in
  calculateStructureScore sc stc = Claimed.structureScoreAmended sc stc.
Proof.
  intros sc stc. unfold calculateStructureScore, Claimed.structureScoreAmended.
  assert (Hstyle :
    match stc with
    | Some s => if hasCompensation s then
                  Z.of_nat (length (suspiciousChanges s)) else 0
    | None => 0
    end = Z.of_nat (length (from_option suspiciousChanges [] stc))).
  { subst stc. destruct stylings as [[bs cs]|]; simpl; [|done].
    destruct (hasCompensation _) eqn:E; [done|].
    by rewrite compareStyling_flag. }
  destruct (hasChanges sc) eqn:Hc.
  - destruct stc as [s|]; simpl in *; [destruct (hasCompensation s)|]; lia.
  - destruct (compareStructures_flag baseline current Hc)
      as (E1 & E2 & E3 & E4).
    fold sc in E1, E2, E3, E4. rewrite E1, E2, E3, E4.
    unfold countImpact. simpl.
    destruct stc as [s|]; simpl in *; [destruct (hasCompensation s)|]; lia.
Qed.

End WithParseFloat.

End StructureScore.

Section StructureScoreCounterexample.
Import HTMLStructureAuditor Examples.

(** C6 as stated fails: a heading that is only restyled (16px to 24px, no
    hierarchy change anywhere) is a suspicious style change matched to no
    structural change; the stated formula gives 100, the code gives 75. *)
Lemma structureScore_unmatched_counterexample :
  let sc := compareStructures (page restyledHeadings) (page restyledHeadings) in
  let stc :=
    Some (compareStyling (H := Decimal.parse) restyledBefore restyledAfter) in
  Claimed.correlated sc stc = []
  ∧ Claimed.structureScore sc stc = 100
  ∧ calculateStructureScore sc stc = 75
  ∧ calculateStructureScore sc stc ≠ Claimed.structureScore sc stc.
Proof. vm_compute. done. Qed.

End StructureScoreCounterexample.

(** ** Style diff and correlation *)

Section StyleCorrelation.
Import BaseAuditor HTMLStructureAuditor Correlation.

Lemma get_set {V : Type} (o : JS.Obj V) (k k' : string) (v : V) :
  JS.get (JS.set o k v) k' = if String.eqb k k' then Some v else JS.get o k'.
Proof.
  induction o as [|[k0 v0] o IH]; simpl; [done|].
  destruct (String.eqb_spec k0 k) as [->|Hne]; simpl.
  - by destruct (String.eqb k k').
  - rewrite IH. destruct (String.eqb_spec k0 k') as [->|Hne']; [|done].
    by destruct (String.eqb_spec k k') as [->|].
Qed.




Lemma processStylingChanges_lists stc sc i w :
  (hasCompensation stc = false → suspiciousChanges stc = []) →
  processStylingChanges stc sc i w
  = (i ++ stylingIssues sc (suspiciousChanges stc),
     w ++ stylingWarnings sc (suspiciousChanges stc)).
Proof.
  intros Hflag. unfold processStylingChanges.
  destruct (hasCompensation stc).
  - generalize (suspiciousChanges stc). intros l. revert i w.
    induction l as [|c l IH]; intros i w; simpl.
    + by rewrite !app_nil_r.
    + unfold stylingIssues, stylingWarnings in *. simpl.
      destruct (findStructuralChange sc c); simpl; rewrite IH;
        unfold JS.push; by rewrite <- ?app_assoc.
  - rewrite Hflag by done. simpl. by rewrite !app_nil_r.
Qed.

Section WithParseFloat.
Context `{ParseFloat}.




End WithParseFloat.


End StyleCorrelation.

(** ** Visual regression *)

Section VisualRegression.
Import BaseAuditor VisualRegressionAuditor ClaimedVisual VisualExamples.

Lemma gt_true_iff (p q : Q) :
  JS.gt (Some p) (Some q) = true ↔ (q < p)%Q.
Proof.
  unfold JS.gt. rewrite negb_true_iff. split.
  - intros Hb. apply Qnot_le_lt. intros Hle.
    apply Qle_bool_iff in Hle. congruence.
  - intros Hlt. destruct (Qle_bool p q) eqn:E; [|done].
    apply Qle_bool_iff in E. exfalso. by apply (Qlt_not_le q p).
Qed.

Lemma gt_false_iff (p q : Q) :
  JS.gt (Some p) (Some q) = false ↔ (p <= q)%Q.
Proof.
  unfold JS.gt. rewrite negb_false_iff. apply Qle_bool_iff.
Qed.






(** C8 (what the code does). When an image of the pair cannot be read,
    no exception leaves [compareScreenshots]; the result is flagged as
    changed with reason [comparison_error] and carries no
    [diffPercentage], so [processComparison] records it as a minor change
    (one recommendation, no issue) and the page's visual score is [NaN]. *)
Theorem unreadable_image_recorded_minor `{PixelMatch} (cfg : Config)
    (message path : string) (other : Decoded) (b : Image)
    (writeDiff : option string) (el vp u : string) :
  let failed :=
    {| hasChanges := true; reason := comparison_error; diffPixels := None;
       diffPercentage := None; diffPath := None; baselineDimensions := None;
       currentDimensions := None; error := Some message |} in
  let cmp := {| diff := failed; element := el; viewport := vp; url := u |} in
  compareScreenshots cfg (Unreadable message) other path writeDiff = failed
  ∧ compareScreenshots cfg (Pixels b) (Unreadable message) path writeDiff
    = failed
  ∧ recordedAs cmp MINOR
  ∧ issues (processComparison cmp noFindings) = []
  ∧ calculateVisualScore [cmp] = None.
Proof.
  intros failed cmp. split; [done|]. split; [done|]. split.
  - unfold recordedAs, processComparison. simpl. eauto.
  - done.
Qed.

End VisualRegression.

(** ** Audit dispatch *)

Section Dispatch.
Import BaseAuditor AuditEngine Positional.
Context {PluginDetails Payload : Type}.

Lemma applyRateLimit_run (env : @Env PluginDetails Payload) (url : string)
    (w : World) :
  applyRateLimit url env w
  = (tt, {| rateLimitRetries := rateLimitRetries w;
            requestCount := requestCount w;
            gotos := gotos w;
            draws := (draws w + pacingDraws w)%nat;
            trace := trace w ++ pacingEvents env w |}).
Proof.
  unfold applyRateLimit, pacingDraws, pacingEvents, coolsDown.
  unfold mbind, M_bind, bind, mret, M_ret, ret, rnd, sleep, getRequestCount.
  simpl. destruct (_ && _); simpl.
  - rewrite <- app_assoc. simpl. do 3 f_equal. lia.
  - do 3 f_equal. lia.
Qed.

Lemma navigateWithRetry_settles (cfg : Config)
    (env : @Env PluginDetails Payload) (url : string) (w : World) :
  (∀ message, navigate env (gotos w) url ≠ NavError message) →
  navigateWithRetry cfg url env w
  = (navigate env (gotos w) url,
     {| rateLimitRetries := rateLimitRetries w;
        requestCount := requestCount w;
        gotos := S (gotos w);
        draws := draws w;
        trace := trace w ++ [Goto url] |}).
Proof.
  intros Hok. unfold navigateWithRetry.
  destruct (retries cfg); simpl;
    unfold mbind, M_bind, bind, goto; simpl;
    destruct (navigate env (gotos w) url) as [| |m] eqn:E; try done;
    by specialize (Hok m).
Qed.

Lemma auditSingleUrl_unfold (cfg : Config) (fuel : nat) (cr : CrawlResult.t)
    (opts : Options) (env : @Env PluginDetails Payload) (w : World) :
  auditSingleUrl cfg (S fuel) cr opts env w
  = let url := CrawlResult.url cr in
    let '(_, w1) := applyRateLimit url env w in
    let '(response, w2) := navigateWithRetry cfg url env w1 in
    match response with
    | NavError message => (Some (failedResult url message), w2)
    | NoResponse =>
        (Some (failedResult url "No response received during navigation"),
         w2)
    | Response statusCode statusText =>
        if bool_decide (statusCode = 429) then
          handleRateLimit cfg (auditSingleUrl cfg fuel cr) cr env w2
        else if bool_decide (statusCode >= 400) then
          (Some (failedResult url
                   ("HTTP " +:+ pretty statusCode
                    +:+ " - Failed to load page: " +:+ statusText)), w2)
        else
          let '(_, w3) := sleep Settle (inject_Z (pageLoadDelay cfg)) env w2 in
          let '(_, w4) :=
            (if humanSimulation cfg then simulateHumanBehavior else mret tt)
              env w3 in
          let '(auditResults, w5) :=
            runAuditors cfg url (enabledAuditors cfg opts) env w4 in
          (Some (successResult cr statusCode
                   (compileAuditResults auditResults url)), w5)
    end.
Proof.
  cbn [auditSingleUrl]. unfold mbind at 1, M_bind, bind.
  destruct (applyRateLimit _ env w) as [[] w1].
  unfold mbind at 1, M_bind, bind.
  destruct (navigateWithRetry cfg _ env w1) as [[status txt| |m] w2];
    [|done|done].
  destruct (bool_decide (status = 429)); [done|].
  destruct (bool_decide (status >= 400)); [done|].
  unfold mbind at 1, M_bind, bind.
  destruct (sleep _ _ env w2) as [[] w3].
  unfold mbind at 1, M_bind, bind.
  destruct (humanSimulation cfg).
  - destruct (simulateHumanBehavior env w3) as [[] w4].
    unfold mbind at 1, M_bind, bind.
    by destruct (runAuditors _ _ _ env w4) as [rs w5].
  - unfold mbind at 1, mret, M_ret, ret, M_bind, bind.
    by destruct (runAuditors _ _ _ env w3) as [rs w5].
Qed.

(** A 429 below the cap: count the retry, back off, audit again. *)
Lemma rate_limited_round (cfg : Config) (env : @Env PluginDetails Payload)
    (fuel : nat) (cr : CrawlResult.t) (opts : Options) (w : World)
    (txt : string) (c : nat) :
  navigate env (gotos w) (CrawlResult.url cr) = Response 429 txt →
  default 0%nat (rateLimitRetries w !! CrawlResult.url cr) = c →
  (c < 3)%nat →
  auditSingleUrl cfg (S fuel) cr opts env w
  = auditSingleUrl cfg fuel cr noOptions env
      (backedOff cfg env (CrawlResult.url cr) c w).
Proof.
  intros Hnav Hc Hlt. rewrite auditSingleUrl_unfold. cbv zeta.
  rewrite applyRateLimit_run.
  rewrite navigateWithRetry_settles
    by (cbn [gotos]; intros m; rewrite Hnav; discriminate).
  cbn [gotos]. rewrite Hnav. rewrite bool_decide_eq_true_2 by done.
  unfold handleRateLimit, mbind, M_bind, bind, getRetries, setRetries, rnd,
    sleep. cbn [rateLimitRetries requestCount gotos draws trace].
  rewrite Hc. rewrite bool_decide_eq_false_2 by lia.
  unfold backedOff, navigated.
  cbn [rateLimitRetries requestCount gotos draws trace].
  by rewrite <- !app_assoc.
Qed.

(** A 429 at the cap: the terminal result, and nothing after the
    navigation that produced the 429. *)
Lemma rate_limited_final (cfg : Config) (env : @Env PluginDetails Payload)
    (fuel : nat) (cr : CrawlResult.t) (opts : Options) (w : World)
    (txt : string) :
  navigate env (gotos w) (CrawlResult.url cr) = Response 429 txt →
  (3 ≤ default 0%nat (rateLimitRetries w !! CrawlResult.url cr))%nat →
  auditSingleUrl cfg (S fuel) cr opts env w
  = (Some (rateLimitExceeded (CrawlResult.url cr)),
     navigated env (CrawlResult.url cr) w).
Proof.
  intros Hnav Hc. rewrite auditSingleUrl_unfold. cbv zeta.
  rewrite applyRateLimit_run.
  rewrite navigateWithRetry_settles
    by (cbn [gotos]; intros m; rewrite Hnav; discriminate).
  cbn [gotos]. rewrite Hnav. rewrite bool_decide_eq_true_2 by done.
  unfold handleRateLimit, mbind, M_bind, bind, getRetries, mret, M_ret, ret.
  cbn [rateLimitRetries requestCount gotos draws trace].
  rewrite bool_decide_eq_true_2 by done.
  unfold navigated. by rewrite <- !app_assoc.
Qed.

(** Navigation, whatever it meets, leaves the retry counts alone. *)
Lemma navigateFrom_retries (env : @Env PluginDetails Payload) (url : string)
    (remaining : nat) : ∀ attempt w,
  rateLimitRetries (navigateFrom url attempt remaining env w).2
  = rateLimitRetries w.
Proof.
  induction remaining as [|remaining IH]; intros attempt w;
    cbn [navigateFrom]; unfold mbind at 1, M_bind, bind, goto;
    destruct (navigate env (gotos w) url) as [| |m]; try done.
  unfold mbind at 1, M_bind, bind, rnd.
  unfold mbind at 1, M_bind, bind, sleep.
  by rewrite IH.
Qed.

(** The recursion through [handleRateLimit] is bounded: a call that
    starts at retry count [c] returns once it has fuel for [4 - c]
    calls, whatever the site answers. *)
Lemma auditSingleUrl_total (cfg : Config) (env : @Env PluginDetails Payload)
    (cr : CrawlResult.t) : ∀ fuel opts w,
  (3 - default 0 (rateLimitRetries w !! CrawlResult.url cr) < fuel)%nat →
  ∃ r w', auditSingleUrl cfg fuel cr opts env w = (Some r, w').
Proof.
  induction fuel as [|fuel IH]; intros opts w Hfuel; [lia|].
  rewrite auditSingleUrl_unfold. cbv zeta.
  rewrite applyRateLimit_run.
  set (w1 := {| rateLimitRetries := rateLimitRetries w;
                requestCount := requestCount w; gotos := gotos w;
                draws := (draws w + pacingDraws w)%nat;
                trace := trace w ++ pacingEvents env w |}).
  pose proof (navigateFrom_retries env (CrawlResult.url cr) (retries cfg) 0 w1)
    as Hkeep.
  unfold navigateWithRetry.
  destruct (navigateFrom _ 0 (retries cfg) env w1) as [[status txt| |m] w2];
    [|by eauto|by eauto].
  simpl in Hkeep.
  case_bool_decide; [|case_bool_decide; [by eauto|]].
  - unfold handleRateLimit, mbind, M_bind, bind, getRetries, setRetries, rnd,
      sleep, mret, M_ret, ret.
    case_bool_decide as Hcap; [by eauto|].
    apply IH. cbn [rateLimitRetries]. rewrite lookup_insert_eq. simpl.
    rewrite Hkeep in Hcap |- *. lia.
  - destruct (sleep _ _ env w2) as [[] w3].
    destruct ((if humanSimulation cfg then simulateHumanBehavior else mret ())
                env w3) as [[] w4].
    destruct (runAuditors _ _ _ env w4) as [rs w5]. by eauto.
Qed.

Lemma navigationsOf_pacing (env : @Env PluginDetails Payload) (w : World) :
  navigationsOf (pacingEvents env w) = [].
Proof. unfold pacingEvents. by destruct (coolsDown w). Qed.

Lemma backoffsOf_pacing (env : @Env PluginDetails Payload) (w : World) :
  backoffsOf (pacingEvents env w) = [].
Proof. unfold pacingEvents. by destruct (coolsDown w). Qed.

Lemma navigationsOf_app (a b : list Event) :
  navigationsOf (a ++ b) = navigationsOf a ++ navigationsOf b.
Proof. apply omap_app. Qed.

Lemma backoffsOf_app (a b : list Event) :
  backoffsOf (a ++ b) = backoffsOf a ++ backoffsOf b.
Proof. apply omap_app. Qed.

(** C3. A URL whose every navigation attempt is answered with 429,
    audited from a retry count of 0 with fuel for the call and its three
    retries: the audit ends with the terminal failed result (success
    false, statusCode 429, the rate-limit-exceeded error); it navigates
    four times in all, the first attempt and exactly three retries; retry
    [n] (n = 0, 1, 2 retries made before it) is delayed by
    [min(rateLimitDelay * 2^n, maxRetryDelay)] plus a random jitter of
    [Math.random() * 10000]; the URL's retry count ends at 3; and a 429
    handled at a count of 3 or more returns the terminal result without
    navigating, sleeping or counting again. *)
Theorem rate_limit_three_retries_then_terminal (cfg : Config)
    (env : @Env PluginDetails Payload) (fuel : nat) (cr : CrawlResult.t)
    (opts : Options) (w : World) :
  let url := CrawlResult.url cr in
  (∀ n, ∃ txt, navigate env n url = Response 429 txt) →
  default 0%nat (rateLimitRetries w !! url) = 0%nat →
  (4 ≤ fuel)%nat →
  let r := rateLimitExceeded (PluginDetails := PluginDetails)
             (Payload := Payload) url in
  AuditResult.success r = false
  ∧ AuditResult.statusCode r = 429
  ∧ AuditResult.error r = Some "Rate limit exceeded - maximum retries reached"
  ∧ (∃ w' added k0 k1 k2,
       auditSingleUrl cfg fuel cr opts env w = (Some r, w')
       ∧ trace w' = trace w ++ added
       ∧ navigationsOf added = [url; url; url; url]
       ∧ backoffsOf added
         = [ (inject_Z (Z.min (rateLimitDelay cfg * 2 ^ 0) (maxRetryDelay cfg))
              + random env k0 * 10000)%Q;
             (inject_Z (Z.min (rateLimitDelay cfg * 2 ^ 1) (maxRetryDelay cfg))
              + random env k1 * 10000)%Q;
             (inject_Z (Z.min (rateLimitDelay cfg * 2 ^ 2) (maxRetryDelay cfg))
              + random env k2 * 10000)%Q ]
       ∧ rateLimitRetries w' !! url = Some 3%nat)
  ∧ (∀ again w0,
       (3 ≤ default 0%nat (rateLimitRetries w0 !! url))%nat →
       handleRateLimit cfg again cr env w0 = (Some r, w0)).
Proof.
  intros url Hnav Hzero Hfuel r.
  split; [done|]. split; [done|]. split; [done|]. split.
  - destruct fuel as [|[|[|[|fuel]]]]; try lia.
    set (w1 := backedOff cfg env url 0 w).
    set (w2 := backedOff cfg env url 1 w1).
    set (w3 := backedOff cfg env url 2 w2).
    destruct (Hnav (gotos w)) as [t0 H0].
    destruct (Hnav (gotos w1)) as [t1 H1].
    destruct (Hnav (gotos w2)) as [t2 H2].
    destruct (Hnav (gotos w3)) as [t3 H3].
    exists (navigated env url w3). eexists.
    exists (draws (navigated env url w)), (draws (navigated env url w1)),
           (draws (navigated env url w2)).
    split.
    { rewrite (rate_limited_round cfg env _ cr opts w t0 0 H0 Hzero)
        by lia.
      fold url. fold w1.
      rewrite (rate_limited_round cfg env _ cr noOptions w1 t1 1 H1)
        by (try lia; subst w1; simpl; by rewrite lookup_insert_eq).
      fold url. fold w2.
      rewrite (rate_limited_round cfg env _ cr noOptions w2 t2 2 H2)
        by (try lia; subst w2; simpl; by rewrite lookup_insert_eq).
      fold url. fold w3.
      apply (rate_limited_final cfg env _ cr noOptions w3 t3 H3).
      subst w3. simpl. by rewrite lookup_insert_eq. }
    split.
    { subst w3 w2 w1. unfold backedOff, navigated.
      cbn [rateLimitRetries requestCount gotos draws trace].
      rewrite <- !app_assoc. reflexivity. }
    split.
    { rewrite !navigationsOf_app, !navigationsOf_pacing. reflexivity. }
    split.
    { rewrite !backoffsOf_app, !backoffsOf_pacing. reflexivity. }
    subst w3. simpl. by rewrite lookup_insert_eq.
  - intros again w0 Hcap.
    unfold handleRateLimit, mbind, M_bind, bind, getRetries, mret, M_ret, ret.
    fold url. by rewrite bool_decide_eq_true_2.
Qed.

End Dispatch.

Section DispatchWitness.
Import AuditEngine.

Lemma rate_limit_three_retries_then_terminal_witness :
  let cfg :=
    {| timeout := 90000; retries := 3; pageLoadDelay := 12000;
       humanSimulation := true; includePerformance := false;
       includeAccessibility := false; rateLimitDelay := 30000;
       maxRetryDelay := 120000; includeVisualRegression := true;
       includeStructureComparison := true |} in
  let env : @Env unit unit :=
    {| navigate := λ _ _, Response 429 "Too Many Requests";
       random := λ _, (1 # 2)%Q;
       plugins := λ _ _, Hangs |} in
  let w :=
    {| rateLimitRetries := ∅; requestCount := 0; gotos := 0; draws := 0;
       trace := [] |} in
  let cr :=
    {| CrawlResult.url := "https://example.test/pricing";
       CrawlResult.discovered := true; CrawlResult.depth := 1;
       CrawlResult.source := "discovered" |} in
  (∀ n, ∃ txt, navigate env n (CrawlResult.url cr) = Response 429 txt)
  ∧ default 0%nat (rateLimitRetries w !! CrawlResult.url cr) = 0%nat
  ∧ (4 ≤ 4)%nat
  ∧ ∃ w', auditSingleUrl cfg 4 cr noOptions env w
          = (Some (rateLimitExceeded (CrawlResult.url cr)), w')
          ∧ rateLimitRetries w' !! CrawlResult.url cr = Some 3%nat.
Proof.
  intros cfg env w cr.
  assert (Hnav : ∀ n, ∃ txt,
            navigate env n (CrawlResult.url cr) = Response 429 txt)
    by (intros n; by eexists).
  assert (Hzero : default 0%nat (rateLimitRetries w !! CrawlResult.url cr)
                  = 0%nat) by done.
  split; [exact Hnav|]. split; [exact Hzero|]. split; [lia|].
  destruct (rate_limit_three_retries_then_terminal cfg env 4 cr noOptions w
              Hnav Hzero (le_n 4))
    as (_ & _ & _ & (w' & added & k0 & k1 & k2 & Hrun & _ & _ & _ & Hcount)
        & _).
  exists w'. split; [exact Hrun|exact Hcount].
Defined.

End DispatchWitness.

(** *** Compilation, plugin by plugin *)

Section Compilation.
Import BaseAuditor AuditEngine Positional.
Context {PluginDetails Payload : Type}.


Lemma compileOne_fields (url : string) (s : Settled PluginDetails Payload)
    (i : nat) (c : Compiled PluginDetails Payload) :
  issues (compileOne url s i c) = issues c ++ issuesOf url s i
  ∧ warnings (compileOne url s i c) = warnings c ++ warningsOf s i
  ∧ recommendations (compileOne url s i c)
    = recommendations c ++ recommendationsOf s i.
Proof.
  destruct s as [[n [] r e]|reason]; simpl; unfold JS.push;
    rewrite ?app_nil_r; done.
Qed.

Lemma compile_fields (url : string)
    (es : list (Settled PluginDetails Payload)) : ∀ k c,
  let c' := JS.forEachFrom (compileOne url) k es c in
  issues c' = issues c ++ flatMapFrom (issuesOf url) k es
  ∧ warnings c' = warnings c ++ flatMapFrom warningsOf k es
  ∧ recommendations c'
    = recommendations c ++ flatMapFrom recommendationsOf k es.
Proof.
  induction es as [|s es IH]; intros k c; simpl.
  - by rewrite !app_nil_r.
  - destruct (IH (S k) (compileOne url s k c)) as (E1 & E2 & E3).
    destruct (compileOne_fields url s k c) as (F1 & F2 & F3).
    rewrite E1, E2, E3, F1, F2, F3, <- !app_assoc. done.
Qed.





(** *** The registry *)

Lemma runAuditors_settles (cfg : Config) (url : string)
    (env : @Env PluginDetails Payload) (w : World) (names : list string) :
  runAuditors cfg url names env w
  = (settle cfg (map (λ n, (n, plugins env n url)) names), w).
Proof.
  induction names as [|n names IH]; [done|].
  cbn [runAuditors]. unfold mbind at 1, M_bind, bind, pluginOf.
  unfold mbind at 1, M_bind, bind. by rewrite IH.
Qed.

Lemma runAuditorWithTimeout_name (cfg : Config) (n : string)
    (b : Behaviour PluginDetails Payload) :
  name (runAuditorWithTimeout cfg n b) = n.
Proof.
  unfold runAuditorWithTimeout. destruct b; repeat case_bool_decide; done.
Qed.

Lemma initializeAuditors_names (cfg : Config) (n : string) :
  n ∈ initializeAuditors cfg →
  n ∈ coreAuditors ++ ["performance"; "accessibility"].
Proof.
  unfold initializeAuditors.
  rewrite !elem_of_app.
  destruct (includePerformance cfg), (includeAccessibility cfg);
    rewrite ?elem_of_cons, ?elem_of_nil; tauto.
Qed.

(** C2 (what the code does). Whatever the configuration and the options
    say about structure comparison and visual regression, neither
    detector is in the registry, [shouldRunAuditor] refuses both names,
    no settled entry of a page carries either name, and a compiled
    AuditResult has no finding under either key. *)
Theorem detectors_are_never_dispatched (cfg : Config) (opts : Options)
    (env : @Env PluginDetails Payload) (w : World) (url : string) :
  Forall
    (λ detector,
       (detector ∉ initializeAuditors cfg)
       ∧ shouldRunAuditor cfg detector opts = false
       ∧ (detector ∉ enabledAuditors cfg opts)
       ∧ (∀ value,
            Fulfilled value
              ∈ (runAuditors cfg url (enabledAuditors cfg opts) env w).1 →
            name value ≠ detector)
       ∧ (∀ r : Result (PluginDetails := PluginDetails) (Payload := Payload),
            AuditResult.findingOf r detector = None))
    ["htmlStructure"; "visualRegression"].
Proof.
  assert (Hreg : ∀ d, d = "htmlStructure" ∨ d = "visualRegression" →
                      d ∉ initializeAuditors cfg).
  { intros d Hd Hin. apply initializeAuditors_names in Hin.
    destruct Hd as [-> | ->]; simpl in Hin;
      rewrite !elem_of_cons, elem_of_nil in Hin;
      intuition discriminate. }
  assert (Hen : ∀ d, d = "htmlStructure" ∨ d = "visualRegression" →
                     d ∉ enabledAuditors cfg opts).
  { intros d Hd Hin. apply (Hreg d Hd). unfold enabledAuditors in Hin.
    apply list_elem_of_In, filter_In in Hin as [Hin _].
    by apply list_elem_of_In. }
  assert (Hrun : ∀ d, d = "htmlStructure" ∨ d = "visualRegression" →
            ∀ value,
              Fulfilled value
                ∈ (runAuditors cfg url (enabledAuditors cfg opts) env w).1 →
              name value ≠ d).
  { intros d Hd value Hv Hname. rewrite runAuditors_settles in Hv.
    unfold settle in Hv. cbn [fst] in Hv. rewrite map_map in Hv.
    apply list_elem_of_In, in_map_iff in Hv as (n & Hvalue & Hn).
    injection Hvalue as <-. cbn [fst snd] in Hname.
    rewrite runAuditorWithTimeout_name in Hname. subst n.
    apply (Hen d Hd). by apply list_elem_of_In. }
  repeat constructor; auto.
Qed.

End Compilation.

Section CompilationWitness.
Import BaseAuditor AuditEngine Positional.


End CompilationWitness.

(** ** Crawl frontier *)

Section Frontier.
Import CrawlerEngine.

Lemma add_grows (s : list string) (x : string) : s `prefix_of` add s x.
Proof. unfold add. destruct (has s x); [done|]. by apply prefix_app_r. Qed.

Lemma considerLink_grows cfg env url depth st link :
  discoveredUrls st
    `prefix_of` discoveredUrls (considerLink cfg env url depth st link).
Proof.
  unfold considerLink. destruct (shouldIncludeUrl _ _); [|done].
  destruct (resolve _ _ _); [|done].
  destruct (negb _); [|done]. apply add_grows.
Qed.

(** The discovered set only grows while a page is crawled. *)
Lemma crawlPage_grows cfg env url depth st :
  discoveredUrls st `prefix_of` discoveredUrls (crawlPage cfg env url depth st).
Proof.
  unfold crawlPage. destruct (pageLinks env url) as [links|]; [|done].
  apply (fold_left_inv
           (λ s, discoveredUrls st `prefix_of` discoveredUrls s)); [done|].
  intros a x _ Ha. etransitivity; [exact Ha|apply considerLink_grows].
Qed.

(** C1 (what the code does). With [maxUrls = 2], a landing page that
    links to three same-site pages: the loop guard lets the landing page
    be crawled, because one URL is discovered so far, and crawling it adds
    all three links; the run ends with four discovered URLs and returns
    four results. *)
Theorem discoverUrls_exceeds_maxUrls :
  let cfg := {| maxDepth := 3; maxUrls := 2 |} in
  ∃ results st,
    discoverUrls cfg shop 1 "https://shop.test/" fresh = Some (results, st)
    ∧ length results = 4%nat
    ∧ discoveredUrls st
      = ["https://shop.test/"; "https://shop.test/a"; "https://shop.test/b";
         "https://shop.test/c"]
    ∧ ¬ (Z.of_nat (length (discoveredUrls st)) ≤ maxUrls cfg)
    ∧ discoveredUrls
        (crawlPage cfg shop "https://shop.test/" 0
           {| queue := []; discoveredUrls := ["https://shop.test/"];
              visitedUrls := []; failedUrls := [] |})
      = discoveredUrls st.
Proof.
  intros cfg. eexists _, _. split; [vm_compute; reflexivity|].
  split; [reflexivity|]. split; [reflexivity|].
  split; [simpl; lia|]. vm_compute. reflexivity.
Qed.

End Frontier.

(* ===================================================================== *)
(** * Part III: further properties of the code                            *)
(* ===================================================================== *)

(** ** Crawl frontier: what a crawl keeps *)

Section FrontierInvariants.
Import CrawlerEngine.

Lemma has_true (s : list string) (x : string) : has s x = true ↔ x ∈ s.
Proof. unfold has. by rewrite bool_decide_eq_true. Qed.

Lemma elem_of_add (s : list string) (x y : string) :
  y ∈ add s x ↔ y ∈ s ∨ y = x.
Proof.
  unfold add. destruct (has s x) eqn:E.
  - apply has_true in E. split; [by left|]. by intros [?| ->].
  - rewrite elem_of_app, list_elem_of_singleton. done.
Qed.

Lemma length_add (s : list string) (x : string) :
  length (add s x) = if has s x then length s else S (length s).
Proof.
  unfold add. destruct (has s x); [done|]. rewrite length_app. simpl. lia.
Qed.

(** What one link does to the frontier. *)
Lemma considerLink_effect cfg env url depth st link :
  let st' := considerLink cfg env url depth st link in
  visitedUrls st' = visitedUrls st
  ∧ failedUrls st' = failedUrls st
  ∧ ((st' = st)
     ∨ ∃ resolved,
         resolve env (href link) url = Some resolved
         ∧ (resolved ∉ discoveredUrls st)
         ∧ includes env resolved = true
         ∧ discoveredUrls st' = discoveredUrls st ++ [resolved]
         ∧ queue st'
           = queue st
             ++ (if bool_decide (depth < maxDepth cfg)
                 then [(resolved, depth + 1)] else [])).
Proof.
  cbv zeta. unfold considerLink, shouldIncludeUrl.
  destruct (resolve env (href link) url) as [resolved|] eqn:Hres;
    [|by auto].
  case_bool_decide; [by auto|].
  destruct (includes env resolved) eqn:Hinc; [|by auto].
  destruct (has (discoveredUrls st) resolved) eqn:Hhas; simpl; [by auto|].
  split; [done|]. split; [done|]. right. exists resolved.
  assert (resolved ∉ discoveredUrls st).
  { intros Hin. apply has_true in Hin. congruence. }
  unfold add. rewrite Hhas. repeat split; try done.
  case_bool_decide; [done|]. by rewrite app_nil_r.
Qed.

Lemma crawlPage_appends (cfg : Config) (env : Env) (url : string)
    (depth : Z) (st : State) :
  let st' := crawlPage cfg env url depth st in
  ∃ fresh_urls : list string,
    discoveredUrls st' = discoveredUrls st ++ fresh_urls
    ∧ (length fresh_urls ≤ length (default [] (pageLinks env url)))%nat
    ∧ Forall (λ u, (u ∉ discoveredUrls st) ∧ includes env u = true)
        fresh_urls
    ∧ NoDup fresh_urls
    ∧ queue st'
      = queue st
        ++ (if bool_decide (depth < maxDepth cfg)
            then map (λ u, (u, depth + 1)) fresh_urls else []).
Proof.
  unfold crawlPage.
  destruct (pageLinks env url) as [links|]; simpl.
  2:{ exists []. rewrite !app_nil_r. repeat split; try done;
        try constructor.
      case_bool_decide; simpl; by rewrite app_nil_r. }
  set (st0 := {| queue := queue st; discoveredUrls := discoveredUrls st;
                 visitedUrls := add (visitedUrls st) url;
                 failedUrls := failedUrls st |}).
  change (discoveredUrls st) with (discoveredUrls st0).
  change (queue st) with (queue st0). clearbody st0.
  revert st0. induction links as [|link links IH]; intros st0; simpl.
  { exists []. rewrite !app_nil_r. repeat split; try done; try constructor.
    case_bool_decide; simpl; by rewrite app_nil_r. }
  destruct (considerLink_effect cfg env url depth st0 link)
    as (_ & _ & [Heq | (r & _ & Hnew & Hinc & Hd & Hq)]).
  - rewrite Heq. destruct (IH st0) as (fr & E1 & E2 & E3 & E4 & E5).
    exists fr. repeat split; try done. lia.
  - destruct (IH (considerLink cfg env url depth st0 link))
      as (fr & E1 & E2 & E3 & E4 & E5).
    exists (r :: fr). rewrite E1, E5, Hd, Hq, <- !app_assoc. simpl.
    split; [done|]. split; [lia|]. split; [|split].
    + constructor; [done|].
      eapply Forall_impl; [exact E3|]. intros u [Hu ?]. split; [|done].
      intros Hin. apply Hu. rewrite Hd. apply elem_of_app. by left.
    + constructor; [|done]. intros Hin.
      eapply Forall_forall in E3 as [Hu _]; [|exact Hin].
      apply Hu. rewrite Hd. apply elem_of_app. right. by left.
    + by case_bool_decide.
Qed.

Lemma crawlPage_sets (cfg : Config) (env : Env) (url : string) (depth : Z)
    (st : State) :
  let st' := crawlPage cfg env url depth st in
  visitedUrls st' = add (visitedUrls st) url
  ∧ (failedUrls st' = failedUrls st
     ∨ failedUrls st' = add (failedUrls st) url).
Proof.
  unfold crawlPage. destruct (pageLinks env url) as [links|]; simpl;
    [|by auto].
  set (st0 := {| queue := queue st; discoveredUrls := discoveredUrls st;
                 visitedUrls := add (visitedUrls st) url;
                 failedUrls := failedUrls st |}).
  change (add (visitedUrls st) url) with (visitedUrls st0).
  change (failedUrls st) with (failedUrls st0). clearbody st0.
  revert st0. induction links as [|link links IH]; intros st0; simpl;
    [by auto|].
  destruct (considerLink_effect cfg env url depth st0 link) as (Ev & Ef & _).
  destruct (IH (considerLink cfg env url depth st0 link)) as [E1 E2].
  rewrite Ev in E1. rewrite Ef in E2. done.
Qed.

(** X1. Crawling a page at [depth] only appends to the queue, and only
    tasks for URLs it has just discovered, each at [depth + 1], and none
    unless [depth < maxDepth]; the discovered set grows by exactly the
    URLs that were new and included, at most one per link of the page. *)
Theorem crawlPage_enqueues_children (cfg : Config) (env : Env) (url : string)
    (depth : Z) (st : State) :
  let st' := crawlPage cfg env url depth st in
  ∃ fresh_urls : list string,
    discoveredUrls st' = discoveredUrls st ++ fresh_urls
    ∧ (length fresh_urls ≤ length (default [] (pageLinks env url)))%nat
    ∧ Forall (λ u, (u ∉ discoveredUrls st) ∧ includes env u = true)
        fresh_urls
    ∧ queue st'
      = queue st
        ++ (if bool_decide (depth < maxDepth cfg)
            then map (λ u, (u, depth + 1)) fresh_urls else [])
    ∧ Forall (λ task, task.2 = depth + 1 ∧ task.2 ≤ maxDepth cfg)
        (drop (length (queue st)) (queue st')).
Proof.
  destruct (crawlPage_appends cfg env url depth st)
    as (fr & E1 & E2 & E3 & _ & E5).
  exists fr. split; [done|]. split; [done|]. split; [done|].
  split; [done|]. rewrite E5, drop_app_length.
  case_bool_decide; [|constructor].
  apply Forall_forall. intros task Hin.
  apply list_elem_of_In, in_map_iff in Hin as (u & <- & _). simpl. lia.
Qed.

(** An invariant of the loop: kept when a task is skipped, and kept when
    a task that passes both guards is crawled. *)
Lemma crawlLoop_invariant (cfg : Config) (env : Env) (P : State → Prop) :
  (∀ st url depth rest,
     queue st = (url, depth) :: rest → P st → P (Frontier.popped st)) →
  (∀ st url depth rest,
     queue st = (url, depth) :: rest → P st →
     Z.of_nat (length (discoveredUrls st)) < maxUrls cfg →
     url ∉ visitedUrls st → depth ≤ maxDepth cfg →
     P (crawlPage cfg env url depth (Frontier.popped st))) →
  ∀ fuel st st', P st → crawlLoop cfg env fuel st = Some st' → P st'.
Proof.
  intros Hskip Hcrawl. induction fuel as [|fuel IH]; intros st st' HP Hrun.
  - simpl in Hrun. destruct (queue st) as [|[url depth] rest]; [congruence|].
    destruct (negb _); congruence.
  - simpl in Hrun.
    destruct (queue st) as [|[url depth] rest] eqn:Hq; [congruence|].
    destruct (bool_decide (Z.of_nat (length (discoveredUrls st)) < maxUrls cfg))
      eqn:Hcap; simpl in Hrun; [|congruence].
    apply bool_decide_eq_true in Hcap.
    assert (Hpop : {| queue := rest; discoveredUrls := discoveredUrls st;
                      visitedUrls := visitedUrls st;
                      failedUrls := failedUrls st |} = Frontier.popped st).
    { unfold Frontier.popped. by rewrite Hq. }
    rewrite Hpop in Hrun.
    destruct (has (visitedUrls st) url) eqn:Hvis; simpl in Hrun.
    { eapply IH; [|exact Hrun]. by eapply Hskip. }
    case_bool_decide as Hdepth.
    { eapply IH; [|exact Hrun]. by eapply Hskip. }
    eapply IH; [|exact Hrun]. eapply Hcrawl; try done; try lia.
    intros Hin. apply has_true in Hin. congruence.
Qed.

(** X2. A crawl keeps the frontier closed: if every queued and visited
    URL is a discovered one and every failed URL a visited one before
    [discoverUrls], the same holds after it; what was discovered before
    is still there, in the same order, and the results are the discovered
    URLs in discovery order. *)
Theorem discoverUrls_keeps_frontier_closed (cfg : Config) (env : Env)
    (fuel : nat) (start : string) (st st' : State)
    (results : list CrawlResult.t) :
  Frontier.closed st →
  discoverUrls cfg env fuel start st = Some (results, st') →
  Frontier.closed st'
  ∧ discoveredUrls st `prefix_of` discoveredUrls st'
  ∧ start ∈ discoveredUrls st'
  ∧ map CrawlResult.url results = discoveredUrls st'.
Proof.
  intros Hclosed Hrun. unfold discoverUrls in Hrun.
  set (st1 := {| queue := queue st ++ [(start, 0)];
                 discoveredUrls := add (discoveredUrls st) start;
                 visitedUrls := visitedUrls st;
                 failedUrls := failedUrls st |}) in Hrun.
  destruct (crawlLoop cfg env fuel st1) as [st2|] eqn:Hloop; [|done].
  injection Hrun as <- <-.
  set (P := λ s : State,
         Frontier.closed s
         ∧ discoveredUrls st1 `prefix_of` discoveredUrls s).
  assert (HP1 : P st1).
  { split; [|done]. destruct Hclosed as (Hq & Hv & Hf).
    split; [|split].
    - intros u d [Hin|Hin]%elem_of_app; apply elem_of_add.
      + left. by eapply Hq.
      + apply list_elem_of_singleton in Hin. injection Hin as -> _.
        by right.
    - intros u Hu. apply elem_of_add. left. by apply Hv.
    - exact Hf. }
  assert (HP2 : P st2).
  { eapply (crawlLoop_invariant cfg env P); [| |exact HP1|exact Hloop].
    - intros s url depth rest Hq [(Hcq & Hcv & Hcf) Hpre]. split; [|done].
      split; [|done]. intros u d Hin. apply (Hcq u d).
      rewrite Hq. right. unfold Frontier.popped in Hin. simpl in Hin.
      by rewrite Hq in Hin.
    - intros s url depth rest Hq [(Hcq & Hcv & Hcf) Hpre] _ _ _.
      destruct (crawlPage_appends cfg env url depth (Frontier.popped s))
        as (fr & E1 & _ & _ & _ & E5).
      destruct (crawlPage_sets cfg env url depth (Frontier.popped s))
        as (Ev & Ef).
      simpl in E1, E5, Ev, Ef. split.
      + split; [|split].
        * intros u d. rewrite E5, E1, !elem_of_app. intros [Hin|Hin].
          -- left. apply (Hcq u d). rewrite Hq. right.
             by rewrite Hq in Hin.
          -- right. case_bool_decide; [|by apply elem_of_nil in Hin].
             apply list_elem_of_In, in_map_iff in Hin as (x & Hx & Hin).
             injection Hx as -> _. by apply list_elem_of_In.
        * intros u. rewrite Ev, E1, elem_of_add, elem_of_app.
          intros [Hu| ->]; left; [by apply Hcv|].
          apply (Hcq url depth). rewrite Hq. by left.
        * intros u Hu. rewrite Ev. apply elem_of_add.
          destruct Ef as [Ef|Ef]; rewrite Ef in Hu.
          -- left. by apply Hcf.
          -- apply elem_of_add in Hu as [Hu| ->]; [left; by apply Hcf|].
             by right.
      + etransitivity; [exact Hpre|]. rewrite E1. by apply prefix_app_r. }
  destruct HP2 as [Hc2 Hpre2]. split; [done|]. split; [|split].
  - etransitivity; [|exact Hpre2]. apply add_grows.
  - destruct Hpre2 as [k ->]. apply elem_of_app. left.
    apply elem_of_add. by right.
  - by rewrite map_map, map_id.
Qed.

Lemma discoverUrls_keeps_frontier_closed_witness :
  let cfg := {| maxDepth := 3; maxUrls := 50 |} in
  let start := "https://shop.test/" in
  Frontier.closed fresh
  ∧ ∃ results st',
      discoverUrls cfg shop 10 start fresh = Some (results, st')
      ∧ Frontier.closed st'
      ∧ start ∈ discoveredUrls st'
      ∧ map CrawlResult.url results = discoveredUrls st'.
Proof.
  intros cfg start.
  assert (Hfresh : Frontier.closed fresh).
  { repeat split; intros u; intros; by apply elem_of_nil in H. }
  split; [exact Hfresh|].
  destruct (discoverUrls cfg shop 10 start fresh) as [[results st']|] eqn:Hrun;
    [|vm_compute in Hrun; discriminate].
  exists results, st'. split; [reflexivity|].
  destruct (discoverUrls_keeps_frontier_closed cfg shop 10 start fresh st'
              results Hfresh Hrun) as (Hc & _ & Hs & Hm).
  exact (conj Hc (conj Hs Hm)).
Defined.

Lemma crawlLoop_terminates (cfg : Config) (env : Env) (perPage bound : nat) :
  (∀ url, (length (default [] (pageLinks env url)) ≤ perPage)%nat) →
  (Z.to_nat (maxUrls cfg - 1) + perPage ≤ bound)%nat →
  ∀ fuel st,
    (length (discoveredUrls st) ≤ bound)%nat →
    (length (queue st) + (bound - length (discoveredUrls st)) ≤ fuel)%nat →
    ∃ st', crawlLoop cfg env fuel st = Some st'
           ∧ (length (discoveredUrls st') ≤ bound)%nat
           ∧ (queue st' = []
              ∨ maxUrls cfg ≤ Z.of_nat (length (discoveredUrls st'))).
Proof.
  intros Hpage Hbound.
  assert (Hstop : ∀ fuel st,
            (length (discoveredUrls st) ≤ bound)%nat →
            (queue st = []
             ∨ maxUrls cfg ≤ Z.of_nat (length (discoveredUrls st))) →
            ∃ st', crawlLoop cfg env fuel st = Some st'
                   ∧ (length (discoveredUrls st') ≤ bound)%nat
                   ∧ (queue st' = []
                      ∨ maxUrls cfg ≤ Z.of_nat (length (discoveredUrls st')))).
  { intros fuel st Hb Hs. exists st. split; [|done].
    destruct fuel; simpl; destruct (queue st) as [|[u d] r] eqn:Hq; try done;
      destruct Hs as [Hs|Hs]; try done;
      by rewrite bool_decide_eq_false_2 by lia. }
  induction fuel as [|fuel IH]; intros st Hb Hfuel.
  - apply Hstop; [done|]. left.
    destruct (queue st); [done|simpl in Hfuel; lia].
  - destruct (queue st) as [|[url depth] rest] eqn:Hq.
    { apply Hstop; auto. }
    destruct (decide (Z.of_nat (length (discoveredUrls st)) < maxUrls cfg))
      as [Hcap|Hcap]; [|apply Hstop; [done|right; lia]].
    simpl. rewrite Hq. rewrite (bool_decide_eq_true_2 _ Hcap). simpl.
    simpl in Hfuel.
    destruct (has (visitedUrls st) url || bool_decide (depth > maxDepth cfg)).
    { apply IH; simpl; lia. }
    set (st0 := {| queue := rest; discoveredUrls := discoveredUrls st;
                   visitedUrls := visitedUrls st;
                   failedUrls := failedUrls st |}).
    destruct (crawlPage_appends cfg env url depth st0)
      as (fr & E1 & Hlen & _ & _ & E5).
    simpl in E1, E5. specialize (Hpage url).
    assert (Hq' : (length (queue (crawlPage cfg env url depth st0))
                   ≤ length rest + length fr)%nat).
    { rewrite E5, length_app. case_bool_decide; simpl;
        [rewrite length_map|]; lia. }
    apply IH; rewrite E1, length_app; lia.
Qed.

(** X3. A crawl ends, and overshoots [maxUrls] by at most one page of
    links: when no page has more than [perPage] links, enough loop
    iterations for every queued task and every URL still to be discovered
    make [discoverUrls] return; it returns at most
    [max (already + 1) (maxUrls - 1 + perPage)] results, and stops either
    with an empty queue or with [maxUrls] or more URLs discovered. *)
Theorem discoverUrls_returns_within_reach (cfg : Config) (env : Env)
    (perPage fuel : nat) (start : string) (st : State) :
  let bound :=
    Frontier.reach cfg perPage (S (length (discoveredUrls st))) in
  (∀ url, (length (default [] (pageLinks env url)) ≤ perPage)%nat) →
  (length (queue st) + 1 + bound ≤ fuel)%nat →
  ∃ results st',
    discoverUrls cfg env fuel start st = Some (results, st')
    ∧ (length results ≤ bound)%nat
    ∧ (queue st' = [] ∨ maxUrls cfg ≤ Z.of_nat (length results)).
Proof.
  intros bound Hpage Hfuel. unfold discoverUrls.
  set (st1 := {| queue := queue st ++ [(start, 0)];
                 discoveredUrls := add (discoveredUrls st) start;
                 visitedUrls := visitedUrls st;
                 failedUrls := failedUrls st |}).
  assert (Hadd : (length (discoveredUrls st1)
                  ≤ S (length (discoveredUrls st)))%nat).
  { simpl. unfold add. destruct (has _ _); [lia|].
    rewrite length_app. simpl. lia. }
  destruct (crawlLoop_terminates cfg env perPage bound Hpage) with
    (fuel := fuel) (st := st1) as (st2 & -> & Hb & Hend).
  - unfold bound, Frontier.reach. lia.
  - unfold bound, Frontier.reach in *. lia.
  - simpl queue. rewrite length_app. simpl. lia.
  - eexists _, _. split; [reflexivity|]. rewrite length_map. done.
Qed.

Lemma discoverUrls_returns_within_reach_witness :
  let cfg := {| maxDepth := 3; maxUrls := 2 |} in
  (∀ url, (length (default [] (pageLinks shop url)) ≤ 3)%nat)
  ∧ ∃ results st',
      discoverUrls cfg shop 5 "https://shop.test/" fresh
      = Some (results, st')
      ∧ (length results ≤ 4)%nat
      ∧ (queue st' = [] ∨ maxUrls cfg ≤ Z.of_nat (length results)).
Proof.
  intros cfg.
  assert (Hpage : ∀ url, (length (default [] (pageLinks shop url)) ≤ 3)%nat).
  { intros url. simpl. case_bool_decide; simpl; lia. }
  split; [exact Hpage|].
  apply (discoverUrls_returns_within_reach cfg shop 3 5 "https://shop.test/"
           fresh Hpage).
  unfold Frontier.reach. simpl. lia.
Defined.

Lemma add_NoDup (s : list string) (x : string) : NoDup s → NoDup (add s x).
Proof.
  intros Hs. unfold add. destruct (has s x) eqn:E; [done|].
  apply NoDup_app. split; [done|]. split; [|apply NoDup_singleton].
  intros y Hy ->%list_elem_of_singleton. apply has_true in Hy. congruence.
Qed.

Lemma landing_page_count (env : Env) (start : string) (urls : list string) :
  NoDup urls →
  length (filter (λ r, CrawlResult.source r = "landing-page")
            (map (λ url,
                    {| CrawlResult.url := url;
                       CrawlResult.discovered := true;
                       CrawlResult.depth := getUrlDepth env url;
                       CrawlResult.source := getUrlSource url start |})
               urls))
  = if decide (start ∈ urls) then 1%nat else 0%nat.
Proof.
  induction 1 as [|u urls Hu Hnd IH]; [done|]. simpl map.
  destruct (decide (u = start)) as [->|Hne].
  - rewrite filter_cons_True
      by (simpl; unfold getUrlSource; by rewrite bool_decide_eq_true_2).
    simpl. rewrite IH. rewrite (decide_True (P := start ∈ start :: urls))
      by (by left).
    by rewrite decide_False.
  - rewrite filter_cons_False
      by (simpl; unfold getUrlSource; by rewrite bool_decide_eq_false_2).
    rewrite IH. destruct (decide (start ∈ urls)) as [Hin|Hin].
    + rewrite decide_True; [done|by right].
    + rewrite decide_False; [done|].
      intros [?|?]%elem_of_cons; congruence.
Qed.

(** X4. The results of a crawl name each URL once: when the discovered
    URLs are pairwise distinct before [discoverUrls], the returned results
    have pairwise distinct URLs, and exactly one of them has the source
    landing-page. *)
Theorem discoverUrls_results_distinct (cfg : Config) (env : Env)
    (fuel : nat) (start : string) (st st' : State)
    (results : list CrawlResult.t) :
  NoDup (discoveredUrls st) →
  discoverUrls cfg env fuel start st = Some (results, st') →
  NoDup (map CrawlResult.url results)
  ∧ length (filter (λ r, CrawlResult.source r = "landing-page") results)
    = 1%nat.
Proof.
  intros Hnd Hrun. unfold discoverUrls in Hrun.
  set (st1 := {| queue := queue st ++ [(start, 0)];
                 discoveredUrls := add (discoveredUrls st) start;
                 visitedUrls := visitedUrls st;
                 failedUrls := failedUrls st |}) in Hrun.
  destruct (crawlLoop cfg env fuel st1) as [st2|] eqn:Hloop; [|done].
  injection Hrun as <- <-.
  assert (HP : NoDup (discoveredUrls st2) ∧ start ∈ discoveredUrls st2).
  { eapply (crawlLoop_invariant cfg env
              (λ s, NoDup (discoveredUrls s) ∧ start ∈ discoveredUrls s));
      [| | |exact Hloop].
    - by intros s url depth rest _ H.
    - intros s url depth rest _ [Hn Hs] _ _ _.
      destruct (crawlPage_appends cfg env url depth (Frontier.popped s))
        as (fr & E1 & _ & Hfr & Hnf & _).
      simpl in E1. rewrite E1. split.
      + apply NoDup_app. split; [done|]. split; [|done].
        intros u Hu Hin. rewrite Forall_forall in Hfr.
        destruct (Hfr u Hin) as [Hout _]. by apply Hout.
      + apply elem_of_app. by left.
    - split; [by apply add_NoDup|]. apply elem_of_add. by right. }
  destruct HP as [Hn Hs]. split.
  - by rewrite map_map, map_id.
  - rewrite landing_page_count by done. by rewrite decide_True.
Qed.

Lemma discoverUrls_results_distinct_witness :
  let cfg := {| maxDepth := 3; maxUrls := 50 |} in
  NoDup (discoveredUrls fresh)
  ∧ ∃ results st',
      discoverUrls cfg shop 10 "https://shop.test/" fresh
      = Some (results, st')
      ∧ NoDup (map CrawlResult.url results)
      ∧ length (filter (λ r, CrawlResult.source r = "landing-page") results)
        = 1%nat.
Proof.
  intros cfg.
  assert (Hnd : NoDup (discoveredUrls fresh)) by constructor.
  split; [exact Hnd|].
  destruct (discoverUrls cfg shop 10 "https://shop.test/" fresh)
    as [[results st']|] eqn:Hrun; [|vm_compute in Hrun; discriminate].
  exists results, st'. split; [reflexivity|].
  exact (discoverUrls_results_distinct cfg shop 10 "https://shop.test/"
           fresh st' results Hnd Hrun).
Defined.

(** X5. Only the start URL escapes the inclusion policy: every URL in the
    results of [discoverUrls] was discovered before the call, or is the
    start URL, which is taken unchecked, or was accepted by
    [shouldIncludeUrl]. *)
Theorem discoverUrls_respects_policy (cfg : Config) (env : Env)
    (fuel : nat) (start : string) (st st' : State)
    (results : list CrawlResult.t) :
  discoverUrls cfg env fuel start st = Some (results, st') →
  ∀ r, r ∈ results →
    CrawlResult.url r ∈ discoveredUrls st
    ∨ CrawlResult.url r = start
    ∨ shouldIncludeUrl env (Some (CrawlResult.url r)) = true.
Proof.
  intros Hrun. unfold discoverUrls in Hrun.
  set (st1 := {| queue := queue st ++ [(start, 0)];
                 discoveredUrls := add (discoveredUrls st) start;
                 visitedUrls := visitedUrls st;
                 failedUrls := failedUrls st |}) in Hrun.
  destruct (crawlLoop cfg env fuel st1) as [st2|] eqn:Hloop; [|done].
  injection Hrun as <- <-.
  set (ok := λ u, u ∈ discoveredUrls st ∨ u = start
                  ∨ shouldIncludeUrl env (Some u) = true).
  assert (HP : Forall ok (discoveredUrls st2)).
  { eapply (crawlLoop_invariant cfg env (λ s, Forall ok (discoveredUrls s)));
      [| | |exact Hloop].
    - by intros s url depth rest _ H.
    - intros s url depth rest _ Hs _ _ _. unfold crawlPage.
      destruct (pageLinks env url) as [links|]; [|exact Hs].
      apply (fold_left_inv (λ s, Forall ok (discoveredUrls s))); [exact Hs|].
      intros a link _ Ha. unfold considerLink.
      destruct (shouldIncludeUrl env (resolve env (href link) url)) eqn:Hinc;
        [|done].
      destruct (resolve env (href link) url) as [resolved|]; [|done].
      destruct (negb _); [|done]. simpl. unfold add.
      destruct (has _ _); [done|]. apply Forall_app. split; [done|].
      apply Forall_singleton. right. by right.
    - apply Forall_forall. intros u [Hu| ->]%elem_of_add; [by left|].
      right. by left. }
  intros r Hr. rewrite Forall_forall in HP.
  apply list_elem_of_In, in_map_iff in Hr as (u & <- & Hu). simpl.
  apply HP. by apply list_elem_of_In.
Qed.

Lemma discoverUrls_respects_policy_witness :
  let cfg := {| maxDepth := 3; maxUrls := 50 |} in
  ∃ results st',
    discoverUrls cfg shop 10 "https://shop.test/" fresh = Some (results, st')
    ∧ Forall (λ r, CrawlResult.url r = "https://shop.test/"
                   ∨ includes shop (CrawlResult.url r) = true) results.
Proof.
  intros cfg.
  destruct (discoverUrls cfg shop 10 "https://shop.test/" fresh)
    as [[results st']|] eqn:Hrun; [|vm_compute in Hrun; discriminate].
  exists results, st'. split; [reflexivity|].
  apply Forall_forall. intros r Hr.
  destruct (discoverUrls_respects_policy cfg shop 10 "https://shop.test/"
              fresh st' results Hrun r Hr) as [Hin|[Hs|Hinc]].
  - exact (False_ind _ (proj1 (elem_of_nil _) Hin)).
  - by left.
  - right. simpl in Hinc. by destruct (bool_decide _).
Defined.

End FrontierInvariants.

(** ** Rate limiter: the sliding window *)

Section SlidingWindow.
Import RateLimiter.

Lemma filter_filter_impl {A : Type} (P Q : A → Prop)
    `{∀ x, Decision (P x)} `{∀ x, Decision (Q x)} (l : list A) :
  (∀ x, P x → Q x) → filter P (filter Q l) = filter P l.
Proof.
  intros HPQ. induction l as [|x l IH]; [done|].
  destruct (decide (Q x)) as [Hq|Hq].
  - rewrite (filter_cons_True Q) by done.
    destruct (decide (P x)).
    + rewrite !(filter_cons_True P) by done. by rewrite IH.
    + rewrite !(filter_cons_False P) by done. by rewrite IH.
  - rewrite (filter_cons_False Q) by done.
    rewrite (filter_cons_False P) by (intros Hp; by apply Hq, HPQ).
    exact IH.
Qed.

Lemma length_filter_impl {A : Type} (P Q : A → Prop)
    `{∀ x, Decision (P x)} `{∀ x, Decision (Q x)} (l : list A) :
  (∀ x, P x → Q x) → (length (filter P l) ≤ length (filter Q l))%nat.
Proof.
  intros HPQ. rewrite <- (filter_filter_impl P Q l HPQ).
  apply length_filter.
Qed.

Lemma recent_recent (w a b : Z) (l : list Z) :
  a ≤ b → recent w b (recent w a l) = recent w b l.
Proof. intros Hab. apply filter_filter_impl. intros x. lia. Qed.

(** What [acquire] does to the queue and when it grants. *)
Lemma acquire_grant (rl : t) (now late : Z) :
  0 ≤ late →
  let q := recent (window rl) now (queue rl) in
  let granted := (acquire rl now late).1 in
  let rl' := (acquire rl now late).2 in
  now ≤ granted
  ∧ requests rl' = requests rl ∧ window rl' = window rl
  ∧ queue rl' = q ++ [granted]
  ∧ (Z.of_nat (length q) ≤ requests rl → 1 ≤ requests rl →
     Z.of_nat (length (recent (window rl) granted q)) < requests rl).
Proof.
  intros Hlate q granted rl'. unfold granted, rl', acquire.
  fold (recent (window rl) now (queue rl)). fold q.
  case_bool_decide as Hlen; simpl.
  - repeat split; try done. intros _ _.
    pose proof (length_filter (λ time, now - time < window rl) q).
    unfold recent. lia.
  - split; [lia|]. repeat split; try done. intros Hle Hreq.
    destruct q as [|first q']; [simpl in *; lia|].
    unfold recent. rewrite filter_cons_False by lia.
    pose proof (length_filter
                  (λ time, now + Z.max 0 (window rl - (now - first)) + late
                           - time < window rl) q').
    simpl in Hle. lia.
Qed.

Lemma serve_window (r w : Z) (calls : list (Z * Z)) :
  1 ≤ r →
  Forall (λ call, 0 ≤ call.1 ∧ 0 ≤ call.2) calls →
  ∀ (rl : t) (last : Z) (hist : list Z),
    requests rl = r → window rl = w →
    recent w last hist = recent w last (queue rl) →
    Z.of_nat (length (recent w last (queue rl))) ≤ r →
    (∀ at_, Z.of_nat (length (within w at_ hist)) ≤ r) →
    ∀ at_, Z.of_nat (length (within w at_ (hist ++ serve rl last calls))) ≤ r.
Proof.
  intros Hr. induction 1 as [|[gap late] calls [Hgap Hlate] _ IH];
    intros rl last hist Er Ew Hsame Hlen Hwin at_.
  { simpl. by rewrite app_nil_r. }
  simpl in Hgap, Hlate. simpl serve.
  destruct (acquire_grant rl (last + gap) late Hlate)
    as (Hnow & Er' & Ew' & Eq' & Hroom).
  destruct (acquire rl (last + gap) late) as [granted rl'].
  simpl in Hnow, Er', Ew', Eq', Hroom. rewrite Er, Ew in *.
  set (q := recent w (last + gap) (queue rl)) in *.
  assert (Hq : q = recent w (last + gap) (recent w last (queue rl))).
  { unfold q. rewrite recent_recent by lia. done. }
  assert (Hqlen : Z.of_nat (length q) ≤ r).
  { rewrite Hq. unfold recent at 1.
    pose proof (length_filter (λ time, last + gap - time < w)
                  (recent w last (queue rl))). lia. }
  specialize (Hroom Hqlen Hr).
  assert (Hhist : recent w granted hist = recent w granted q).
  { rewrite <- (recent_recent w last granted hist) by lia.
    rewrite Hsame, Hq.
    rewrite (recent_recent w last (last + gap)) by lia.
    rewrite !recent_recent by lia. done. }
  rewrite (cons_middle granted), app_assoc.
  apply IH; try done.
  - unfold recent. rewrite Eq', !filter_app. fold (recent w granted hist).
    fold (recent w granted q). by rewrite Hhist.
  - rewrite Eq'. unfold recent. rewrite filter_app, length_app.
    fold (recent w granted q).
    pose proof (length_filter (λ time, granted - time < w) [granted]).
    simpl in *. lia.
  - intros at'. unfold within. rewrite filter_app, length_app.
    fold (within w at' hist).
    destruct (decide (at' - w < granted ∧ granted ≤ at')) as [Hin|Hout].
    + rewrite (filter_cons_True _ granted) by done. simpl.
      assert ((length (within w at' hist)
               ≤ length (recent w granted hist))%nat).
      { apply length_filter_impl. intros x. lia. }
      rewrite Hhist in *. lia.
    + rewrite (filter_cons_False _ granted) by done. simpl.
      specialize (Hwin at'). lia.
Qed.

(** X6. The limiter holds its rate for a client that awaits each grant:
    with at least one request allowed per window, timers that never fire
    early and a clock that never runs backwards, no interval of [window]
    milliseconds contains more than [requests] grants. *)
Theorem acquire_keeps_rate (rl : t) (start : Z) (calls : list (Z * Z)) :
  queue rl = [] →
  1 ≤ requests rl →
  Forall (λ call, 0 ≤ call.1 ∧ 0 ≤ call.2) calls →
  ∀ at_,
    Z.of_nat (length (within (window rl) at_ (serve rl start calls)))
    ≤ requests rl.
Proof.
  intros Hq Hr Hcalls at_.
  apply (serve_window (requests rl) (window rl) calls Hr Hcalls rl start []);
    try done; rewrite ?Hq; simpl; try lia; try done.
Qed.

Lemma acquire_keeps_rate_witness :
  let rl := new (Some 2) (Some 1000) in
  let calls := [(0, 0); (10, 0); (10, 5); (0, 0); (300, 1)] in
  serve rl 0 calls = [0; 10; 1005; 1010; 2006]
  ∧ Z.of_nat (length (within 1000 1010 (serve rl 0 calls))) ≤ 2.
Proof.
  intros rl calls. split; [vm_compute; reflexivity|].
  apply (acquire_keeps_rate rl 0 calls).
  - reflexivity.
  - simpl. lia.
  - repeat constructor; simpl; lia.
Defined.

(** X7. Nobody waits longer than one window: when no recorded grant lies
    in the future, [acquire] grants at once if fewer than [requests]
    grants are less than [window] old, and otherwise within [window]
    milliseconds plus the lateness of the timer; the new grant is the
    latest recorded one. *)
Theorem acquire_waits_at_most_a_window (rl : t) (now late : Z) :
  0 ≤ late →
  Forall (λ time, time ≤ now) (queue rl) →
  let granted := (acquire rl now late).1 in
  let rl' := (acquire rl now late).2 in
  now ≤ granted ≤ now + Z.max 0 (window rl) + late
  ∧ (Z.of_nat (length (recent (window rl) now (queue rl))) < requests rl →
     granted = now)
  ∧ Forall (λ time, time ≤ granted) (queue rl')
  ∧ last (queue rl') = Some granted.
Proof.
  intros Hlate Hpast granted rl'. unfold granted, rl', acquire.
  fold (recent (window rl) now (queue rl)).
  assert (Hq : Forall (λ time, time ≤ now)
                 (recent (window rl) now (queue rl))).
  { apply Forall_forall. intros x [_ Hx]%list_elem_of_filter.
    rewrite Forall_forall in Hpast. by apply Hpast. }
  case_bool_decide as Hlen; simpl.
  - split; [lia|]. split; [done|]. split; [|by rewrite last_snoc].
    apply Forall_app. split; [done|]. by apply Forall_singleton.
  - destruct (recent (window rl) now (queue rl)) as [|first q'] eqn:E.
    + split; [lia|]. split; [simpl in *; lia|]. split; [|done].
      apply Forall_singleton. lia.
    + apply Forall_cons in Hq as [Hfirst Hq'].
      split; [lia|]. split; [done|]. split; [|by rewrite last_snoc].
      apply Forall_app. split; [|by apply Forall_singleton].
      apply Forall_cons. split; [lia|].
      eapply Forall_impl; [exact Hq'|]. simpl. intros x Hx. lia.
Qed.

Lemma acquire_waits_at_most_a_window_witness :
  let rl := {| requests := 2; window := 1000; queue := [0; 10] |} in
  (acquire rl 20 5).1 = 1005
  ∧ 20 ≤ (acquire rl 20 5).1 ≤ 20 + Z.max 0 (window rl) + 5.
Proof.
  intros rl. split; [reflexivity|].
  refine (proj1 (acquire_waits_at_most_a_window rl 20 5 _ _)).
  - lia.
  - repeat constructor; lia.
Defined.

End SlidingWindow.

(** ** Cache: size, freshness and eviction *)

Section CacheProperties.
Import Cache.
Context {V : Type}.

Lemma length_set {A : Type} (o : JS.Obj A) (k : string) (v : A) :
  (length (JS.set o k v) ≤ S (length o))%nat.
Proof.
  induction o as [|[k' v'] o IH]; simpl; [lia|].
  destruct (String.eqb k' k); simpl; lia.
Qed.

Lemma length_remove {A : Type} (o : JS.Obj A) (k : string) :
  (length (remove o k) ≤ length o)%nat.
Proof. apply length_filter. Qed.

Lemma get_remove {A : Type} (o : JS.Obj A) (k k' : string) :
  JS.get (remove o k) k' = if String.eqb k k' then None else JS.get o k'.
Proof.
  unfold remove. induction o as [|[k0 v0] o IH].
  { simpl. by destruct (String.eqb k k'). }
  destruct (decide (k0 = k)) as [->|Hne].
  - rewrite filter_cons_False by (simpl; tauto). rewrite IH. simpl.
    destruct (String.eqb_spec k k'); done.
  - rewrite filter_cons_True by done. simpl. rewrite IH.
    destruct (String.eqb_spec k0 k') as [->|]; [|done].
    by destruct (String.eqb_spec k k').
Qed.

Lemma set_fields (c : t V) (now : Z) (key : string) (v : option V) :
  ttl (set c now key v) = ttl c ∧ maxSize (set c now key v) = maxSize c.
Proof. done. Qed.

Lemma perform_bounded (c : t V) (timed : Z * Call V) :
  size c ≤ Z.max 1 (maxSize c) →
  maxSize (perform c timed) = maxSize c
  ∧ size (perform c timed) ≤ Z.max 1 (maxSize c).
Proof.
  unfold size. intros Hc. destruct timed as [now [key v|key|key|key|]];
    unfold perform; simpl.
  - split; [done|]. unfold size.
    pose proof (length_set
      (if bool_decide (maxSize c ≤ Z.of_nat (length (cache c))) then
         match cache c with
         | [] => cache c
         | (firstKey, _) :: _ => remove (cache c) firstKey
         end
       else cache c) key {| value := v; timestamp := now |}) as Hset.
    case_bool_decide as Hfull; [|lia].
    destruct (cache c) as [|[firstKey i] rest] eqn:E; [simpl in *; lia|].
    unfold remove in Hset |- *.
    rewrite filter_cons_False in Hset by (simpl; tauto).
    rewrite filter_cons_False by (simpl; tauto).
    pose proof (length_filter (λ kv : string * Item V, kv.1 ≠ firstKey) rest).
    simpl in *. lia.
  - unfold get. destruct (JS.get (cache c) key) as [item|]; [|done].
    case_bool_decide; [|done]. simpl. split; [done|].
    pose proof (length_remove (cache c) key). lia.
  - unfold has, get. destruct (JS.get (cache c) key) as [item|]; [|done].
    case_bool_decide; [|done]. simpl. split; [done|].
    pose proof (length_remove (cache c) key). lia.
  - split; [done|]. pose proof (length_remove (cache c) key). lia.
  - split; [done|]. lia.
Qed.

(** X8. The cache never outgrows its limit: whatever calls a client makes
    on a new cache, at whatever times, it holds at most [maxSize]
    entries, and at most one when [maxSize] is below one. *)
Theorem cache_size_bounded (optTtl optMaxSize : option Z)
    (calls : list (Z * Call V)) :
  let c := replay (new optTtl optMaxSize) calls in
  maxSize c = orNum optMaxSize 1000
  ∧ 0 ≤ size c ≤ Z.max 1 (maxSize c).
Proof.
  simpl. unfold replay.
  assert (H : ∀ c : t V, size c ≤ Z.max 1 (maxSize c) →
              maxSize (fold_left perform calls c) = maxSize c
              ∧ size (fold_left perform calls c) ≤ Z.max 1 (maxSize c)).
  { induction calls as [|call calls IH]; intros c Hc; [done|]. simpl.
    destruct (perform_bounded c call Hc) as [Em Hs].
    rewrite <- Em in Hs. destruct (IH _ Hs) as [Em' Hs'].
    rewrite Em' , Em in *. done. }
  destruct (H (new optTtl optMaxSize)) as [Em Hs].
  { unfold size. simpl. lia. }
  split; [exact Em|]. split; [unfold size; lia|]. rewrite Em. exact Hs.
Qed.

(** X9. What is stored is served until it is older than [ttl]: a [get]
    at most [ttl] milliseconds after [set] returns the stored value and
    leaves the cache as it is, and [has] holds unless the value is
    [null]; a later [get] returns [null] and drops the entry. *)
Theorem cache_serves_fresh_entries (c : t V) (now later : Z) (key : string)
    (v : option V) :
  let stored := set c now key v in
  (later - now ≤ ttl c →
   get stored later key = (v, stored)
   ∧ has stored later key = (bool_decide (v ≠ None), stored))
  ∧ (ttl c < later - now →
     (get stored later key).1 = None
     ∧ JS.get (cache (get stored later key).2) key = None).
Proof.
  intros stored.
  assert (Hget : JS.get (cache stored) key
                 = Some {| value := v; timestamp := now |}).
  { unfold stored, set. simpl. rewrite get_set.
    by rewrite String.eqb_refl. }
  split.
  - intros Hfresh. unfold has, get. rewrite Hget. simpl.
    rewrite bool_decide_eq_false_2 by (unfold stored; simpl; lia).
    split; [done|]. by destruct v.
  - intros Hstale. unfold get. rewrite Hget. simpl.
    rewrite bool_decide_eq_true_2 by (unfold stored; simpl; lia).
    simpl. split; [done|]. rewrite get_remove.
    by rewrite String.eqb_refl.
Qed.

(** X10. Eviction is by age of insertion, and an update evicts too: a
    [set] on a full cache removes the entry inserted first, also when the
    key written is already present; every other entry is kept.  Below the
    limit a [set] touches no other key. *)
Theorem cache_set_evicts_oldest (c : t V) (now : Z) (key : string)
    (v : option V) :
  let stored := set c now key v in
  JS.get (cache stored) key = Some {| value := v; timestamp := now |}
  ∧ (∀ oldest item rest,
       cache c = (oldest, item) :: rest → maxSize c ≤ size c →
       (oldest ≠ key → JS.get (cache stored) oldest = None)
       ∧ (∀ k, k ≠ oldest → k ≠ key →
            JS.get (cache stored) k = JS.get (cache c) k))
  ∧ (size c < maxSize c →
     ∀ k, k ≠ key → JS.get (cache stored) k = JS.get (cache c) k).
Proof.
  intros stored. unfold stored, set. simpl. split; [|split].
  - rewrite get_set. by rewrite String.eqb_refl.
  - intros oldest item rest E Hfull.
    rewrite bool_decide_eq_true_2 by done. rewrite E.
    split.
    + intros Hne. rewrite get_set, get_remove.
      destruct (String.eqb_spec key oldest) as [->|_]; [done|].
      by rewrite String.eqb_refl.
    + intros k Hk Hkey. rewrite get_set, get_remove.
      destruct (String.eqb_spec key k) as [->|_]; [done|].
      by destruct (String.eqb_spec oldest k) as [->|_].
  - intros Hroom k Hk. rewrite bool_decide_eq_false_2 by lia.
    rewrite get_set. by destruct (String.eqb_spec key k) as [->|_].
Qed.

End CacheProperties.

Section CacheExamples.
Import Cache.

Lemma cache_serves_fresh_entries_witness :
  let c := set (new (Some 1000) (Some 2)) 0 "/a" (Some [1]) in
  2500 - 2000 ≤ ttl c
  ∧ get (set c 2000 "/b" (Some [2])) 2500 "/b"
    = (Some [2], set c 2000 "/b" (Some [2]))
  ∧ ttl c < 3500 - 2000
  ∧ (get (set c 2000 "/b" (Some [2])) 3500 "/b").1 = None.
Proof.
  intros c.
  destruct (cache_serves_fresh_entries c 2000 2500 "/b" (Some [2]))
    as [Hfresh _].
  destruct (cache_serves_fresh_entries c 2000 3500 "/b" (Some [2]))
    as [_ Hstale].
  assert (H1 : 2500 - 2000 ≤ ttl c) by (simpl; lia).
  assert (H2 : ttl c < 3500 - 2000) by (simpl; lia).
  split; [exact H1|]. split; [exact (proj1 (Hfresh H1))|].
  split; [exact H2|]. exact (proj1 (Hstale H2)).
Defined.

Lemma cache_set_evicts_oldest_witness :
  let c := set (set (new None (Some 2)) 0 "/a" (Some 1)) 1 "/b" (Some 2) in
  maxSize c ≤ size c
  ∧ JS.get (cache (set c 2 "/b" (Some 3))) "/a" = None
  ∧ size (set c 2 "/b" (Some 3)) = 1.
Proof.
  intros c.
  destruct (cache_set_evicts_oldest c 2 "/b" (Some 3)) as (_ & Hfull & _).
  assert (Hsize : maxSize c ≤ size c) by (vm_compute; discriminate).
  split; [exact Hsize|]. split; [|reflexivity].
  refine (proj1 (Hfull "/a" {| value := Some 1; timestamp := 0 |}
                   [("/b", {| value := Some 2; timestamp := 1 |})]
                   eq_refl Hsize) _).
  discriminate.
Defined.

End CacheExamples.

(** ** Navigation with retries, and the shape of a result *)

Section NavigationRetries.
Import BaseAuditor AuditEngine Navigation.
Context {PluginDetails Payload : Type}.

Lemma navigateFrom_first_answer (env : @Env PluginDetails Payload)
    (url : string) (k : nat) : ∀ (attempt remaining : nat) (w : World),
  (k ≤ remaining)%nat →
  (∀ i, (i < k)%nat → ∃ m, navigate env (gotos w + i) url = NavError m) →
  (k = remaining ∨ ∀ m, navigate env (gotos w + k) url ≠ NavError m) →
  ∃ added,
    navigateFrom url attempt remaining env w
    = (navigate env (gotos w + k) url,
       {| rateLimitRetries := rateLimitRetries w;
          requestCount := requestCount w;
          gotos := gotos w + k + 1;
          draws := draws w + k;
          trace := trace w ++ added |})
    ∧ navigationsOf added = replicate (S k) url
    ∧ retrySleepsOf added
      = map (λ i, retryDelay env (draws w + i) (attempt + i)) (seq 0 k).
Proof.
  induction k as [|k IH]; intros attempt remaining w Hk Hfail Hlast.
  - exists [Goto url]. split; [|done].
    rewrite !Nat.add_0_r in *.
    destruct remaining as [|remaining]; cbn [navigateFrom];
      unfold mbind at 1, M_bind, bind, goto, mret, M_ret, ret;
      replace (gotos w + 1)%nat with (S (gotos w)) by lia;
      destruct (navigate env (gotos w) url) as [| |m] eqn:E; try done.
    destruct Hlast as [?|Hlast]; [done|]. by specialize (Hlast m).
  - destruct remaining as [|remaining]; [lia|].
    destruct (Hfail 0%nat) as [m Hm]; [lia|]. rewrite Nat.add_0_r in Hm.
    cbn [navigateFrom]. unfold mbind at 1, M_bind, bind, goto. rewrite Hm.
    unfold mbind at 1, M_bind, bind, rnd.
    unfold mbind at 1, M_bind, bind, sleep.
    cbn [rateLimitRetries requestCount gotos draws trace].
    set (w1 := {| rateLimitRetries := rateLimitRetries w;
                  requestCount := requestCount w;
                  gotos := S (gotos w); draws := S (draws w);
                  trace := (trace w ++ [Goto url])
                           ++ [Sleep NavigationRetry
                                 (inject_Z (2000 * (Z.of_nat attempt + 1))
                                  + random env (draws w) * 2000)%Q] |}).
    destruct (IH (S attempt) remaining w1) as (added & Hrun & Hnav & Hsl).
    + lia.
    + intros i Hi. destruct (Hfail (S i)) as [m' Hm']; [lia|].
      exists m'. simpl. by rewrite <- Nat.add_succ_r.
    + destruct Hlast as [Hlast|Hlast]; [left; lia|right].
      intros m'. simpl. rewrite <- Nat.add_succ_r. apply Hlast.
    + exists ([Goto url;
               Sleep NavigationRetry (retryDelay env (draws w) attempt)]
              ++ added).
      split; [|split].
      * rewrite Hrun. unfold w1.
        cbn [rateLimitRetries requestCount gotos draws trace].
        replace (S (gotos w) + k)%nat with (gotos w + S k)%nat by lia.
        replace (S (draws w) + k)%nat with (draws w + S k)%nat by lia.
        rewrite <- !app_assoc. done.
      * change (navigationsOf ([Goto url; Sleep NavigationRetry
                                  (retryDelay env (draws w) attempt)]
                               ++ added))
          with (url :: navigationsOf added).
        by rewrite Hnav.
      * change (retrySleepsOf ([Goto url; Sleep NavigationRetry
                                  (retryDelay env (draws w) attempt)]
                               ++ added))
          with (retryDelay env (draws w) attempt :: retrySleepsOf added).
        rewrite Hsl. cbn [seq map]. rewrite !Nat.add_0_r. f_equal.
        rewrite <- seq_shift, map_map. apply map_ext. intros i.
        unfold w1. cbn [draws].
        replace (S (draws w) + i)%nat with (draws w + S i)%nat by lia.
        replace (S attempt + i)%nat with (attempt + S i)%nat by lia.
        done.
Qed.

Lemma first_answer_exists (env : @Env PluginDetails Payload) (url : string)
    (remaining : nat) : ∀ first : nat,
  ∃ k, (k ≤ remaining)%nat
       ∧ (∀ i, (i < k)%nat → ∃ m, navigate env (first + i) url = NavError m)
       ∧ (k = remaining ∨ ∀ m, navigate env (first + k) url ≠ NavError m).
Proof.
  induction remaining as [|remaining IH]; intros first.
  { exists 0%nat. split; [lia|]. split; [intros i Hi; lia|by left]. }
  destruct (navigate env first url) as [status txt| |m] eqn:E.
  - exists 0%nat. split; [lia|]. split; [intros i Hi; lia|right].
    rewrite Nat.add_0_r, E. done.
  - exists 0%nat. split; [lia|]. split; [intros i Hi; lia|right].
    rewrite Nat.add_0_r, E. done.
  - destruct (IH (S first)) as (k & Hk & Hfail & Hlast).
    exists (S k). split; [lia|]. split.
    + intros [|i] Hi; [rewrite Nat.add_0_r; by exists m|].
      rewrite Nat.add_succ_r. apply Hfail. lia.
    + rewrite Nat.add_succ_r. destruct Hlast as [->|Hlast]; auto.
Qed.

(** X11. Navigation is tried until it answers, at most [retries + 1]
    times: [navigateWithRetry] returns the outcome of the first [goto]
    that does not throw, or throws the error of attempt [retries + 1];
    it makes one [goto] per attempt and sleeps after the failed attempt
    number [i] for [2000 * i] milliseconds plus a jitter, and it leaves
    the retry counters and the request count alone. *)
Theorem navigateWithRetry_first_answer (cfg : Config)
    (env : @Env PluginDetails Payload) (url : string) (w : World) :
  ∃ (k : nat) (added : list Event),
    (k ≤ retries cfg)%nat
    ∧ (∀ i, (i < k)%nat → ∃ m, navigate env (gotos w + i) url = NavError m)
    ∧ (k = retries cfg ∨ ∀ m, navigate env (gotos w + k) url ≠ NavError m)
    ∧ navigateWithRetry cfg url env w
      = (navigate env (gotos w + k) url,
         {| rateLimitRetries := rateLimitRetries w;
            requestCount := requestCount w;
            gotos := gotos w + k + 1;
            draws := draws w + k;
            trace := trace w ++ added |})
    ∧ navigationsOf added = replicate (S k) url
    ∧ retrySleepsOf added
      = map (λ i, retryDelay env (draws w + i) i) (seq 0 k).
Proof.
  destruct (first_answer_exists env url (retries cfg) (gotos w))
    as (k & Hk & Hfail & Hlast).
  destruct (navigateFrom_first_answer env url k 0 (retries cfg) w
              Hk Hfail Hlast) as (added & Hrun & Hnav & Hsl).
  exists k, added. repeat (split; [done|]). exact Hsl.
Qed.


End NavigationRetries.

Section NavigationExamples.
Import AuditEngine.


End NavigationExamples.

(** ** Structure audit: flags, findings and the first baseline *)

Section QuietAudit.
Import BaseAuditor HTMLStructureAuditor.

Lemma keys_set {A : Type} (o : JS.Obj A) (k : string) (v : A) (x : string) :
  x ∈ map fst (JS.set o k v) ↔ x ∈ map fst o ∨ x = k.
Proof.
  induction o as [|[k' v'] o IH]; simpl.
  - rewrite list_elem_of_singleton. split; [by right|].
    intros [Hx|Hx]; [by apply elem_of_nil in Hx|done].
  - destruct (String.eqb_spec k' k) as [->|Hne]; simpl.
    + rewrite !elem_of_cons. tauto.
    + rewrite !elem_of_cons, IH. tauto.
Qed.

Lemma set_NoDup {A : Type} (o : JS.Obj A) (k : string) (v : A) :
  NoDup (map fst o) → NoDup (map fst (JS.set o k v)).
Proof.
  induction o as [|[k' v'] o IH]; simpl; intros Hnd.
  - apply NoDup_singleton.
  - apply NoDup_cons in Hnd as [Hk' Hnd].
    destruct (String.eqb_spec k' k) as [->|Hne]; simpl.
    + apply NoDup_cons. done.
    + apply NoDup_cons. split; [|by apply IH].
      rewrite keys_set. intros [?|?]; done.
Qed.

Lemma mapOf_NoDup {A : Type} (pairs : list (string * A)) :
  NoDup (map fst (JS.mapOf pairs)).
Proof.
  unfold JS.mapOf.
  apply (fold_left_inv (λ m : JS.Obj A, NoDup (map fst m)));
    [apply NoDup_nil_2|].
  intros m kv _ Hm. by apply set_NoDup.
Qed.

Lemma get_of_entry {A : Type} (o : JS.Obj A) (k : string) (v : A) :
  NoDup (map fst o) → (k, v) ∈ o → JS.get o k = Some v.
Proof.
  induction o as [|[k' v'] o IH]; simpl; intros Hnd Hin.
  { by apply elem_of_nil in Hin. }
  apply NoDup_cons in Hnd as [Hk' Hnd].
  destruct (String.eqb_spec k' k) as [->|Hne].
  - apply elem_of_cons in Hin as [[= ->]|Hin]; [done|].
    exfalso. apply Hk'. apply list_elem_of_In, in_map_iff.
    exists (k, v). split; [done|]. by apply list_elem_of_In.
  - apply elem_of_cons in Hin as [[= -> ->]|Hin]; [done|]. by apply IH.
Qed.

Lemma fold_left_fixed {A B : Type} (f : A → B → A) (l : list B) (a : A) :
  (∀ x, x ∈ l → f a x = a) → fold_left f l a = a.
Proof.
  intros Hf. apply (fold_left_inv (λ s, s = a)); [done|].
  intros s x Hx ->. by apply Hf.
Qed.

Lemma compareHeadings_same (hs : list Heading) :
  compareHeadings hs hs
  = {| hHasChanges := false; added := []; removed := []; modified := [];
       hierarchyChanges := [] |}.
Proof.
  unfold compareHeadings, JS.forEach.
  rewrite bool_decide_eq_false_2 by lia.
  assert (Hgen : ∀ l k s,
            (∀ j x, l !! j = Some x → hs !! (k + j)%nat = Some x) →
            JS.forEachFrom (compareHeadingAt hs) k l s = s).
  { induction l as [|x l IH]; intros k s Hl; simpl; [done|].
    rewrite IH.
    - unfold compareHeadingAt.
      pose proof (Hl 0%nat x eq_refl) as Hx. rewrite Nat.add_0_r in Hx.
      rewrite Hx. by rewrite !bool_decide_eq_true_2.
    - intros j y Hj. rewrite Nat.add_succ_l, <- Nat.add_succ_r.
      by apply Hl. }
  apply Hgen. by intros j x.
Qed.

Lemma compareMetaTags_same (ms : list MetaTag) :
  compareMetaTags ms ms
  = {| mHasChanges := false; mAdded := []; mRemoved := [];
       mModified := [] |}.
Proof.
  unfold compareMetaTags.
  set (m := JS.mapOf (map (λ t, (metaKey t, t)) ms)).
  pose proof (mapOf_NoDup (map (λ t, (metaKey t, t)) ms)) as Hnd.
  fold m in Hnd.
  rewrite !fold_left_fixed; [done| |];
    intros [k v] Hin; simpl; rewrite (get_of_entry m k v) by done;
    by rewrite ?bool_decide_eq_true_2.
Qed.

Lemma compareImportantElements_same (e : JS.Obj (list ElementInfo)) :
  NoDup (map fst e) →
  compareImportantElements e e
  = {| eHasChanges := false; selectorChanges := [] |}.
Proof.
  intros Hnd. unfold compareImportantElements.
  rewrite !fold_left_fixed; [done| |];
    intros [k v] Hin; simpl; rewrite (get_of_entry e k v) by done;
    by rewrite ?bool_decide_eq_true_2.
Qed.

Lemma compareStructures_same (s : Structure) :
  NoDup (map fst (importantElements s)) →
  hasChanges (compareStructures s s) = false
  ∧ titleChanged (compareStructures s s) = false.
Proof.
  intros Hnd. unfold compareStructures. simpl.
  rewrite compareHeadings_same, compareMetaTags_same,
    compareImportantElements_same by done.
  by rewrite bool_decide_eq_true_2.
Qed.

Section WithParseFloat.
Context `{ParseFloat}.

Lemma diffProperties_same (b : JS.Obj string) :
  NoDup (map fst b) → diffProperties b b = ([], false).
Proof.
  intros Hnd. unfold diffProperties. apply fold_left_fixed.
  intros [p v] Hin. simpl. rewrite (get_of_entry b p v) by done.
  by rewrite bool_decide_eq_true_2.
Qed.

Lemma compareStyling_same (st : Styling) :
  NoDup (map fst st) →
  Forall (λ entry, NoDup (map fst entry.2)) st →
  compareStyling st st
  = {| hasCompensation := false; styleChanges := [];
       suspiciousChanges := [] |}.
Proof.
  intros Hnd Hprops. unfold compareStyling. apply fold_left_fixed.
  intros [sel props] Hin. simpl. rewrite (get_of_entry st sel props) by done.
  rewrite Forall_forall in Hprops.
  by rewrite (diffProperties_same props (Hprops _ Hin)).
Qed.

(** Without a raised flag there is nothing to report. *)
Lemma unflagged_comparison_is_quiet (b cur : Structure)
    (stc : option StylingChanges) :
  hasChanges (compareStructures b cur) = false →
  (∀ c, stc = Some c → hasCompensation c = false) →
  processStructureChanges (compareStructures b cur) [] [] = ([], [])
  ∧ (∀ c, stc = Some c →
       processStylingChanges c (compareStructures b cur) [] [] = ([], []))
  ∧ calculateStructureScore (compareStructures b cur) stc = 100.
Proof.
  intros Hflag Hcomp.
  destruct (compareStructures_flag b cur Hflag) as (Hh & Hr & Hmr & Hmm).
  pose proof Hflag as Hparts. simpl in Hparts.
  apply orb_false_iff in Hparts as [Hparts He].
  apply orb_false_iff in Hparts as [Hparts Hm].
  apply orb_false_iff in Hparts as [Ht _].
  split; [|split].
  - unfold processStructureChanges.
    change (titleChanged (compareStructures b cur))
      with (negb (bool_decide (title b = title cur))).
    rewrite Ht. rewrite Hh. simpl. by rewrite Hm.
  - intros c Hc. unfold processStylingChanges. by rewrite (Hcomp c Hc).
  - unfold calculateStructureScore. rewrite Hflag.
    destruct stc as [c|]; [|done]. by rewrite (Hcomp c eq_refl).
Qed.

(** X13. The flags cover the findings: when an audit raises neither
    [hasStructuralChanges] nor [hasStylingCompensation], it reports no
    issue and no warning, and the score is 100. *)
Theorem audit_reports_only_when_flagged (styleAnalysis : bool)
    (stored : option Baseline) (structure : Structure) (styling : Styling) :
  let out := (audit styleAnalysis stored structure styling).1 in
  hasStructuralChanges out = false →
  hasStylingCompensation out = false →
  issues out = [] ∧ warnings out = [] ∧ score out = 100.
Proof.
  intros out Hs Hc. subst out. destruct stored as [b|]; [|done].
  unfold audit in *.
  assert (Hcase : ∃ stc,
            match styleAnalysis, bStyling b,
                  (if styleAnalysis then Some styling else None) with
            | true, Some bs, Some cs => Some (compareStyling bs cs)
            | _, _, _ => None
            end = stc) by eauto.
  destruct Hcase as [stc Hstc]. rewrite Hstc in *. clear Hstc.
  destruct (processStructureChanges _ [] []) as [i0 w0] eqn:E0.
  destruct (unflagged_comparison_is_quiet (bStructure b) structure stc)
    as (E1 & E2 & E3).
  - destruct stc as [c|];
      [destruct (processStylingChanges _ _ _ _) in Hs|]; exact Hs.
  - intros c ->. destruct (processStylingChanges _ _ _ _) in Hc. exact Hc.
  - rewrite E1 in E0. injection E0 as <- <-.
    destruct stc as [c|].
    + rewrite (E2 c eq_refl). simpl. by rewrite E3.
    + simpl. by rewrite E3.
Qed.

(** X14. A page audited against the baseline it has just created is
    clean: the first audit of a URL writes the baseline, and a second
    audit of the same snapshot against it, read back as written, raises
    no flag, reports nothing, scores 100 and writes nothing.  The objects
    of the snapshot have each key once. *)
Theorem audit_against_own_baseline_is_quiet (styleAnalysis : bool)
    (structure : Structure) (styling : Styling) :
  NoDup (map fst (importantElements structure)) →
  NoDup (map fst styling) →
  Forall (λ entry, NoDup (map fst entry.2)) styling →
  ∃ baseline,
    audit styleAnalysis None structure styling
    = ({| currentStructure := structure; baselineStructure := None;
          structureComparison := None; stylingComparison := None;
          hasStructuralChanges := false; hasStylingCompensation := false;
          baselineCreated := true; issues := []; warnings := [];
          score := 100 |}, Some baseline)
    ∧ let again := audit styleAnalysis (Some baseline) structure styling in
      again.2 = None
      ∧ baselineCreated again.1 = false
      ∧ hasStructuralChanges again.1 = false
      ∧ hasStylingCompensation again.1 = false
      ∧ issues again.1 = []
      ∧ warnings again.1 = []
      ∧ score again.1 = 100.
Proof.
  intros Hel Hst Hprops. eexists. split; [reflexivity|].
  destruct (compareStructures_same structure Hel) as [Hflag _].
  set (stc := if styleAnalysis then Some (compareStyling styling styling)
              else None).
  assert (Hcomp : ∀ c, stc = Some c → hasCompensation c = false).
  { intros c. unfold stc. destruct styleAnalysis; [|done].
    intros [= <-]. by rewrite compareStyling_same. }
  destruct (unflagged_comparison_is_quiet structure structure stc
              Hflag Hcomp) as (E1 & E2 & E3).
  unfold audit. cbn [bStructure bStyling].
  replace (match styleAnalysis with
           | true =>
               match (if styleAnalysis then Some styling else None) with
               | Some bs =>
                   match (if styleAnalysis then Some styling else None) with
                   | Some cs => Some (compareStyling bs cs)
                   | None => None
                   end
               | None => None
               end
           | false => None
           end) with stc by (unfold stc; by destruct styleAnalysis).
  rewrite E1. destruct stc as [c|] eqn:Ec.
  - rewrite (E2 c eq_refl). cbn [fst snd]. rewrite Hflag.
    cbn [hasStructuralChanges hasStylingCompensation issues warnings score
         baselineCreated].
    rewrite (Hcomp c eq_refl). by rewrite E3.
  - cbn [fst snd]. rewrite Hflag.
    cbn [hasStructuralChanges hasStylingCompensation issues warnings score
         baselineCreated].
    by rewrite E3.
Qed.

End WithParseFloat.

Lemma audit_reports_only_when_flagged_witness :
  let out :=
    (audit (H := Decimal.parse) true
       (Some {| bStructure := Examples.page Examples.restyledHeadings;
                bStyling := Some Examples.restyledBefore |})
       (Examples.page Examples.restyledHeadings) Examples.restyledBefore).1 in
  hasStructuralChanges out = false
  ∧ hasStylingCompensation out = false
  ∧ issues out = [] ∧ warnings out = [] ∧ score out = 100.
Proof.
  intros out.
  assert (Hs : hasStructuralChanges out = false) by reflexivity.
  assert (Hc : hasStylingCompensation out = false) by (vm_compute; reflexivity).
  split; [exact Hs|]. split; [exact Hc|].
  exact (audit_reports_only_when_flagged (H := Decimal.parse) true _ _ _
           Hs Hc).
Defined.

Lemma audit_against_own_baseline_is_quiet_witness :
  let structure := Examples.page Examples.demotedAfter in
  let styling := Examples.demotedStyleAfter in
  NoDup (map fst (importantElements structure))
  ∧ NoDup (map fst styling)
  ∧ Forall (λ entry, NoDup (map fst entry.2)) styling
  ∧ ∃ baseline,
      (audit (H := Decimal.parse) true None structure styling).2
      = Some baseline
      ∧ score (audit (H := Decimal.parse) true (Some baseline) structure
                 styling).1 = 100.
Proof.
  intros structure styling.
  assert (H1 : NoDup (map fst (importantElements structure)))
    by apply NoDup_nil_2.
  assert (H2 : NoDup (map fst styling)).
  { apply (bool_decide_unpack _). vm_compute. exact I. }
  assert (H3 : Forall (λ entry, NoDup (map fst entry.2)) styling).
  { repeat (apply Forall_cons; split; [|]); [| |apply Forall_nil_2];
      apply (bool_decide_unpack _); vm_compute; exact I. }
  split; [exact H1|]. split; [exact H2|]. split; [exact H3|].
  destruct (audit_against_own_baseline_is_quiet (H := Decimal.parse) true
              structure styling H1 H2 H3) as (baseline & Hfirst & Hagain).
  exists baseline. split.
  - by rewrite Hfirst.
  - exact (proj2 (proj2 (proj2 (proj2 (proj2 (proj2 Hagain)))))).
Defined.

End QuietAudit.

(** ** Visual audit: one finding per change, and when the score exists *)

Section VisualFindings.
Import BaseAuditor VisualRegressionAuditor.
Context `{PixelMatch}.

Lemma audit_fold (cfg : Config) (pageUrl : string) (captures : list Capture) :
  ∀ (cs : list Comparison) (f : Findings),
  fold_left
    (λ acc c,
       match comparisonOf cfg pageUrl c with
       | Some comparison =>
           (JS.push acc.1 [comparison], processComparison comparison acc.2)
       | None => acc
       end)
    captures (cs, f)
  = (cs ++ omap (comparisonOf cfg pageUrl) captures,
     fold_left (λ f c, processComparison c f)
       (omap (comparisonOf cfg pageUrl) captures) f).
Proof.
  induction captures as [|c captures IH]; intros cs f; simpl.
  { by rewrite app_nil_r. }
  destruct (comparisonOf cfg pageUrl c) as [comparison|]; simpl.
  - rewrite IH. unfold JS.push. by rewrite <- app_assoc.
  - apply IH.
Qed.

Lemma processComparison_count (c : Comparison) (f : Findings) :
  (length (issues (processComparison c f))
   + length (warnings (processComparison c f))
   + length (recommendations (processComparison c f)))%nat
  = (length (issues f) + length (warnings f) + length (recommendations f)
     + if hasChanges (diff c) then 1 else 0)%nat.
Proof.
  unfold processComparison, JS.push.
  destruct (hasChanges (diff c)); simpl; [|lia].
  case_bool_decide; simpl; [rewrite length_app; simpl; lia|].
  destruct (JS.gt _ _); simpl; [rewrite length_app; simpl; lia|].
  destruct (JS.gt _ _); simpl; rewrite length_app; simpl; lia.
Qed.

Lemma findings_count (l : list Comparison) : ∀ f : Findings,
  let f' := fold_left (λ f c, processComparison c f) l f in
  (length (issues f') + length (warnings f') + length (recommendations f'))%nat
  = (length (issues f) + length (warnings f) + length (recommendations f)
     + length (filter (λ c, hasChanges (diff c) = true) l))%nat.
Proof.
  induction l as [|c l IH]; intros f; simpl; [lia|].
  rewrite IH, processComparison_count.
  destruct (hasChanges (diff c)) eqn:E.
  - rewrite filter_cons_True by done. simpl. lia.
  - rewrite filter_cons_False by (by rewrite E). lia.
Qed.

(** X15. Every detected change is reported once: the comparisons of an
    audit are those of the captures that have a baseline image, in order,
    and the issues, warnings and recommendations together are as many as
    the changed comparisons.  When no capture has a baseline yet, nothing
    is compared and the score is 100. *)
Theorem audit_reports_each_change_once (cfg : Config) (pageUrl : string)
    (captures : list Capture) :
  let out := audit cfg pageUrl captures in
  comparisons out = omap (comparisonOf cfg pageUrl) captures
  ∧ (length (issues (findings out)) + length (warnings (findings out))
     + length (recommendations (findings out)))%nat
    = length (visualChanges out)
  ∧ (Forall (λ c, cBaselineFile c = None) captures →
     comparisons out = [] ∧ score out = Some 100).
Proof.
  unfold audit. rewrite audit_fold. cbn [app comparisons visualChanges
    findings score]. split; [done|]. split.
  - by rewrite findings_count.
  - intros Hnone.
    assert (E : omap (comparisonOf cfg pageUrl) captures = []).
    { induction Hnone as [|c l Hc _ IH]; [done|]. simpl.
      unfold comparisonOf at 1. by rewrite Hc. }
    by rewrite E.
Qed.

Lemma compareScreenshots_changed (cfg : Config) (b c : Decoded)
    (path : string) (writeDiff : option string) :
  let d := compareScreenshots cfg b c path writeDiff in
  (hasChanges d = false → reason d ≠ comparison_error)
  ∧ (hasChanges d = true →
     reason d = comparison_error ∧ diffPercentage d = None
     ∨ reason d ≠ comparison_error
       ∧ ∃ q, diffPercentage d = Some q
              ∧ (q = 100%Q ∨ (threshold cfg < q)%Q)).
Proof.
  unfold compareScreenshots.
  destruct b as [b|m]; [|split; [done|by left]].
  destruct c as [c|m]; [|split; [done|by left]].
  destruct (_ || _).
  { split; [done|]. intros _. right. split; [done|]. eauto. }
  destruct (pixelmatch _ _ _ _) as [m|n]; [split; [done|by left]|].
  destruct (JS.gt (percentOf n (width b * height b)) (Some (threshold cfg)))
    eqn:Hgt.
  - destruct writeDiff as [m|]; [split; [done|by left]|].
    split; [done|]. intros _. right. split; [done|].
    destruct (percentOf n (width b * height b)) as [q|]; [|done].
    exists q. split; [done|]. right. by apply gt_true_iff.
  - split; [done|]. done.
Qed.

Lemma total_of_changes (l : list Comparison) : ∀ a : Q,
  (0 <= a)%Q →
  Forall (λ c, ∃ q, diffPercentage (diff c) = Some q ∧ (0 <= q)%Q) l →
  ∃ t, fold_left (λ sum c, JS.add sum (diffPercentage (diff c))) l (Some a)
       = Some t ∧ (0 <= t)%Q.
Proof.
  induction l as [|c l IH]; intros a Ha Hl; simpl; [by eauto|].
  apply Forall_cons in Hl as [(q & -> & Hq) Hl]. simpl.
  apply IH; [|done]. lra.
Qed.

Lemma total_undefined (l : list Comparison) : ∀ a : option Q,
  (a = None ∨ Exists (λ c, diffPercentage (diff c) = None) l) →
  fold_left (λ sum c, JS.add sum (diffPercentage (diff c))) l a = None.
Proof.
  induction l as [|c l IH]; intros a [Ha|Hl]; simpl.
  - done.
  - by apply Exists_nil in Hl.
  - apply IH. left. by rewrite Ha.
  - apply Exists_cons in Hl as [Hc|Hl]; [|apply IH; by right].
    apply IH. left. rewrite Hc. by destruct a.
Qed.

Lemma round_at_most_100 (x : Q) : (x <= 100)%Q → JS.round x ≤ 100.
Proof.
  intros Hx. unfold JS.round.
  change 100 with (Qfloor (100 + (1 # 2))%Q).
  apply Qfloor_resp_le. lra.
Qed.

(** X16. When the visual score is a number: with a threshold that is not
    negative, the score of an audit lies between 0 and 100 when no
    comparison failed, and it is not a number exactly when some
    comparison failed with [comparison_error]. *)
Theorem visual_score_defined_and_bounded (cfg : Config) (pageUrl : string)
    (captures : list Capture) :
  (0 <= threshold cfg)%Q →
  let out := audit cfg pageUrl captures in
  match score out with
  | Some s =>
      0 ≤ s ≤ 100
      ∧ Forall (λ c, reason (diff c) ≠ comparison_error) (comparisons out)
  | None =>
      Exists (λ c, reason (diff c) = comparison_error) (comparisons out)
  end.
Proof.
  intros Hth. unfold audit. rewrite audit_fold.
  cbn [app comparisons score].
  set (cs := omap (comparisonOf cfg pageUrl) captures).
  assert (Hcs : Forall (λ c,
            (hasChanges (diff c) = false → reason (diff c) ≠ comparison_error)
            ∧ (hasChanges (diff c) = true →
               reason (diff c) = comparison_error
               ∧ diffPercentage (diff c) = None
               ∨ reason (diff c) ≠ comparison_error
                 ∧ ∃ q, diffPercentage (diff c) = Some q ∧ (0 <= q)%Q)) cs).
  { apply Forall_forall. intros c Hc.
    apply list_elem_of_omap in Hc as (cap & _ & Hcap).
    unfold comparisonOf in Hcap.
    destruct (cBaselineFile cap) as [b|]; [|done].
    injection Hcap as <-. cbn [diff].
    destruct (compareScreenshots_changed cfg b (cCurrentFile cap)
                (cDiffPath cap) (cWriteDiff cap)) as [Hq Hch].
    split; [exact Hq|]. intros Hc. destruct (Hch Hc) as [?|[Hne (q & E & Hq')]];
      [by left|right]. split; [done|]. exists q. split; [done|].
    destruct Hq' as [->|Hlt]; lra. }
  clearbody cs. rewrite Forall_forall in Hcs.
  set (changed := filter (λ c, hasChanges (diff c) = true) cs).
  destruct (decide (Exists (λ c, reason (diff c) = comparison_error) cs))
    as [Hex|Hno].
  - assert (Hchanged : Exists (λ c, diffPercentage (diff c) = None) changed).
    { apply Exists_exists in Hex as (c & Hc & Hr).
      apply Exists_exists. exists c.
      destruct (Hcs c Hc) as [Hq Hch].
      destruct (hasChanges (diff c)) eqn:E; [|by destruct Hq].
      split; [by apply list_elem_of_filter|].
      destruct (Hch eq_refl) as [[_ ?]|[? _]]; done. }
    unfold calculateVisualScore. fold changed.
    assert (Hne : changed ≠ []).
    { intros E. rewrite E in Hchanged. by apply Exists_nil in Hchanged. }
    assert (Hne' : cs ≠ []).
    { intros E. apply Hne. unfold changed. by rewrite E. }
    rewrite bool_decide_eq_false_2 by (by destruct cs).
    rewrite bool_decide_eq_false_2 by (by destruct changed).
    rewrite total_undefined by (by right). exact Hex.
  - assert (Hall : Forall (λ c, reason (diff c) ≠ comparison_error) cs).
    { apply Forall_forall. intros c Hc Hr. apply Hno.
      apply Exists_exists. by exists c. }
    assert (Hchanged : Forall (λ c, ∃ q, diffPercentage (diff c) = Some q
                                        ∧ (0 <= q)%Q) changed).
    { apply Forall_forall. intros c [Hch Hc]%list_elem_of_filter.
      destruct (Hcs c Hc) as [_ Hq].
      destruct (Hq Hch) as [[Hr _]|[_ Hq']]; [|done].
      rewrite Forall_forall in Hall. by destruct (Hall c Hc). }
    unfold calculateVisualScore. fold changed.
    case_bool_decide; [split; [lia|done]|].
    case_bool_decide as Hn; [split; [lia|done]|].
    destruct (total_of_changes changed 0%Q) as (t & -> & Ht); [lra|done|].
    cbn [fmap option_fmap option_map]. split; [|done]. split; [lia|].
    apply Z.max_lub; [lia|]. apply round_at_most_100.
    set (n := inject_Z (Z.of_nat (length changed))).
    set (m := inject_Z (Z.of_nat (length cs))).
    assert (Hn0 : (0 <= n)%Q).
    { unfold n. change 0%Q with (inject_Z 0). rewrite <- Zle_Qle. lia. }
    assert (Hm0 : (0 <= m)%Q).
    { unfold m. change 0%Q with (inject_Z 0). rewrite <- Zle_Qle. lia. }
    assert (Havg : (0 <= t / n)%Q).
    { unfold Qdiv. apply Qmult_le_0_compat; [done|].
      by apply Qinv_le_0_compat. }
    assert (Hratio : (0 <= n / m)%Q).
    { unfold Qdiv. apply Qmult_le_0_compat; [done|].
      by apply Qinv_le_0_compat. }
    lra.
Qed.

End VisualFindings.

Section VisualFindingsExample.
Import VisualRegressionAuditor VisualExamples.

Lemma visual_score_defined_and_bounded_witness :
  let captures :=
    [ {| cElement := "fullpage"; cViewport := "desktop";
         cBaselineFile := Some (Pixels (image 2 2 [0; 0; 0; 0]));
         cCurrentFile := Pixels (image 2 2 [9; 0; 0; 0]);
         cDiffPath := "diffs/a_fullpage_desktop.png";
         cWriteDiff := None |};
      {| cElement := "header"; cViewport := "desktop";
         cBaselineFile := None;
         cCurrentFile := Pixels (image 2 1 [1; 1]);
         cDiffPath := "diffs/a_header_desktop.png";
         cWriteDiff := None |} ] in
  let out :=
    audit (H := countingMatch) (newConfig None) "https://example.test/"
      captures in
  (0 <= threshold (newConfig None))%Q
  ∧ ∃ s, score out = Some s ∧ 0 ≤ s ≤ 100.
Proof.
  intros captures out.
  assert (Hth : (0 <= threshold (newConfig None))%Q) by (simpl; lra).
  split; [exact Hth|].
  pose proof (visual_score_defined_and_bounded (H := countingMatch)
                (newConfig None) "https://example.test/" captures Hth)
    as Hscore.
  fold out in Hscore. cbv zeta in Hscore.
  destruct (score out) as [s|] eqn:E.
  - exists s. split; [reflexivity|exact (proj1 Hscore)].
  - vm_compute in E. discriminate E.
Defined.

End VisualFindingsExample.

(** ** Summary of a run *)

Section Summary.
Import BaseAuditor AuditSummary.
Context {Details Finding : Type}.






End Summary.

(** ** The worker pool *)

Section PoolProperties.
Import BaseAuditor AuditEngine Pool.
Context {PluginDetails Payload : Type}.

Lemma auditSingleUrl_url (cfg : Config) (env : @Env PluginDetails Payload)
    (cr : CrawlResult.t) (fuel : nat) :
  ∀ (opts : Options) (w : World) (r : Result),
  (auditSingleUrl cfg fuel cr opts env w).1 = Some r →
  AuditResult.url r = CrawlResult.url cr.
Proof.
  induction fuel as [|fuel IH]; intros opts w r Hrun; [done|].
  rewrite auditSingleUrl_unfold in Hrun. cbv zeta in Hrun.
  destruct (applyRateLimit _ env w) as [[] w1].
  destruct (navigateWithRetry cfg _ env w1) as [[status txt| |m] w2];
    [|by injection Hrun as <-|by injection Hrun as <-].
  case_bool_decide.
  - unfold handleRateLimit, mbind, M_bind, bind, getRetries, setRetries,
      rnd, sleep, mret, M_ret, ret in Hrun.
    case_bool_decide; [by injection Hrun as <-|]. by apply IH in Hrun.
  - case_bool_decide; [by injection Hrun as <-|].
    destruct (sleep _ _ env w2) as [[] w3].
    destruct ((if humanSimulation cfg then simulateHumanBehavior
               else mret ()) env w3) as [[] w4].
    destruct (runAuditors _ _ _ env w4) as [rs w5].
    by injection Hrun as <-.
Qed.

Lemma launchFrom_spec (limit : Z) (pending : list CrawlResult.t) :
  ∀ (inFlight : list CrawlResult.t) (running : Z),
  ∃ started rest,
    launchFrom limit pending inFlight running
    = (rest, inFlight ++ started, running + Z.of_nat (length started))
    ∧ pending = started ++ rest
    ∧ running + Z.of_nat (length started) ≤ Z.max limit running
    ∧ (rest = [] ∨ limit ≤ running + Z.of_nat (length started)).
Proof.
  induction pending as [|c pending IH]; intros inFlight running.
  { exists [], []. simpl. rewrite app_nil_r, Z.add_0_r.
    repeat split; [lia|by left]. }
  simpl. case_bool_decide as Hroom.
  - destruct (IH (inFlight ++ [c]) (running + 1))
      as (started & rest & -> & -> & Hle & Hend).
    exists (c :: started), rest. rewrite <- app_assoc. simpl length.
    replace (running + Z.of_nat (S (length started)))
      with (running + 1 + Z.of_nat (length started)) by lia.
    repeat split; [lia|done].
  - exists [], (c :: pending). simpl. rewrite app_nil_r, Z.add_0_r.
    repeat split; [lia|right; lia].
Qed.

Lemma settle_spec (cfg : Config) (options : Options)
    (s s' : State PluginDetails Payload) (e : Settlement PluginDetails Payload) :
  settle cfg options s e = Some s' →
  callbackThrows e = None →
  ∃ crawlResult result,
    inFlight s !! task e = Some crawlResult
    ∧ AuditResult.url result = CrawlResult.url crawlResult
    ∧ pending s' = pending s
    ∧ inFlight s' = delete (task e) (inFlight s)
    ∧ runningTasks s' = runningTasks s - 1
    ∧ auditResults s' = auditResults s ++ [result]
    ∧ (length (successful s') + length (failed s'))%nat
      = S (length (successful s) + length (failed s))
    ∧ requestCount s' = requestCount s + 1.
Proof.
  unfold settle. intros Hs Hquiet. rewrite Hquiet in Hs.
  destruct (inFlight s !! task e) as [c|] eqn:Hc; [|done]. simpl in Hs.
  destruct (auditSingleUrl cfg (taskFuel e) c options (taskEnv e)
              (taskWorld e)).1 as [r|] eqn:Hr; [|done].
  simpl in Hs. injection Hs as <-. exists c, r.
  split; [done|]. split; [by eapply auditSingleUrl_url|].
  cbn [pending inFlight runningTasks auditResults successful failed
       requestCount].
  repeat (split; [done|]). split; [|done].
  destruct (AuditResult.success r); rewrite length_app; simpl; lia.
Qed.

Lemma launched_accounted (crs : list CrawlResult.t) (rc0 limit : Z)
    (s : State PluginDetails Payload) :
  accounted crs rc0 s →
  accounted crs rc0 (launched limit s)
  ∧ runningTasks (launched limit s) ≤ Z.max limit (runningTasks s)
  ∧ runningTasks s ≤ runningTasks (launched limit s).
Proof.
  intros (Hrun & Hperm & Hcount & Hreq). unfold launched.
  destruct (launchFrom_spec limit (pending s) (inFlight s) (runningTasks s))
    as (started & rest & -> & Hp & Hle & _).
  split; [|split; [done|simpl; lia]].
  split; [|split; [|done]];
    cbn [pending inFlight runningTasks auditResults successful failed
         requestCount].
  - rewrite length_app. lia.
  - rewrite <- Hperm, Hp. by rewrite !map_app, <- !app_assoc.
Qed.

Lemma settle_accounted (cfg : Config) (options : Options)
    (crs : list CrawlResult.t) (rc0 : Z)
    (s s' : State PluginDetails Payload) (e : Settlement PluginDetails Payload) :
  accounted crs rc0 s →
  settle cfg options s e = Some s' →
  callbackThrows e = None →
  accounted crs rc0 s' ∧ runningTasks s' = runningTasks s - 1.
Proof.
  intros (Hrun & Hperm & Hcount & Hreq) Hs Hquiet.
  destruct (settle_spec cfg options s s' e Hs Hquiet)
    as (c & r & Hc & Hurl & Ep & Ef & Er & Ea & Ec & Eq).
  split; [|done]. unfold accounted. rewrite Ep, Ef, Er, Ea, Ec, Eq.
  pose proof (lookup_lt_Some _ _ _ Hc) as Hlt.
  split; [|split; [|split]].
  - rewrite length_delete by eauto. lia.
  - rewrite <- Hperm, map_app, <- app_assoc. simpl. rewrite Hurl.
    apply Permutation_app_head.
    change (CrawlResult.url c
            :: map CrawlResult.url (delete (task e) (inFlight s))
            ++ map CrawlResult.url (pending s))
      with (map CrawlResult.url (c :: delete (task e) (inFlight s))
            ++ map CrawlResult.url (pending s)).
    apply Permutation_app_tail, Permutation_map. symmetry.
    by apply delete_Permutation.
  - rewrite length_app. simpl. lia.
  - rewrite length_app. simpl. lia.
Qed.

Lemma settleAll_accounted (cfg : Config) (options : Options)
    (crs : list CrawlResult.t) (rc0 : Z)
    (settlements : list (Settlement PluginDetails Payload)) :
  Forall (λ e, callbackThrows e = None) settlements →
  ∀ s s' : State PluginDetails Payload,
    accounted crs rc0 s →
    settleAll cfg options s settlements = Some s' →
    accounted crs rc0 s' ∧ runningTasks s' ≤ runningTasks s.
Proof.
  induction 1 as [|e settlements He _ IH]; intros s s' Hacc Hrun; simpl in Hrun.
  { injection Hrun as <-. split; [done|lia]. }
  destruct (settle cfg options s e) as [s1|] eqn:Hs; [|done]. simpl in Hrun.
  destruct (settle_accounted cfg options crs rc0 s s1 e Hacc Hs He)
    as [Hacc1 Hr1].
  destruct (IH s1 s' Hacc1 Hrun) as [Hacc' Hr']. split; [done|lia].
Qed.

(** X18. One result per URL: when the engine is idle at the start and the
    progress callback never throws, whatever the order in which the tasks
    settle, [auditUrls] ends with every task settled and returns results
    whose URLs are those of the crawl results, each as often as it was
    handed in; [successful] and [failed] together list them all, and the
    request count has grown by their number. *)
Theorem auditUrls_one_result_per_url (cfg : Config) (options : Options)
    (concurrentLimit requestCount0 : Z)
    (ticks : list (list (Settlement PluginDetails Payload)))
    (crawlResults : list CrawlResult.t) (s' : State PluginDetails Payload) :
  Forall (Forall (λ e, callbackThrows e = None)) ticks →
  auditUrls cfg options concurrentLimit 0 requestCount0 ticks crawlResults
  = Some s' →
  map AuditResult.url (auditResults s') ≡ₚ map CrawlResult.url crawlResults
  ∧ pending s' = [] ∧ inFlight s' = [] ∧ runningTasks s' = 0
  ∧ (length (successful s') + length (failed s'))%nat = length crawlResults
  ∧ requestCount s' = requestCount0 + Z.of_nat (length crawlResults).
Proof.
  intros Hquiet. unfold auditUrls.
  set (s0 := {| pending := crawlResults; inFlight := []; runningTasks := 0;
                auditResults := []; successful := []; failed := [];
                requestCount := requestCount0 |}).
  assert (Hacc0 : accounted crawlResults requestCount0 s0).
  { unfold accounted. simpl. split; [done|]. split; [done|]. split; [done|].
    lia. }
  clearbody s0. revert s0 Hacc0.
  induction Hquiet as [|settlements ticks Hq _ IH]; intros s0 Hacc0 Hrun;
    simpl in Hrun.
  - case_bool_decide as Hgo; [done|]. injection Hrun as <-.
    destruct Hacc0 as (Hrun & Hperm & Hcount & Hreq).
    assert (Hp : pending s0 = []) by (destruct (pending s0); [done|];
      exfalso; apply Hgo; by left).
    assert (Hf : inFlight s0 = []).
    { destruct (inFlight s0); [done|]. exfalso. apply Hgo. right.
      rewrite Hrun. simpl. lia. }
    rewrite Hp, Hf in Hperm. simpl in Hperm. rewrite app_nil_r in Hperm.
    rewrite Hf in Hrun. repeat (split; [done|]).
    apply Permutation_length in Hperm. rewrite !length_map in Hperm.
    split; [etransitivity; [exact Hcount|exact Hperm]|].
    rewrite Hreq. do 2 f_equal. exact Hperm.
  - case_bool_decide as Hgo.
    + destruct (settleAll cfg options (launched concurrentLimit s0)
                  settlements) as [s1|] eqn:Hs; [|done]. simpl in Hrun.
      destruct (launched_accounted crawlResults requestCount0
                  concurrentLimit s0 Hacc0) as (Hacc1 & _).
      destruct (settleAll_accounted cfg options crawlResults requestCount0
                  settlements Hq _ _ Hacc1 Hs) as [Hacc2 _].
      by apply (IH s1).
    + injection Hrun as <-.
      destruct Hacc0 as (Hrun & Hperm & Hcount & Hreq).
      assert (Hp : pending s0 = []) by (destruct (pending s0); [done|];
        exfalso; apply Hgo; by left).
      assert (Hf : inFlight s0 = []).
      { destruct (inFlight s0); [done|]. exfalso. apply Hgo. right.
        rewrite Hrun. simpl. lia. }
      rewrite Hp, Hf in Hperm. simpl in Hperm. rewrite app_nil_r in Hperm.
      rewrite Hf in Hrun. repeat (split; [done|]).
      apply Permutation_length in Hperm. rewrite !length_map in Hperm.
      split; [etransitivity; [exact Hcount|exact Hperm]|].
    rewrite Hreq. do 2 f_equal. exact Hperm.
Qed.

(** X19. The limit on concurrency holds: from a state in which the
    counter of running tasks is the number of tasks in flight, as long as
    the progress callback does not throw, the counter stays that number
    and never exceeds the larger of [concurrentLimit] and its value at
    the start; every URL stays accounted for. *)
Theorem running_tasks_within_limit (cfg : Config) (options : Options)
    (concurrentLimit requestCount0 : Z) (crawlResults : list CrawlResult.t)
    (s s' : State PluginDetails Payload) :
  accounted crawlResults requestCount0 s →
  rtc (step cfg options concurrentLimit) s s' →
  accounted crawlResults requestCount0 s'
  ∧ Z.of_nat (length (inFlight s')) ≤ Z.max concurrentLimit (runningTasks s).
Proof.
  intros Hacc Hsteps.
  assert (H : accounted crawlResults requestCount0 s'
              ∧ runningTasks s' ≤ Z.max concurrentLimit (runningTasks s)).
  { revert Hacc. induction Hsteps as [s|s s1 s' Hstep _ IH]; intros Hacc.
    - split; [done|lia].
    - destruct Hstep as [s|s e s1 Hs Hquiet].
      + destruct (launched_accounted crawlResults requestCount0
                    concurrentLimit s Hacc) as (Hacc1 & Hle & _).
        destruct (IH Hacc1) as [Hacc' Hle']. split; [done|lia].
      + destruct (settle_accounted cfg options crawlResults requestCount0
                    s s1 e Hacc Hs Hquiet) as [Hacc1 Hr].
        destruct (IH Hacc1) as [Hacc' Hle']. split; [done|lia]. }
  destruct H as [Hacc' Hle]. split; [done|].
  destruct Hacc' as (Hrun & _). by rewrite <- Hrun.
Qed.

Lemma launched_idle (limit : Z) (s : State PluginDetails Payload) :
  pending s = [] → launched limit s = s.
Proof. destruct s. simpl. by intros ->. Qed.

(** X20. A progress callback that throws is counted twice: the task is
    reported once with its result and once more as failed, and the
    counter of running tasks drops by two.  With two tasks in flight and
    nothing pending, the loop then ends at once: [auditUrls] returns
    while the other task is still running, without a result for it. *)
Theorem throwing_callback_drops_a_task (cfg : Config) (options : Options)
    (concurrentLimit requestCount0 : Z) (crawlResults : list CrawlResult.t)
    (s s1 : State PluginDetails Payload) (e : Settlement PluginDetails Payload)
    (message : string) (ticks : list (list (Settlement PluginDetails Payload))) :
  accounted crawlResults requestCount0 s →
  pending s = [] →
  length (inFlight s) = 2%nat →
  settle cfg options s e = Some s1 →
  callbackThrows e = Some message →
  auditUrlsFrom cfg options concurrentLimit ([e] :: ticks) s = Some s1
  ∧ length (inFlight s1) = 1%nat
  ∧ runningTasks s1 = 0
  ∧ ∃ crawlResult result,
      inFlight s !! task e = Some crawlResult
      ∧ AuditResult.url result = CrawlResult.url crawlResult
      ∧ auditResults s1
        = auditResults s
          ++ [result; failedResult (CrawlResult.url crawlResult) message].
Proof.
  intros (Hrun & _) Hp Hlen Hs Hthrow.
  assert (Hshape : pending s1 = [] ∧ runningTasks s1 = 0
            ∧ length (inFlight s1) = 1%nat
            ∧ ∃ crawlResult result,
                inFlight s !! task e = Some crawlResult
                ∧ AuditResult.url result = CrawlResult.url crawlResult
                ∧ auditResults s1
                  = auditResults s
                    ++ [result;
                        failedResult (CrawlResult.url crawlResult) message]).
  { unfold settle in Hs. rewrite Hthrow in Hs.
    destruct (inFlight s !! task e) as [c|] eqn:Hc; [|done]. simpl in Hs.
    destruct (auditSingleUrl cfg (taskFuel e) c options (taskEnv e)
                (taskWorld e)).1 as [r|] eqn:Hr; [|done].
    simpl in Hs. injection Hs as <-.
    cbn [pending inFlight runningTasks auditResults].
    split; [done|]. split; [lia|]. split.
    { rewrite length_delete by eauto. lia. }
    exists c, r. split; [done|]. split; [by eapply auditSingleUrl_url|].
    by rewrite <- app_assoc. }
  destruct Hshape as (Hp1 & Hr1 & Hl1 & Hres).
  split; [|done]. simpl.
  rewrite bool_decide_eq_true_2 by (right; lia).
  rewrite launched_idle by done. rewrite Hs. simpl.
  assert (Hstop : ¬ (pending s1 ≠ [] ∨ runningTasks s1 > 0)).
  { rewrite Hp1, Hr1. intros [?|?]; [done|lia]. }
  destruct ticks; simpl; by rewrite bool_decide_eq_false_2.
Qed.

End PoolProperties.

Section PoolExamples.
Import AuditEngine Pool.

Lemma auditUrls_one_result_per_url_witness :
  let cfg :=
    {| timeout := 90000; retries := 0; pageLoadDelay := 12000;
       humanSimulation := false; includePerformance := false;
       includeAccessibility := false; rateLimitDelay := 30000;
       maxRetryDelay := 120000; includeVisualRegression := false;
       includeStructureComparison := false |} in
  let page (u : string) :=
    {| CrawlResult.url := u; CrawlResult.discovered := true;
       CrawlResult.depth := 1; CrawlResult.source := "discovered" |} in
  let settles (i : nat) : Settlement unit unit :=
    {| task := i;
       taskEnv := {| navigate := λ _ _, Response 404 "Not Found";
                     random := λ _, (1 # 2)%Q;
                     plugins := λ _ _, Hangs |};
       taskWorld := {| rateLimitRetries := ∅; AuditEngine.requestCount := 0;
                       gotos := 0; draws := 0; trace := [] |};
       taskFuel := 1;
       callbackThrows := None |} in
  let ticks := [[settles 1%nat]; [settles 0%nat; settles 0%nat]] in
  let crawlResults := [page "/a"; page "/b"; page "/c"] in
  Forall (Forall (λ e, callbackThrows e = None)) ticks
  ∧ ∃ s', auditUrls cfg noOptions 2 0 0 ticks crawlResults = Some s'
          ∧ map AuditResult.url (auditResults s') = ["/b"; "/a"; "/c"]
          ∧ map AuditResult.url (auditResults s') ≡ₚ ["/a"; "/b"; "/c"].
Proof.
  intros cfg page settles ticks crawlResults.
  assert (Hquiet : Forall (Forall (λ e, callbackThrows e = None)) ticks)
    by (repeat constructor).
  split; [exact Hquiet|].
  destruct (auditUrls cfg noOptions 2 0 0 ticks crawlResults) as [s'|] eqn:Hrun;
    [|vm_compute in Hrun; discriminate].
  exists s'. split; [reflexivity|]. split.
  - vm_compute in Hrun. by injection Hrun as <-.
  - exact (proj1 (auditUrls_one_result_per_url cfg noOptions 2 0 ticks
                    crawlResults s' Hquiet Hrun)).
Defined.

Lemma running_tasks_within_limit_witness :
  let page (u : string) :=
    {| CrawlResult.url := u; CrawlResult.discovered := true;
       CrawlResult.depth := 1; CrawlResult.source := "discovered" |} in
  let crawlResults := [page "/a"; page "/b"; page "/c"] in
  let s : State unit unit :=
    {| pending := crawlResults; inFlight := []; runningTasks := 0;
       auditResults := []; successful := []; failed := [];
       requestCount := 0 |} in
  accounted crawlResults 0 s
  ∧ length (inFlight (launched 2 s)) = 2%nat
  ∧ Z.of_nat (length (inFlight (launched 2 s))) ≤ Z.max 2 (runningTasks s).
Proof.
  intros page crawlResults s.
  assert (Hacc : accounted crawlResults 0 s).
  { unfold accounted. simpl. repeat split; done. }
  split; [exact Hacc|]. split; [reflexivity|].
  refine (proj2 (running_tasks_within_limit
                   {| timeout := 90000; retries := 0; pageLoadDelay := 12000;
                      humanSimulation := false; includePerformance := false;
                      includeAccessibility := false; rateLimitDelay := 30000;
                      maxRetryDelay := 120000;
                      includeVisualRegression := false;
                      includeStructureComparison := false |}
                   noOptions 2 0 crawlResults s (launched 2 s) Hacc _)).
  apply rtc_once. apply step_launch.
Defined.

Lemma throwing_callback_drops_a_task_witness :
  let cfg :=
    {| timeout := 90000; retries := 0; pageLoadDelay := 12000;
       humanSimulation := false; includePerformance := false;
       includeAccessibility := false; rateLimitDelay := 30000;
       maxRetryDelay := 120000; includeVisualRegression := false;
       includeStructureComparison := false |} in
  let page (u : string) :=
    {| CrawlResult.url := u; CrawlResult.discovered := true;
       CrawlResult.depth := 1; CrawlResult.source := "discovered" |} in
  let e : Settlement unit unit :=
    {| task := 0;
       taskEnv := {| navigate := λ _ _, Response 404 "Not Found";
                     random := λ _, (1 # 2)%Q;
                     plugins := λ _ _, Hangs |};
       taskWorld := {| rateLimitRetries := ∅; AuditEngine.requestCount := 0;
                       gotos := 0; draws := 0; trace := [] |};
       taskFuel := 1;
       callbackThrows := Some "progress failed" |} in
  let crawlResults := [page "/a"; page "/b"] in
  let s : State unit unit :=
    {| pending := []; inFlight := crawlResults; runningTasks := 2;
       auditResults := []; successful := []; failed := [];
       requestCount := 0 |} in
  accounted crawlResults 0 s
  ∧ ∃ s1, settle cfg noOptions s e = Some s1
          ∧ auditUrlsFrom cfg noOptions 2 [[e]] s = Some s1
          ∧ map AuditResult.url (auditResults s1) = ["/a"; "/a"]
          ∧ inFlight s1 = [page "/b"].
Proof.
  intros cfg page e crawlResults s.
  assert (Hacc : accounted crawlResults 0 s).
  { unfold accounted. simpl. repeat split; done. }
  split; [exact Hacc|].
  destruct (settle cfg noOptions s e) as [s1|] eqn:Hs;
    [|vm_compute in Hs; discriminate].
  destruct (throwing_callback_drops_a_task cfg noOptions 2 0 crawlResults
              s s1 e "progress failed" [] Hacc eq_refl eq_refl Hs eq_refl)
    as (Hloop & _).
  exists s1. split; [reflexivity|]. split; [exact Hloop|].
  vm_compute in Hs. injection Hs as <-. split; reflexivity.
Defined.

End PoolExamples.

(** ** Options and the registry *)

Section OptionsIgnored.
Import BaseAuditor AuditEngine.
Context {PluginDetails Payload : Type}.

Lemma enabledAuditors_registry (cfg : Config) (opts : Options) :
  enabledAuditors cfg opts = initializeAuditors cfg.
Proof.
  unfold enabledAuditors, initializeAuditors, shouldRunAuditor.
  destruct (includePerformance cfg), (includeAccessibility cfg);
    destruct (optPerformance opts), (optAccessibility opts); reflexivity.
Qed.

(** X21. The options of a call do not choose the auditors: every
    registered auditor runs on every page, whatever the options say, so an
    optional auditor runs exactly when the configuration registered it,
    and [auditSingleUrl] does the same for any two option objects; the
    retry after a 429, which passes empty options, audits as the first
    attempt would. *)
Theorem options_do_not_select_auditors (cfg : Config) (fuel : nat)
    (cr : CrawlResult.t) (opts opts' : Options)
    (env : @Env PluginDetails Payload) (w : World) :
  enabledAuditors cfg opts = initializeAuditors cfg
  ∧ shouldRunAuditor cfg "performance" opts
    = (optPerformance opts || includePerformance cfg)
  ∧ ("performance" ∈ enabledAuditors cfg opts ↔ includePerformance cfg = true)
  ∧ ("accessibility" ∈ enabledAuditors cfg opts
     ↔ includeAccessibility cfg = true)
  ∧ auditSingleUrl cfg fuel cr opts env w
    = auditSingleUrl cfg fuel cr opts' env w.
Proof.
  split; [apply enabledAuditors_registry|]. split.
  { unfold shouldRunAuditor.
    by destruct (optPerformance opts), (includePerformance cfg). }
  rewrite !enabledAuditors_registry. unfold initializeAuditors, coreAuditors.
  split; [|split].
  - rewrite !elem_of_app.
    destruct (includePerformance cfg), (includeAccessibility cfg);
      rewrite ?elem_of_cons, ?elem_of_nil; intuition discriminate.
  - rewrite !elem_of_app.
    destruct (includePerformance cfg), (includeAccessibility cfg);
      rewrite ?elem_of_cons, ?elem_of_nil; intuition discriminate.
  - revert opts opts' w. induction fuel as [|fuel IH]; intros opts opts' w;
      [done|].
    rewrite !auditSingleUrl_unfold. cbv zeta.
    destruct (applyRateLimit _ env w) as [[] w1].
    destruct (navigateWithRetry cfg _ env w1) as [[status txt| |m] w2];
      [|done|done].
    case_bool_decide; [done|]. case_bool_decide; [done|].
    by rewrite !enabledAuditors_registry.
Qed.

End OptionsIgnored.

(** ** Heading comparison misses nothing *)

Section HeadingCompleteness.
Import HTMLStructureAuditor.

Lemma forEach_headings_agree (cur : list Heading) (l : list Heading) :
  ∀ (k : nat) (s : HeadingChanges),
  (∀ j x, l !! j = Some x →
     ∃ y, cur !! (k + j)%nat = Some y ∧ level x = level y ∧ text x = text y) →
  JS.forEachFrom (compareHeadingAt cur) k l s = s.
Proof.
  induction l as [|x l IH]; intros k s Hl; simpl; [done|].
  rewrite IH.
  - unfold compareHeadingAt.
    destruct (Hl 0%nat x eq_refl) as (y & Hy & Hlev & Htxt).
    rewrite Nat.add_0_r in Hy. rewrite Hy.
    by rewrite !bool_decide_eq_true_2.
  - intros j y Hj. rewrite Nat.add_succ_l, <- Nat.add_succ_r. by apply Hl.
Qed.

Lemma forEach_headings_quiet (cur : list Heading) (l : list Heading) :
  ∀ (k : nat) (s : HeadingChanges),
  hHasChanges (JS.forEachFrom (compareHeadingAt cur) k l s) = false →
  hHasChanges s = false
  ∧ ∀ j x, l !! j = Some x →
      ∃ y, cur !! (k + j)%nat = Some y ∧ level x = level y ∧ text x = text y.
Proof.
  induction l as [|x l IH]; intros k s Hq; simpl in Hq.
  { split; [done|]. intros j x Hj. by rewrite lookup_nil in Hj. }
  destruct (IH _ _ Hq) as [Hstep Hrest].
  unfold compareHeadingAt in Hstep.
  destruct (cur !! k) as [y|] eqn:Hy; [|done].
  case_bool_decide as Hlev; [|done]. case_bool_decide as Htxt; [|done].
  simpl in Hstep. split; [done|].
  intros [|j] z Hj.
  - injection Hj as <-. exists y. by rewrite Nat.add_0_r.
  - rewrite Nat.add_succ_r, <- Nat.add_succ_l. by apply Hrest.
Qed.

(** X22. The heading comparison raises its flag exactly when the heading
    outlines differ: [hasChanges] is false if and only if the baseline
    and the current page have the same number of headings with the same
    level and text at every position; selectors, ids and classes do not
    count. *)
Theorem compareHeadings_flag_iff_outline_differs (b cur : list Heading) :
  hHasChanges (compareHeadings b cur) = false
  ↔ (λ h, (level h, text h)) <$> b = (λ h, (level h, text h)) <$> cur.
Proof.
  unfold compareHeadings, JS.forEach. split.
  - intros Hq.
    case_bool_decide as Hlen; [done|].
    destruct (forEach_headings_quiet cur b 0 _ Hq) as [_ Hagree].
    assert (Hsame : length b = length cur).
    { apply Nat.le_antisymm; [|lia].
      destruct (decide (length b ≤ length cur)%nat) as [|Hlong]; [done|].
      destruct (lookup_lt_is_Some_2 b (length cur)) as [x Hx]; [lia|].
      destruct (Hagree (length cur) x Hx) as (y & Hy & _).
      apply lookup_lt_Some in Hy. simpl in Hy. lia. }
    apply list_eq. intros j. rewrite !list_lookup_fmap.
    destruct (b !! j) as [x|] eqn:Hx.
    + destruct (Hagree j x Hx) as (y & Hy & Hl & Ht). simpl in Hy.
      rewrite Hy. simpl. by rewrite Hl, Ht.
    + apply lookup_ge_None in Hx.
      rewrite (proj2 (lookup_ge_None cur j)) by lia. done.
  - intros Heq.
    assert (Hsame : length b = length cur).
    { by rewrite <- (length_fmap (λ h, (level h, text h)) b), Heq,
        length_fmap. }
    rewrite bool_decide_eq_false_2 by lia.
    rewrite forEach_headings_agree; [done|].
    intros j x Hx. simpl.
    assert (Hj : ((λ h, (level h, text h)) <$> cur) !! j
                 = Some (level x, text x)).
    { rewrite <- Heq, list_lookup_fmap, Hx. done. }
    rewrite list_lookup_fmap in Hj.
    destruct (cur !! j) as [y|]; [|done]. simpl in Hj.
    injection Hj as Hl Ht. by exists y.
Qed.

End HeadingCompleteness.

(** ** The retry budget of a URL *)

Section RetryBudget.
Import BaseAuditor AuditEngine Navigation.
Context {PluginDetails Payload : Type}.














End RetryBudget.

(** ** A demoted H1 is always reported *)

Section DemotedH1.
Import BaseAuditor HTMLStructureAuditor Positional Correlation.

Lemma in_flatMapFrom {A B : Type} (g : A → nat → list B) (l : list A) :
  ∀ k j x e, l !! j = Some x → e ∈ g x (k + j)%nat → e ∈ flatMapFrom g k l.
Proof.
  induction l as [|y l IH]; intros k j x e Hj He; [done|]. simpl.
  apply elem_of_app. destruct j as [|j]; simpl in Hj.
  - injection Hj as ->. left. by rewrite Nat.add_0_r in He.
  - right. apply (IH (S k) j x); [done|].
    by replace (S k + j)%nat with (k + S j)%nat by lia.
Qed.

Lemma critical_changes_become_issues (sc : StructureChanges)
    (change : HierarchyChange) :
  change ∈ hierarchyChanges (headingChanges sc) →
  hcImpact change = critical →
  ∃ issue, issue ∈ (processStructureChanges sc [] []).1
           ∧ type issue = "critical_heading_change"
           ∧ severity issue = "error"
           ∧ details issue = DHierarchy change.
Proof.
  intros Hin Hcrit. unfold processStructureChanges.
  set (w0 := if titleChanged sc then _ else _).
  set (step := λ (iw : list (Issue Details) * list (Issue Details))
                 (c : HierarchyChange), match hcImpact c with
                                        | critical => _
                                        | warning => _
                                        | _ => iw
                                        end).
  set (wanted := λ issue : Issue Details,
         type issue = "critical_heading_change" ∧ severity issue = "error"
         ∧ details issue = DHierarchy change).
  assert (Hfold : ∀ l acc,
            (Exists wanted acc.1 ∨ change ∈ l) →
            Exists wanted (fold_left step l acc).1).
  { induction l as [|c l IH]; intros acc [Hacc|Hl]; simpl.
    - done.
    - by apply elem_of_nil in Hl.
    - apply IH. left. unfold step. destruct (hcImpact c); try done.
      unfold JS.push. simpl. apply Exists_app. by left.
    - apply elem_of_cons in Hl as [<-|Hl]; [|apply IH; by right].
      apply IH. left. unfold step. rewrite Hcrit. unfold JS.push. simpl.
      apply Exists_app. right. apply Exists_cons_hd. done. }
  specialize (Hfold (hierarchyChanges (headingChanges sc)) ([], w0)
                (or_intror Hin)).
  destruct (fold_left step _ _) as [i1 w1]. simpl in Hfold.
  assert (Hfinal : Exists wanted
            (if mHasChanges (metaTagChanges sc) then
               (fold_left
                  (λ issues removed,
                     if bool_decide (name removed = Some "description") then
                       JS.push issues
                         [createError "meta_description_removed"
                            "Meta description has been removed"
                            (DMetaRemoved removed)]
                     else issues)
                  (mRemoved (metaTagChanges sc)) i1)
             else i1)).
  { destruct (mHasChanges (metaTagChanges sc)); [|done].
    apply (fold_left_inv (Exists wanted)); [done|].
    intros a x _ Ha. case_bool_decide; [|done].
    unfold JS.push. apply Exists_app. by left. }
  apply Exists_exists in Hfinal as (issue & Hissue & Hw).
  exists issue. split; [|done].
  by destruct (mHasChanges (metaTagChanges sc)).
Qed.

Section WithParseFloat.
Context `{ParseFloat}.

(** X24. A demoted H1 cannot pass unnoticed: when a heading that is an
    H1 in the baseline has a lower rank at the same position of the
    current page, the audit raises [hasStructuralChanges], reports an
    issue of type critical_heading_change and severity error for that
    position, and scores at most 70, whatever else changed and however
    the page is styled. *)
Theorem demoted_h1_is_reported (styleAnalysis : bool) (baseline : Baseline)
    (structure : Structure) (styling : Styling) (i : nat) (hb hc : Heading) :
  headings (bStructure baseline) !! i = Some hb →
  headings structure !! i = Some hc →
  level hb = 1 →
  level hc > 1 →
  let out := (audit styleAnalysis (Some baseline) structure styling).1 in
  let change :=
    {| hcIndex := i; hcFrom := "H1"; hcTo := levelTag (level hc);
       hcText := text hc; hcSelector := selector hc;
       hcImpact := critical |} in
  hasStructuralChanges out = true
  ∧ (∃ issue, issue ∈ issues out
              ∧ type issue = "critical_heading_change"
              ∧ severity issue = "error"
              ∧ details issue = DHierarchy change)
  ∧ score out ≤ 70.
Proof.
  intros Hb Hc Hone Hlow out change.
  set (sc := compareStructures (bStructure baseline) structure).
  assert (Hin : change ∈ hierarchyChanges (headingChanges sc)).
  { unfold sc. cbn [compareStructures headingChanges].
    destruct (compareHeadings_fields (headings (bStructure baseline))
                (headings structure)) as (-> & _).
    apply (in_flatMapFrom _ _ 0 i hb); [done|]. simpl.
    unfold hierarchyOf. rewrite Hc.
    rewrite bool_decide_eq_false_2 by lia.
    apply list_elem_of_singleton. unfold change, assessHierarchyImpact.
    rewrite Hone. rewrite !bool_decide_eq_true_2 by lia. done. }
  assert (Hflag : hasChanges sc = true).
  { destruct (hasChanges sc) eqn:E; [done|].
    destruct (compareStructures_flag _ _ E) as (Hh & _).
    fold sc in Hh. rewrite Hh in Hin. by apply elem_of_nil in Hin. }
  destruct (critical_changes_become_issues sc change Hin eq_refl)
    as (issue & Hissue & Hty & Hsev & Hdet).
  assert (Hcount : 1 ≤ countImpact critical
                         (hierarchyChanges (headingChanges sc))).
  { unfold countImpact.
    assert (Hf : change ∈ filter (λ c, hcImpact c = critical)
                            (hierarchyChanges (headingChanges sc)))
      by (by apply list_elem_of_filter).
    destruct (filter _ _); [by apply elem_of_nil in Hf|simpl; lia]. }
  assert (Hscore : ∀ stc, calculateStructureScore sc stc ≤ 70).
  { intros stc. unfold calculateStructureScore. rewrite Hflag.
    assert (0 ≤ countImpact warning (hierarchyChanges (headingChanges sc)))
      by (unfold countImpact; lia).
    destruct stc as [c|]; [destruct (hasCompensation c)|]; lia. }
  subst out. unfold audit. fold sc.
  assert (Hcase : ∃ stc,
            match styleAnalysis, bStyling baseline,
                  (if styleAnalysis then Some styling else None) with
            | true, Some bs, Some cs => Some (compareStyling bs cs)
            | _, _, _ => None
            end = stc
            ∧ ∀ c, stc = Some c →
                hasCompensation c = false → suspiciousChanges c = []).
  { destruct styleAnalysis; [|by eexists].
    destruct (bStyling baseline) as [bs|]; [|by eexists].
    eexists. split; [reflexivity|]. intros c [= <-].
    apply compareStyling_flag. }
  destruct Hcase as (stc & -> & Hstc).
  destruct (processStructureChanges sc [] []) as [i0 w0] eqn:E0.
  simpl in Hissue.
  destruct stc as [c|].
  - rewrite (processStylingChanges_lists c sc i0 w0 (Hstc c eq_refl)).
    cbn [fst hasStructuralChanges issues score].
    split; [done|]. split; [|apply Hscore].
    exists issue. split; [|done]. apply elem_of_app. by left.
  - cbn [fst hasStructuralChanges issues score].
    split; [done|]. split; [|apply Hscore]. by exists issue.
Qed.

End WithParseFloat.

Lemma demoted_h1_is_reported_witness :
  let out :=
    (audit (H := Decimal.parse) true (Some Examples.demotedBaseline)
       (Examples.page Examples.demotedAfter) Examples.demotedStyleAfter).1 in
  hasStructuralChanges out = true
  ∧ (∃ issue, issue ∈ issues out ∧ type issue = "critical_heading_change")
  ∧ score out ≤ 70.
Proof.
  intros out.
  destruct (demoted_h1_is_reported (H := Decimal.parse) true
              Examples.demotedBaseline (Examples.page Examples.demotedAfter)
              Examples.demotedStyleAfter 1
              (Examples.heading 1 "Welcome" "main > h1" 1)
              (Examples.heading 3 "Welcome" "main:nth-child(2) > h3" 1)
              eq_refl eq_refl eq_refl ltac:(simpl; lia))
    as (Hflag & (issue & Hin & Hty & _) & Hscore).
  split; [exact Hflag|]. split; [by exists issue|exact Hscore].
Defined.

End DemotedH1.

(** ** A pool without capacity *)

Section PoolCapacity.
Import AuditEngine Pool.
Context {PluginDetails Payload : Type}.

Lemma auditUrlsFrom_stuck (cfg : Config) (options : Options) (limit : Z)
    (ticks : list (list (Settlement PluginDetails Payload))) :
  limit ≤ 0 →
  ∀ s : State PluginDetails Payload,
    pending s ≠ [] → inFlight s = [] → runningTasks s = 0 →
    auditUrlsFrom cfg options limit ticks s = None.
Proof.
  intros Hlimit. induction ticks as [|settlements ticks IH];
    intros s Hp Hf Hr; simpl.
  { by rewrite bool_decide_eq_true_2 by (by left). }
  rewrite bool_decide_eq_true_2 by (by left).
  assert (Hl : pending (launched limit s) = pending s
               ∧ inFlight (launched limit s) = []
               ∧ runningTasks (launched limit s) = 0).
  { unfold launched. destruct (pending s) as [|c rest] eqn:E; [done|].
    simpl. rewrite Hr. rewrite bool_decide_eq_false_2 by lia. done. }
  destruct Hl as (Hp' & Hf' & Hr').
  destruct settlements as [|e settlements]; simpl.
  - apply IH; [by rewrite Hp'|done|done].
  - unfold settle. rewrite Hf'. by rewrite lookup_nil.
Qed.

(** X25. A limit below one starves the pool: with [concurrentLimit] zero
    or negative and an idle engine, [auditUrls] starts no task, so for a
    non-empty list of crawl results its loop never ends, whatever the
    schedule. *)
Theorem auditUrls_never_returns_without_capacity (cfg : Config)
    (options : Options) (concurrentLimit requestCount0 : Z)
    (ticks : list (list (Settlement PluginDetails Payload)))
    (crawlResults : list CrawlResult.t) :
  concurrentLimit ≤ 0 →
  crawlResults ≠ [] →
  auditUrls cfg options concurrentLimit 0 requestCount0 ticks crawlResults
  = None
  ∧ launched (PluginDetails := PluginDetails) (Payload := Payload)
      concurrentLimit
      {| pending := crawlResults; inFlight := []; runningTasks := 0;
         auditResults := []; successful := []; failed := [];
         requestCount := requestCount0 |}
    = {| pending := crawlResults; inFlight := []; runningTasks := 0;
         auditResults := []; successful := []; failed := [];
         requestCount := requestCount0 |}.
Proof.
  intros Hlimit Hne. split.
  - unfold auditUrls. by apply auditUrlsFrom_stuck.
  - unfold launched. destruct crawlResults as [|c rest]; [done|]. simpl.
    by rewrite bool_decide_eq_false_2 by lia.
Qed.

End PoolCapacity.

Section PoolCapacityExample.
Import AuditEngine Pool.

Lemma auditUrls_never_returns_without_capacity_witness :
  let cfg :=
    {| timeout := 90000; retries := 0; pageLoadDelay := 12000;
       humanSimulation := false; includePerformance := false;
       includeAccessibility := false; rateLimitDelay := 30000;
       maxRetryDelay := 120000; includeVisualRegression := false;
       includeStructureComparison := false |} in
  let crawlResults :=
    [ {| CrawlResult.url := "/a"; CrawlResult.discovered := true;
         CrawlResult.depth := 0; CrawlResult.source := "landing-page" |} ] in
  -1 ≤ 0
  ∧ crawlResults ≠ []
  ∧ auditUrls (PluginDetails := unit) (Payload := unit) cfg noOptions (-1) 0
      0 [[]; []; []] crawlResults = None.
Proof.
  intros cfg crawlResults.
  assert (H1 : -1 ≤ 0) by lia.
  assert (H2 : crawlResults ≠ []) by done.
  split; [exact H1|]. split; [exact H2|].
  exact (proj1 (auditUrls_never_returns_without_capacity cfg noOptions (-1) 0
                  [[]; []; []] crawlResults H1 H2)).
Defined.

End PoolCapacityExample.

(** ** Screenshots that equal their baselines *)

Section UnchangedScreenshots.
Import BaseAuditor VisualRegressionAuditor.
Context `{PixelMatch}.

Lemma compareScreenshots_same (cfg : Config) (img : Image) (path : string)
    (writeDiff : option string) :
  (∀ pixels w h, pixelmatch pixels pixels w h = inr 0) →
  (0 <= threshold cfg)%Q →
  hasChanges (compareScreenshots cfg (Pixels img) (Pixels img) path writeDiff)
  = false.
Proof.
  intros Hsame Hth. unfold compareScreenshots.
  rewrite !bool_decide_eq_true_2 by done. cbn [negb orb].
  rewrite Hsame.
  assert (Hquiet : JS.gt (percentOf 0 (width img * height img))
                     (Some (threshold cfg)) = false).
  { unfold percentOf. case_bool_decide; [done|].
    apply gt_false_iff.
    assert (E : (inject_Z 0 / inject_Z (width img * height img) * 100 == 0)%Q)
      by (unfold Qdiv; ring).
    by rewrite E. }
  by rewrite Hquiet.
Qed.

(** X26. A page that looks as before is clean: when every capture is
    compared with a baseline image that is the very image captured, and
    [pixelmatch] finds no differing pixel between a buffer and itself,
    then with a threshold that is not negative the audit has one
    comparison per capture, no visual change and no finding, and scores
    100. *)
Theorem unchanged_screenshots_are_clean (cfg : Config) (pageUrl : string)
    (captures : list Capture) :
  (∀ pixels w h, pixelmatch pixels pixels w h = inr 0) →
  (0 <= threshold cfg)%Q →
  Forall (λ c, ∃ img, cCurrentFile c = Pixels img
                      ∧ cBaselineFile c = Some (Pixels img)) captures →
  let out := audit cfg pageUrl captures in
  length (comparisons out) = length captures
  ∧ visualChanges out = []
  ∧ findings out = {| issues := []; warnings := []; recommendations := [] |}
  ∧ score out = Some 100.
Proof.
  intros Hsame Hth Hcaps. unfold audit. rewrite audit_fold.
  cbn [app comparisons visualChanges findings score].
  set (cs := omap (comparisonOf cfg pageUrl) captures).
  assert (Hcs : length cs = length captures
                ∧ Forall (λ c, hasChanges (diff c) = false) cs).
  { unfold cs. clear cs. induction Hcaps as [|c l (img & Hc & Hb) _ IH].
    - split; [done|constructor].
    - assert (E : comparisonOf cfg pageUrl c
                  = Some {| diff :=
                              compareScreenshots cfg (Pixels img) (Pixels img)
                                (cDiffPath c) (cWriteDiff c);
                            element := cElement c;
                            viewport := cViewport c;
                            url := pageUrl |})
        by (unfold comparisonOf; by rewrite Hb, Hc).
      destruct IH as [IHlen IHall]. simpl. rewrite E.
      split; [exact (f_equal S IHlen)|].
      apply Forall_cons. split; [|done]. cbn [diff].
      by apply compareScreenshots_same. }
  destruct Hcs as [Hlen Hall]. clearbody cs.
  assert (Hnone : filter (λ c, hasChanges (diff c) = true) cs = []).
  { apply filter_none. eapply Forall_impl; [exact Hall|].
    intros c Hc. simpl. by rewrite Hc. }
  split; [done|]. split; [done|]. split.
  - apply (fold_left_inv (λ f, f = {| issues := []; warnings := [];
                                      recommendations := [] |})); [done|].
    intros f c Hc ->. rewrite Forall_forall in Hall.
    unfold processComparison. by rewrite (Hall c Hc).
  - unfold calculateVisualScore. rewrite Hnone.
    case_bool_decide; [done|]. by rewrite bool_decide_eq_true_2.
Qed.

End UnchangedScreenshots.

Section UnchangedScreenshotsExample.
Import VisualRegressionAuditor VisualExamples.

Lemma unchanged_screenshots_are_clean_witness :
  let shot := Pixels (image 2 2 [7; 7; 7; 7]) in
  let captures :=
    [ {| cElement := "fullpage"; cViewport := "desktop";
         cBaselineFile := Some shot; cCurrentFile := shot;
         cDiffPath := "diffs/a_fullpage_desktop.png";
         cWriteDiff := None |} ] in
  (∀ pixels w h,
     pixelmatch (PixelMatch := countingMatch) pixels pixels w h = inr 0)
  ∧ (0 <= threshold (newConfig None))%Q
  ∧ score (audit (H := countingMatch) (newConfig None)
             "https://example.test/" captures) = Some 100.
Proof.
  intros shot captures.
  assert (Hsame : ∀ pixels w h,
            pixelmatch (PixelMatch := countingMatch) pixels pixels w h
            = inr 0).
  { intros pixels w h. unfold pixelmatch, countingMatch. f_equal.
    induction pixels as [|x pixels IH]; [done|]. simpl.
    rewrite bool_decide_eq_true_2 by done. by rewrite IH. }
  assert (Hth : (0 <= threshold (newConfig None))%Q) by (simpl; lra).
  split; [exact Hsame|]. split; [exact Hth|].
  refine (proj2 (proj2 (proj2
            (unchanged_screenshots_are_clean (H := countingMatch)
               (newConfig None) "https://example.test/" captures
               Hsame Hth _)))).
  repeat constructor. by eexists.
Defined.

End UnchangedScreenshotsExample.

(** ** A page on which every auditor fails *)

Section AllAuditorsFail.
Import BaseAuditor AuditEngine Positional.
Context {PluginDetails Payload : Type}.

Lemma failing_entries (cfg : Config) (url : string)
    (run : list (string * Behaviour PluginDetails Payload)) :
  Forall (λ nb, failing cfg nb.2) run →
  ∀ k,
    length (flatMapFrom (issuesOf url) k (settle cfg run)) = length run
    ∧ Forall (λ i, type i = "audit_failure" ∧ severity i = "error")
        (flatMapFrom (issuesOf url) k (settle cfg run))
    ∧ flatMapFrom warningsOf k (settle cfg run) = [].
Proof.
  induction 1 as [|[n b] run Hb _ IH]; intros k; [done|].
  destruct (IH (S k)) as (Hlen & Hall & Hw).
  assert (Hfail : success (runAuditorWithTimeout cfg n b) = false).
  { unfold runAuditorWithTimeout.
    destruct b as [after r|after m|]; [|by case_bool_decide|done].
    simpl in Hb. by rewrite bool_decide_eq_false_2 by lia. }
  change (settle cfg ((n, b) :: run))
    with (Fulfilled (runAuditorWithTimeout cfg n b) :: settle cfg run).
  cbn [flatMapFrom].
  unfold issuesOf at 1 3, warningsOf at 1.
  destruct (runAuditorWithTimeout cfg n b) as [n' ok r e]. simpl in Hfail.
  subst ok. split; [simpl; by rewrite Hlen|]. split; [|done].
  apply Forall_cons. done.
Qed.

(** X27. When every auditor fails, the page still counts as audited: if
    the page answers with a status below 400 and every auditor times out
    or throws on it, [auditSingleUrl] returns a successful result that
    carries one audit_failure issue of severity error per registered
    auditor and no warning; its score is [100 - 15] per auditor, floored
    at 0, hence at most 10. *)
Theorem all_auditors_failing_still_succeeds (cfg : Config)
    (env : @Env PluginDetails Payload) (fuel : nat) (cr : CrawlResult.t)
    (opts : Options) (w : World) (status : Z) (statusText : string) :
  let url := CrawlResult.url cr in
  let n := Z.of_nat (length (initializeAuditors cfg)) in
  navigate env (gotos w) url = Response status statusText →
  status < 400 →
  (∀ auditorName, failing cfg (plugins env auditorName url)) →
  ∃ r w',
    auditSingleUrl cfg (S fuel) cr opts env w = (Some r, w')
    ∧ AuditResult.success r = true
    ∧ AuditResult.statusCode r = status
    ∧ Z.of_nat (length (AuditResult.issues r)) = n
    ∧ Forall (λ i, type i = "audit_failure" ∧ severity i = "error")
        (AuditResult.issues r)
    ∧ AuditResult.warnings r = []
    ∧ AuditResult.auditScore r = Z.max 0 (100 - 15 * n)
    ∧ AuditResult.auditScore r ≤ 10.
Proof.
  intros url n Hnav Hok Hfail.
  rewrite auditSingleUrl_unfold. cbv zeta. rewrite applyRateLimit_run.
  rewrite navigateWithRetry_settles
    by (cbn [gotos]; intros m; fold url; rewrite Hnav; discriminate).
  cbn [gotos]. fold url. rewrite Hnav.
  rewrite bool_decide_eq_false_2 by lia.
  rewrite bool_decide_eq_false_2 by lia.
  destruct (sleep _ _ env _) as [[] w3].
  destruct ((if humanSimulation cfg then simulateHumanBehavior
             else mret ()) env w3) as [[] w4].
  rewrite runAuditors_settles, enabledAuditors_registry.
  set (run := map (λ a, (a, plugins env a url)) (initializeAuditors cfg)).
  assert (Hrun : Forall (λ nb, failing cfg nb.2) run).
  { apply Forall_forall. intros [a b] Hin.
    apply list_elem_of_In, in_map_iff in Hin as (a' & [= <- <-] & _).
    apply Hfail. }
  assert (Hn : length run = length (initializeAuditors cfg))
    by apply length_map.
  clearbody run.
  destruct (failing_entries cfg url run Hrun 0) as (Hlen & Hall & Hw).
  destruct (compile_fields url (settle cfg run) 0
              {| perAuditor := ∅; issues := []; warnings := [];
                 recommendations := [] |}) as (Ei & Ew & _).
  cbn [issues warnings] in Ei, Ew. rewrite app_nil_l in Ei, Ew.
  eexists _, _. split; [reflexivity|].
  unfold successResult, AuditResult.new, compileAuditResults, JS.forEach.
  cbn [AuditResult.success AuditResult.statusCode AuditResult.issues
       AuditResult.warnings AuditResult.auditScore resultData
       AuditResult.d_success AuditResult.d_statusCode AuditResult.d_issues
       AuditResult.d_warnings default].
  rewrite Ei, Ew, Hw. unfold id.
  split; [done|]. split; [done|].
  split; [unfold n; by rewrite Hlen, Hn|]. split; [done|]. split; [done|].
  unfold AuditResult.calculateAuditScore. cbn [negb].
  rewrite filter_all
    by (eapply Forall_impl; [exact Hall|]; by intros i [_ ?]).
  rewrite Hlen, Hn. fold n.
  assert (6 ≤ n).
  { unfold n, initializeAuditors. rewrite length_app. simpl. lia. }
  simpl length. lia.
Qed.

End AllAuditorsFail.

Section AllAuditorsFailExample.
Import AuditEngine.

Lemma all_auditors_failing_still_succeeds_witness :
  let cfg :=
    {| timeout := 90000; retries := 3; pageLoadDelay := 12000;
       humanSimulation := false; includePerformance := false;
       includeAccessibility := false; rateLimitDelay := 30000;
       maxRetryDelay := 120000; includeVisualRegression := true;
       includeStructureComparison := true |} in
  let env : @Env unit unit :=
    {| navigate := λ _ _, Response 200 "OK";
       random := λ _, (1 # 2)%Q;
       plugins := λ _ _, Hangs |} in
  let w :=
    {| rateLimitRetries := ∅; requestCount := 0; gotos := 0; draws := 0;
       trace := [] |} in
  let cr :=
    {| CrawlResult.url := "https://example.test/"; CrawlResult.discovered := true;
       CrawlResult.depth := 0; CrawlResult.source := "landing-page" |} in
  ∃ r w',
    auditSingleUrl cfg 1 cr noOptions env w = (Some r, w')
    ∧ AuditResult.success r = true
    ∧ AuditResult.auditScore r = 10.
Proof.
  intros cfg env w cr.
  destruct (all_auditors_failing_still_succeeds cfg env 0 cr noOptions w
              200 "OK" eq_refl ltac:(lia) ltac:(by intros a))
    as (r & w' & Hrun & Hs & _ & _ & _ & _ & Hscore & _).
  exists r, w'. split; [exact Hrun|]. split; [exact Hs|].
  rewrite Hscore. reflexivity.
Defined.

End AllAuditorsFailExample.
